(** * caddy-knownagents: the module's configuration parser, life-cycle hooks
      and request handler, embedded from [knownagents.go] and its
      predecessor [darkvisitors.go]. *)

From Stdlib Require Import ZArith String Ascii List Lia.
From stdpp Require Import base strings gmap list.

Local Open Scope string_scope.
Local Open Scope list_scope.
Local Open Scope Z_scope.

(** ** Go values shared by every part of the module *)

(** A Go [error]: either a plain message ([errors.New], [fmt.Errorf]
    without [%w]) or an error wrapped with the position at which the
    Caddyfile dispenser raised it ([fmt.Errorf("%w, at %s:%d", ...)]). *)
Inductive error : Type :=
| errorString (msg : string)
| wrapAt (err : error) (file : string) (line : Z).

(** zap log levels and entries; structured fields are not kept. *)
Inductive Level : Type := DebugLevel | InfoLevel | WarnLevel | ErrorLevel.

Definition LogEntry : Type := (Level * string)%type.

(** ** Agent types (knownagents.go, lines 183-217) *)

Definition AgentType : Type := string.

Definition AIAssistant : AgentType := "AI Assistant".
Definition AIDataScraper : AgentType := "AI Data Scraper".
Definition AISearchCrawler : AgentType := "AI Search Crawler".
Definition Archiver : AgentType := "Archiver".
Definition DeveloperHelper : AgentType := "Developer Helper".
Definition Fetcher : AgentType := "Fetcher".
Definition HeadlessBrowser : AgentType := "Headless Browser".
Definition IntelligenceGatherer : AgentType := "Intelligence Gatherer".
Definition Scraper : AgentType := "Scraper".
Definition SearchEngineCrawlers : AgentType := "Search Engine Crawler".
Definition SEOCrawler : AgentType := "SEO Crawler".
Definition Uncategorized : AgentType := "Uncategorized".
Definition UndocumentedAIAgent : AgentType := "Undocumented AI Agent".

Definition allAgentTypes : list AgentType :=
  [ AIAssistant; AIDataScraper; AISearchCrawler; Archiver; DeveloperHelper;
    Fetcher; HeadlessBrowser; IntelligenceGatherer; Scraper;
    SearchEngineCrawlers; SEOCrawler; Uncategorized; UndocumentedAIAgent ].

(** [slices.Contains] on strings. *)
Fixpoint slices_Contains (s : list string) (v : string) : bool :=
  match s with
  | [] => false
  | x :: s' => if String.eqb x v then true else slices_Contains s' v
  end.

(** [strings.Join]. *)
Definition strings_Join (elems : list string) (sep : string) : string :=
  String.concat sep elems.

(** ** The module's settings (knownagents.go, lines 229-250) *)

Record RobotsTxt : Type := mkRobotsTxt {
  AgentTypes : list AgentType;
  Disallow : string;
  text : string
}.

(** [new(RobotsTxt)]: the zero value. *)
Definition new_RobotsTxt : RobotsTxt :=
  {| AgentTypes := []; Disallow := ""; text := "" |}.

(** The [RobotsTxt *RobotsTxt] field is a pointer that only this module
    value holds; [None] is the nil pointer.  The [logger] field is left
    out: every log call is recorded as a [LogEntry] by the function that
    makes it (the host provisions a module before it validates it or
    serves with it, so the logger is always the provisioned one). *)
Record Knownagents : Type := mkKnownagents {
  AccessToken : string;
  Robots : option RobotsTxt
}.

(** [var m Knownagents] / [&Knownagents{}]. *)
Definition zero_Knownagents : Knownagents :=
  {| AccessToken := ""; Robots := None |}.

Definition set_AccessToken (v : string) (m : Knownagents) : Knownagents :=
  {| AccessToken := v; Robots := Robots m |}.

Definition set_Robots (r : option RobotsTxt) (m : Knownagents) : Knownagents :=
  {| AccessToken := AccessToken m; Robots := r |}.

Definition set_AgentTypes (l : list AgentType) (r : RobotsTxt) : RobotsTxt :=
  {| AgentTypes := l; Disallow := Disallow r; text := text r |}.

Definition set_Disallow (p : string) (r : RobotsTxt) : RobotsTxt :=
  {| AgentTypes := AgentTypes r; Disallow := p; text := text r |}.

Definition set_text (t : string) (r : RobotsTxt) : RobotsTxt :=
  {| AgentTypes := AgentTypes r; Disallow := Disallow r; text := t |}.

(** ** Validate (knownagents.go, lines 325-343; darkvisitors.go, 165-183) *)

(** The [for _, at := range m.RobotsTxt.AgentTypes] loop with its early
    return. *)
Fixpoint check_agent_types (ats : list AgentType) : option error :=
  match ats with
  | [] => None
  | at_ :: rest =>
      if negb (slices_Contains allAgentTypes at_)
      then Some (errorString ("unrecognized agent type '" +:+ at_ +:+ "'"))
      else check_agent_types rest
  end.

Section Validate.
(** The two variants differ in the module name they log. *)
Variable module_name : string.

Definition validate (m : Knownagents) : list LogEntry * option error :=
  let log0 := [(DebugLevel, "Access Token: " +:+ AccessToken m)] in
  match Robots m with
  | Some rt =>
      match check_agent_types (AgentTypes rt) with
      | Some e => (log0, Some e)
      | None =>
          (log0 ++
           [(DebugLevel, "Agent Types: " +:+ strings_Join (AgentTypes rt) ",");
            (DebugLevel, "Disallow: " +:+ Disallow rt);
            (InfoLevel, module_name +:+ " middleware validated")],
           None)
      end
  | None =>
      (log0 ++ [(InfoLevel, module_name +:+ " middleware validated")], None)
  end.

End Validate.

Definition Validate : Knownagents -> list LogEntry * option error :=
  validate "Knownagents".

(** ** HTTP values used by the handler and the fetcher *)

(** [net/textproto]: the bytes allowed in a header field name. *)
Definition validHeaderFieldByte (c : ascii) : bool :=
  let n := nat_of_ascii c in
  ((48 <=? n) && (n <=? 57) || (97 <=? n) && (n <=? 122) ||
   (65 <=? n) && (n <=? 90) ||
   existsb (Ascii.eqb c)
     (list_ascii_of_string "!#$%&'*+-.^_`|~"))%nat%bool.

Definition isLower (c : ascii) : bool :=
  let n := nat_of_ascii c in ((97 <=? n) && (n <=? 122))%nat.

Definition isUpper (c : ascii) : bool :=
  let n := nat_of_ascii c in ((65 <=? n) && (n <=? 90))%nat.

(** The rewriting loop of [canonicalMIMEHeaderKey]: upper case at the
    start and after each dash, lower case elsewhere. *)
Fixpoint canonicalize (upper : bool) (a : string) : string :=
  match a with
  | EmptyString => EmptyString
  | String c rest =>
      let c' :=
        if upper && isLower c then ascii_of_nat (nat_of_ascii c - 32)
        else if negb upper && isUpper c then ascii_of_nat (nat_of_ascii c + 32)
        else c in
      String c' (canonicalize (Ascii.eqb c' "-") rest)
  end.

(** [textproto.CanonicalMIMEHeaderKey]: a key with a byte that is not
    allowed in a field name is returned unchanged. *)
Definition CanonicalMIMEHeaderKey (s : string) : string :=
  if forallb validHeaderFieldByte (list_ascii_of_string s)
  then canonicalize true s else s.

(** [http.Header] is [map[string][]string]. *)
Definition Header_Del (key : string)
    (h : gmap string (list string)) : gmap string (list string) :=
  delete (CanonicalMIMEHeaderKey key) h.

Definition Header_Set (key value : string)
    (h : gmap string (list string)) : gmap string (list string) :=
  <[CanonicalMIMEHeaderKey key := [value]]> h.

(** [Header.Clone] makes a deep copy, so that what is done to the copy
    leaves the original alone; values being immutable here, the copy is
    the value itself. *)
Definition Header_Clone
    (h : gmap string (list string)) : gmap string (list string) := h.

(** The inbound [*http.Request], as far as the handler reads it. *)
Record Request : Type := mkRequest {
  Method : string;
  URL_Path : string;
  Header : gmap string (list string)
}.

(** The visit event, [map[string]interface{}] with three fixed keys. *)
Record VisitEvent : Type := mkVisitEvent {
  request_path : string;
  request_method : string;
  request_headers : gmap string (list string)
}.

(** What [json.Marshal] is applied to.  Neither a map of strings and
    string slices nor the [RobotsTxt] struct can fail to marshal, so the
    payload is kept as the value that is serialised ([text] is tagged
    [json:"-"] and is not part of it). *)
Inductive Payload : Type :=
| VisitJSON (ev : VisitEvent)
| RobotsJSON (agent_types : list AgentType) (disallow : string).

(** An outbound request handed to [client.Do]. *)
Record Outbound : Type := mkOutbound {
  o_method : string;
  o_url : string;
  o_header : gmap string (list string);
  o_body : Payload
}.

(** [http.NewRequest] with the two headers both call sites set.  With a
    constant method and URL it cannot fail. *)
Definition new_request (url token : string) (body : Payload) : Outbound :=
  {| o_method := "POST";
     o_url := url;
     o_header :=
       Header_Set "Content-Type" "application/json"
         (Header_Set "Authorization" ("Bearer " +:+ token) ∅);
     o_body := body |}.

(** What [client.Do] gives back: a status code and the outcome of
    reading the body with [io.ReadAll]. *)
Record Response : Type := mkResponse {
  StatusCode : Z;
  Body : string + error
}.

(** [client.Do]: a response and a nil error, or an error, with which the
    response is nil except when a redirect was refused (its body is then
    already closed). *)
Definition Transport : Type := Outbound -> Response + error * option Response.

(** What a goroutine started by the handler leaves behind: the requests
    it handed to [client.Do], its log entries, and whether it ended in a
    run-time panic. *)
Record TaskResult : Type := mkTaskResult {
  t_outbound : list Outbound;
  t_log : list LogEntry;
  t_panicked : bool
}.

(** The request-scoped state the handler chain shares: [r] is a pointer,
    so whatever the next handler does to the request is what a later
    reader of [r] sees; [w_vars] is the variable table the host keeps in
    every request's context. *)
Record World : Type := mkWorld {
  w_request : Request;
  w_vars : gmap string string
}.

(** [caddyhttp.Handler]: it may fail, and it may change the request and
    the variables. *)
Definition Handler : Type := World -> option error * World.

(** [caddyhttp.SetVar] with a non-nil value. *)
Definition caddyhttp_SetVar (key value : string) (w : World) : World :=
  {| w_request := w_request w; w_vars := <[key := value]> (w_vars w) |}.

(** The outcome of one [ServeHTTP] call: the error returned, the shared
    state it leaves, and the goroutines it started.  A goroutine reads
    the request through [r] when it runs, hence the [Request] argument. *)
Record Served : Type := mkServed {
  s_err : option error;
  s_world : World;
  s_spawned : list (Request -> TaskResult)
}.

(** The outcome of [Provision]. *)
Record Provisioned : Type := mkProvisioned {
  p_module : Knownagents;
  p_outbound : list Outbound;
  p_log : list LogEntry;
  p_err : option error
}.

Section Host.
(** The remote side: what [client.Do] answers to a request. *)
Variable client_Do : Transport.
(** [caddy.NewReplacer().ReplaceAll(input, empty)], the host's
    placeholder substitution. *)
Variable ReplaceAll : string -> string -> string.
(** The constants in which the two variants differ. *)
Variable robots_var : string.
Variable analytics_endpoint : string.
Variable robots_endpoint : string.

(** *** ServeHTTP (knownagents.go, lines 346-401; darkvisitors.go, 186-241) *)

(** The body of the goroutine.  The deferred [resp.Body.Close()] is
    registered whether [client.Do] failed or not, and dereferences [resp]
    when the goroutine ends: with a nil [resp] that is a run-time panic. *)
Definition report (m : Knownagents) (r : Request) : TaskResult :=
  let sanitizedHeaders := Header_Del "Cookie" (Header_Clone (Header r)) in
  let visitEvent :=
    {| request_path := URL_Path r;
       request_method := Method r;
       request_headers := sanitizedHeaders |} in
  let body := VisitJSON visitEvent in
  let req := new_request analytics_endpoint (AccessToken m) body in
  match client_Do req with
  | inr (_, resp) =>
      {| t_outbound := [req];
         t_log := [(DebugLevel, "Visit event payload constructed");
                   (WarnLevel, "Error sending visitor event")];
         t_panicked := match resp with None => true | Some _ => false end |}
  | inl _ =>
      {| t_outbound := [req];
         t_log := [(DebugLevel, "Visit event payload constructed");
                   (DebugLevel, "Visitor event sent")];
         t_panicked := false |}
  end.

(** [if m.RobotsTxt != nil { caddyhttp.SetVar(...) }] *)
Definition publish (m : Knownagents) (w : World) : World :=
  match Robots m with
  | Some rt => caddyhttp_SetVar robots_var (text rt) w
  | None => w
  end.

Definition serveHTTP (m : Knownagents) (next : Handler) (w : World) : Served :=
  let w1 := publish m w in
  (* run the next handler *)
  let '(err, w2) := next w1 in
  match err with
  | Some e => {| s_err := Some e; s_world := w2; s_spawned := [] |}
  | None => {| s_err := None; s_world := w2; s_spawned := [report m] |}
  end.

(** *** FetchRobotsTxt and Provision (knownagents.go, lines 262-322) *)

Definition FetchRobotsTxt (m : Knownagents) (rt : RobotsTxt) : Provisioned :=
  let query := RobotsJSON (AgentTypes rt) (Disallow rt) in
  let req := new_request robots_endpoint (AccessToken m) query in
  let log0 := [(InfoLevel, "Fetching generated robots.txt");
               (DebugLevel, "Robots.txt query payload constructed")] in
  match client_Do req with
  | inr (err, _) =>
      {| p_module := m; p_outbound := [req];
         p_log := log0 ++ [(WarnLevel, "Error sending robots.txt query")];
         p_err := Some err |}
  | inl resp =>
      let log1 := log0 ++ [(DebugLevel, "Robots.txt query sent")] in
      match Body resp with
      | inr err =>
          {| p_module := m; p_outbound := [req];
             p_log := log1 ++ [(WarnLevel, "Error reading response body")];
             p_err := Some err |}
      | inl body =>
          {| p_module := set_Robots (Some (set_text body rt)) m;
             p_outbound := [req]; p_log := log1; p_err := None |}
      end
  end.

Definition provision (m : Knownagents) : Provisioned :=
  let m1 := set_AccessToken (ReplaceAll (AccessToken m) "") m in
  match Robots m1 with
  | Some rt =>
      let rt1 :=
        if String.eqb (Disallow rt) "" then set_Disallow "/" rt else rt in
      FetchRobotsTxt (set_Robots (Some rt1) m1) rt1
  | None =>
      {| p_module := m1; p_outbound := []; p_log := []; p_err := None |}
  end.

End Host.

Definition AnalyticsEndpoint : string := "https://api.knownagents.com/visits".
Definition RobotsTxtEndpoint : string := "https://api.knownagents.com/robots-txts".

Definition ServeHTTP (client_Do : Transport) :
    Knownagents -> Handler -> World -> Served :=
  serveHTTP client_Do "ka_robots_txt" AnalyticsEndpoint.

Definition Provision (client_Do : Transport)
    (ReplaceAll : string -> string -> string) : Knownagents -> Provisioned :=
  provision client_Do ReplaceAll RobotsTxtEndpoint.

(** The predecessor module: same settings type, same handler and
    validator up to its names. *)
Module Darkvisitors.

Definition AnalyticsEndpoint : string := "https://api.darkvisitors.com/visits".

Definition ServeHTTP (client_Do : Transport) :
    Knownagents -> Handler -> World -> Served :=
  serveHTTP client_Do "dv_robots_txt" AnalyticsEndpoint.

Definition Validate : Knownagents -> list LogEntry * option error :=
  validate "Darkvisitors".

Definition RobotsTxtEndpoint : string :=
  "https://api.darkvisitors.com/robots-txts".

(** What the fetch goroutine leaves behind: the module as it has
    written it through [m], the requests it handed to [client.Do] and
    its log entries.  It returns nothing. *)
Record Fetched : Type := mkFetched {
  f_module : Knownagents;
  f_outbound : list Outbound;
  f_log : list LogEntry
}.

(** [FetchRobotsTxt] (darkvisitors.go, lines 107-144): every failure is
    logged and ends the function with a bare [return]. *)
Definition FetchRobotsTxt (client_Do : Transport)
    (m : Knownagents) (rt : RobotsTxt) : Fetched :=
  let query := RobotsJSON (AgentTypes rt) (Disallow rt) in
  let req := new_request RobotsTxtEndpoint (AccessToken m) query in
  let log0 := [(InfoLevel, "Fetching generated robots.txt");
               (DebugLevel, "Robots.txt query payload constructed")] in
  match client_Do req with
  | inr (_, _) =>
      {| f_module := m; f_outbound := [req];
         f_log := log0 ++ [(WarnLevel, "Error sending robots.txt query")] |}
  | inl resp =>
      let log1 := log0 ++ [(DebugLevel, "Robots.txt query sent")] in
      match Body resp with
      | inr _ =>
          {| f_module := m; f_outbound := [req];
             f_log := log1 ++ [(WarnLevel, "Error reading response body")] |}
      | inl body =>
          {| f_module := set_Robots (Some (set_text body rt)) m;
             f_outbound := [req]; f_log := log1 |}
      end
  end.

(** The outcome of [Provision]: the module as [Provision] leaves it, the
    error it returns, and the goroutines it started; a goroutine meets
    the remote side when it runs, hence the [Transport] argument. *)
Record Started : Type := mkStarted {
  st_module : Knownagents;
  st_err : option error;
  st_spawned : list (Transport -> Fetched)
}.

(** [Provision] (darkvisitors.go, lines 147-162): the fetch is started
    with [go] and not waited for. *)
Definition Provision (ReplaceAll : string -> string -> string)
    (m : Knownagents) : Started :=
  let m1 := set_AccessToken (ReplaceAll (AccessToken m) "") m in
  match Robots m1 with
  | Some rt =>
      let rt1 :=
        if String.eqb (Disallow rt) "" then set_Disallow "/" rt else rt in
      let m2 := set_Robots (Some rt1) m1 in
      {| st_module := m2; st_err := None;
         st_spawned := [fun client_Do => FetchRobotsTxt client_Do m2 rt1] |}
  | None => {| st_module := m1; st_err := None; st_spawned := [] |}
  end.

End Darkvisitors.

(** ** The host's Caddyfile dispenser

    [caddyfile.Dispenser] is the host's token cursor.  It is modelled
    here as far as [UnmarshalCaddyfile] drives it: tokens carry their
    file, line, text, quoting and import chain, and the cursor starts
    before the first token. *)
Module caddyfile.

Record Token : Type := mkToken {
  File : string;
  imports : list string;
  Line : Z;
  Text : string;
  heredoc : bool
}.

Record Dispenser : Type := mkDispenser {
  tokens : list Token;
  cursor : Z;
  nesting : Z
}.

Definition NewDispenser (toks : list Token) : Dispenser :=
  {| tokens := toks; cursor := -1; nesting := 0 |}.

Definition len (d : Dispenser) : Z := Z.of_nat (length (tokens d)).

Definition token_at (d : Dispenser) (i : Z) : option Token :=
  if i <? 0 then None else nth_error (tokens d) (Z.to_nat i).

Definition set_cursor (c : Z) (d : Dispenser) : Dispenser :=
  {| tokens := tokens d; cursor := c; nesting := nesting d |}.

Definition set_nesting (n : Z) (d : Dispenser) : Dispenser :=
  {| tokens := tokens d; cursor := cursor d; nesting := n |}.

(** [strings.Count(s, "\n")]. *)
Fixpoint count_newlines (s : string) : Z :=
  match s with
  | EmptyString => 0
  | String c rest =>
      (if Ascii.eqb c "010" then 1 else 0) + count_newlines rest
  end.

Definition NumLineBreaks (t : Token) : Z :=
  count_newlines (Text t) + (if heredoc t then 2 else 0).

Fixpoint strings_eqb (a b : list string) : bool :=
  match a, b with
  | [], [] => true
  | x :: a', y :: b' => String.eqb x y && strings_eqb a' b'
  | _, _ => false
  end.

Definition isNextOnNewLine (t1 t2 : Token) : bool :=
  if negb (String.eqb (File t1) (File t2)) then true
  else if negb (strings_eqb (imports t1) (imports t2)) then true
  else Line t1 + NumLineBreaks t1 <? Line t2.

Definition Val (d : Dispenser) : string :=
  match token_at d (cursor d) with
  | Some t => Text t
  | None => ""
  end.

Definition Dispenser_File (d : Dispenser) : string :=
  match token_at d (cursor d) with
  | Some t => File t
  | None => ""
  end.

Definition Dispenser_Line (d : Dispenser) : Z :=
  match token_at d (cursor d) with
  | Some t => Line t
  | None => 0
  end.

Definition Nesting (d : Dispenser) : Z := nesting d.

Definition Next (d : Dispenser) : bool * Dispenser :=
  if cursor d <? len d - 1
  then (true, set_cursor (cursor d + 1) d)
  else (false, d).

Definition nextOnSameLine (d : Dispenser) : bool * Dispenser :=
  if cursor d <? 0 then (true, set_cursor (cursor d + 1) d)
  else if cursor d >=? len d - 1 then (false, d)
  else
    match token_at d (cursor d), token_at d (cursor d + 1) with
    | Some curr, Some next =>
        if negb (isNextOnNewLine curr next)
        then (true, set_cursor (cursor d + 1) d)
        else (false, d)
    | _, _ => (false, d)
    end.

Definition NextArg (d : Dispenser) : bool * Dispenser :=
  let '(ok, d1) := nextOnSameLine d in
  if negb ok then (false, d1)
  else if String.eqb (Val d1) "{"
       then (false, set_cursor (cursor d1 - 1) d1)
       else (true, d1).

(** The condition [d.Val() == brace && !d.nextOnSameLine()]. *)
Definition brace_alone (brace : string) (d : Dispenser) : bool * Dispenser :=
  if String.eqb (Val d) brace then
    let '(same, d') := nextOnSameLine d in (negb same, d')
  else (false, d).

Definition NextBlock (initialNestingLevel : Z) (d : Dispenser)
    : bool * Dispenser :=
  if initialNestingLevel <? nesting d then
    let '(ok, d1) := Next d in
    if negb ok then (false, d1)
    else
      (* [d.Val() == "}" && !d.nextOnSameLine()]: the second operand
         moves the cursor when it holds, and the [else if] then reads
         the token it moved to. *)
      let '(closes, d2) := brace_alone "}" d1 in
      let d4 :=
        if closes then set_nesting (nesting d2 - 1) d2
        else
          let '(opens, d3) := brace_alone "{" d2 in
          if opens then set_nesting (nesting d3 + 1) d3 else d3 in
      (initialNestingLevel <? nesting d4, d4)
  else
    let '(ok, d1) := nextOnSameLine d in
    if negb ok then (false, d1)
    else if negb (String.eqb (Val d1) "{")
         then (false, set_cursor (cursor d1 - 1) d1)
         else
           let '(_, d2) := Next d1 in
           if String.eqb (Val d2) "}" then (false, d2)
           else (true, set_nesting (nesting d2 + 1) d2).

(** [WrapErr]: the error with the position of the current token. *)
Definition WrapErr (err : error) (d : Dispenser) : error :=
  wrapAt err (Dispenser_File d) (Dispenser_Line d).

Definition Err (msg : string) (d : Dispenser) : error :=
  WrapErr (errorString msg) d.

Definition ArgErr (d : Dispenser) : error :=
  if String.eqb (Val d) "{"
  then Err "unexpected token '{', expecting argument" d
  else Err ("wrong argument count or unexpected line ending after '"
            +:+ Val d +:+ "'") d.

(** The number of cursor moves the dispenser has left; it bounds the
    iterations of every loop driven by [NextArg] or [NextBlock]. *)
Definition remaining (d : Dispenser) : nat :=
  Z.to_nat (len d + 1 - cursor d).

End caddyfile.

Import caddyfile.

(** ** UnmarshalCaddyfile (knownagents.go, lines 404-466)

    The method mutates the module through [m] and the dispenser through
    [d], and returns early with an error.  Both pieces of state are
    threaded, and an error keeps the state reached when it was raised.
    [Stalled] is the outcome of a loop whose iteration budget ran out;
    [UnmarshalCaddyfile_total] shows it is never the outcome. *)
Inductive Result (A : Type) : Type :=
| Ok (a : A) (m : Knownagents) (d : Dispenser)
| Failed (e : error) (m : Knownagents) (d : Dispenser)
| Stalled.

Arguments Ok {A} a m d.
Arguments Failed {A} e m d.
Arguments Stalled {A}.

Definition Parser (A : Type) : Type := Knownagents -> Dispenser -> Result A.

Definition ret {A : Type} (a : A) : Parser A := fun m d => Ok a m d.

Definition bind {A B : Type} (c : Parser A) (k : A -> Parser B) : Parser B :=
  fun m d =>
    match c m d with
    | Ok a m' d' => k a m' d'
    | Failed e m' d' => Failed e m' d'
    | Stalled => Stalled
    end.

Declare Scope parser_scope.
Delimit Scope parser_scope with parser.
Bind Scope parser_scope with Parser.

Notation "x <- c1 ;; c2" := (bind c1 (fun x => c2))
  (at level 100, c1 at next level, right associativity) : parser_scope.
Notation "c1 ;; c2" := (bind c1 (fun _ => c2))
  (at level 100, right associativity) : parser_scope.

(** A dispenser method that reports a boolean. *)
Definition disp (f : Dispenser -> bool * Dispenser) : Parser bool :=
  fun m d => let '(b, d') := f d in Ok b m d'.

(** [d.Val()] *)
Definition val : Parser string := fun m d => Ok (Val d) m d.

(** [return d.Err(...)] and the like: the error is built from the
    dispenser's current position. *)
Definition raise {A : Type} (mk : Dispenser -> error) : Parser A :=
  fun m d => Failed (mk d) m d.

Definition get_module : Parser Knownagents := fun m d => Ok m m d.

Definition update_module (f : Knownagents -> Knownagents) : Parser unit :=
  fun m d => Ok tt (f m) d.

(** An assignment through the [m.RobotsTxt] pointer.  It is only made
    inside the [robots_txt] case, after [m.RobotsTxt = new(RobotsTxt)]. *)
Definition update_robots (f : RobotsTxt -> RobotsTxt) : Parser unit :=
  update_module (fun m =>
    match Robots m with
    | Some rt => set_Robots (Some (f rt)) m
    | None => m
    end).

Definition stalled {A : Type} : Parser A := fun _ _ => Stalled.

(** [for d.NextArg() { body }] *)
Fixpoint for_NextArg (fuel : nat) (body : Parser unit) : Parser unit :=
  match fuel with
  | O => stalled
  | S fuel' =>
      (more <- disp NextArg ;;
       if more then body ;; for_NextArg fuel' body else ret tt)%parser
  end.

(** [for ; d.NextBlock(nesting); { body }] *)
Fixpoint for_NextBlock (fuel : nat) (nesting : Z) (body : Parser unit)
    : Parser unit :=
  match fuel with
  | O => stalled
  | S fuel' =>
      (more <- disp (NextBlock nesting) ;;
       if more then body ;; for_NextBlock fuel' nesting body else ret tt)%parser
  end.

(** A loop is given as many iterations as the dispenser has moves left,
    plus one for the test that ends it. *)
Definition while_NextArg (body : Parser unit) : Parser unit :=
  fun m d => for_NextArg (S (remaining d)) body m d.

(** [for nesting := d.Nesting(); d.NextBlock(nesting); { body }] *)
Definition block (body : Parser unit) : Parser unit :=
  fun m d => for_NextBlock (S (remaining d)) (Nesting d) body m d.

Definition append_agent_type (v : string) : Parser unit :=
  update_robots (fun rt => set_AgentTypes (AgentTypes rt ++ [v]) rt).

(** [case "agent_types":] (lines 416-430) *)
Definition case_agent_types : Parser unit :=
  (ok <- disp NextArg ;;
   if negb ok then raise ArgErr
   else
     v <- val ;;
     if String.eqb v "*" then
       update_robots (set_AgentTypes allAgentTypes) ;;
       extra <- disp NextArg ;;
       if extra then
         v' <- val ;; raise (Err ("unexpected argument '" +:+ v' +:+ "'"))
       else ret tt
     else
       append_agent_type v ;;
       while_NextArg (v' <- val ;; append_agent_type v'))%parser.

(** [case "disallow":] (lines 432-436) *)
Definition case_disallow : Parser unit :=
  (ok <- disp NextArg ;;
   if negb ok then raise ArgErr
   else v <- val ;; update_robots (set_Disallow v))%parser.

(** The body of the inner loop (lines 415-439). *)
Definition robots_txt_subdirective : Parser unit :=
  (v <- val ;;
   if String.eqb v "agent_types" then case_agent_types
   else if String.eqb v "disallow" then case_disallow
   else raise (Err ("unknown subdirective '" +:+ v +:+ "'")))%parser.

(** [case "robots_txt":] (lines 409-440) *)
Definition case_robots_txt : Parser unit :=
  (m <- get_module ;;
   match Robots m with
   | Some _ => raise (Err "robots_txt is already configured")
   | None =>
       update_module (set_Robots (Some new_RobotsTxt)) ;;
       block robots_txt_subdirective
   end)%parser.

(** [case "access_token":] (lines 441-445) *)
Definition case_access_token : Parser unit :=
  (ok <- disp NextArg ;;
   if negb ok then raise ArgErr
   else v <- val ;; update_module (set_AccessToken v))%parser.

(** The body of the outer loop (lines 408-448). *)
Definition subdirective : Parser unit :=
  (v <- val ;;
   if String.eqb v "robots_txt" then case_robots_txt
   else if String.eqb v "access_token" then case_access_token
   else raise (Err ("unrecognized subdirective '" +:+ v +:+ "'")))%parser.

(** What follows the outer loop (lines 451-465). *)
Definition after_block : Parser unit :=
  (extra <- disp NextArg ;;
   if extra then
     v <- val ;; raise (Err ("unexpected argument '" +:+ v +:+ "'"))
   else
     m <- get_module ;;
     if String.eqb (AccessToken m) "" then raise (Err "missing access token")
     else
       match Robots m with
       | Some rt =>
           if (length (AgentTypes rt) =? 0)%nat
           then raise (Err "missing agent type filters")
           else ret tt
       | None => ret tt
       end)%parser.

Definition UnmarshalCaddyfile : Parser unit :=
  (disp Next ;; (* consume directive name *)
   block subdirective ;;
   after_block)%parser.

(** [parseCaddyfile] (lines 475-482): a fresh module, or the error. *)
Definition parseCaddyfile (d : Dispenser) : Knownagents + error :=
  match UnmarshalCaddyfile zero_Knownagents d with
  | Ok _ m _ => inl m
  | Failed e _ _ => inr e
  | Stalled => inr (errorString "")
  end.

(** *** Token sequences for statements about whole directives *)

(** A token as the lexer makes it for a plain word of the test file. *)
Definition word (line : Z) (txt : string) : Token :=
  {| File := "Testfile"; imports := []; Line := line; Text := txt;
     heredoc := false |}.

(** The words of one line, all on line [line]. *)
Definition line_of (line : Z) (ws : list string) : list Token :=
  map (word line) ws.

(** Consecutive lines, numbered from [line]. *)
Fixpoint lines_from (line : Z) (ls : list (list string)) : list Token :=
  match ls with
  | [] => []
  | ws :: rest => line_of line ws ++ lines_from (line + 1) rest
  end.

(** The dispenser the host hands to the directive for a source text
    given line by line. *)
Definition dispenser_of (ls : list (list string)) : Dispenser :=
  NewDispenser (lines_from 1 ls).

(** The arguments the dispenser has on the line of its current token:
    the texts of the tokens that follow it without a line break, up to
    the first block opening. *)
Fixpoint args_run (prev : Token) (ts : list Token) : list string :=
  match ts with
  | [] => []
  | t :: ts' =>
      if isNextOnNewLine prev t then []
      else if String.eqb (Text t) "{" then []
      else Text t :: args_run t ts'
  end.

Definition line_args (d : Dispenser) : list string :=
  match drop (Z.to_nat (cursor d)) (tokens d) with
  | curr :: rest => args_run curr rest
  | [] => []
  end.

(** The cursor is on a token. *)
Definition on_token (d : Dispenser) : Prop := 0 <= cursor d < len d.

(** *** Stand-ins for the collaborators, used to instantiate statements *)

(** A next handler that fails with [e]. *)
Definition failing_handler (e : error) : Handler := fun w => (Some e, w).

(** A next handler that succeeds and leaves the request alone. *)
Definition passing_handler : Handler := fun w => (None, w).

(** A next handler that rewrites the request's path in place and
    succeeds, as the host's [rewrite] handler does. *)
Definition rewriting_handler (path : string) : Handler :=
  fun w =>
    (None,
     {| w_request :=
          {| Method := Method (w_request w); URL_Path := path;
             Header := Header (w_request w) |};
        w_vars := w_vars w |}).

(** A next handler that serves only if it sees the variable [key]. *)
Definition requiring_handler (key : string) : Handler :=
  fun w =>
    match w_vars w !! key with
    | Some _ => (None, w)
    | None => (Some (errorString "robots.txt is not available"), w)
    end.

(** A request with a cookie, and the shared state of a fresh request. *)
Definition sample_request : Request :=
  {| Method := "GET";
     URL_Path := "/a";
     Header := <["Cookie" := ["sid=1"]]> (<["Accept" := ["*/*"]]> ∅) |}.

Definition sample_world : World :=
  {| w_request := sample_request; w_vars := ∅ |}.

(** A module with a token and a cached robots.txt. *)
Definition sample_module : Knownagents :=
  {| AccessToken := "aHVudGVyMg==";
     Robots := Some {| AgentTypes := [AIAssistant]; Disallow := "/";
                       text := "User-agent: *" |} |}.

(** A remote side that answers every request with status 200 and the
    given body. *)
Definition answering (body : string) : Transport :=
  fun _ => inl {| StatusCode := 200; Body := inl body |}.

(** A replacer in a process environment where [KA_ACCESS_TOKEN] is not
    set: that placeholder evaluates to nothing and is replaced by
    [empty]; any other input is returned as it is. *)
Definition replacer_without_env (input empty : string) : string :=
  if String.eqb input "{env.KA_ACCESS_TOKEN}" then empty else input.

(** The directive of the README, one subdirective a line, without a
    [disallow] line:
    [knownagents { access_token tok; robots_txt { agent_types args... } }]. *)
Definition robots_directive (tok : string) (args : list string)
    : list (list string) :=
  [ ["knownagents"; "{"];
    ["access_token"; tok];
    ["robots_txt"; "{"];
    "agent_types" :: args;
    ["}"];
    ["}"] ].

(** The dispenser on the [agent_types] token of that directive. *)
Definition at_agent_types (args : list string) : Dispenser :=
  mkDispenser (lines_from 1 (robots_directive "aHVudGVyMg==" args)) 6 2.

(** The module when the parser reaches that token. *)
Definition module_in_block : Knownagents :=
  {| AccessToken := "aHVudGVyMg=="; Robots := Some new_RobotsTxt |}.

(** *** Directives given line by line *)

(** A word that the lexer gives as one token, that opens no block and
    holds no line break. *)
Definition plain (s : string) : Prop := s <> "{" /\ count_newlines s = 0.

(** A line of a [robots_txt] block, as written. *)
Inductive PolicyLine : Type :=
| AgentTypesLine (args : list string)
| DisallowLine (path : string).

Definition policy_line_words (p : PolicyLine) : list string :=
  match p with
  | AgentTypesLine args => "agent_types" :: args
  | DisallowLine path => ["disallow"; path]
  end.

(** The lines the inner loop takes without an error: [agent_types *],
    [agent_types] with one label or more of which the first is not [*],
    and [disallow] with one path. *)
Definition accepted_line (p : PolicyLine) : Prop :=
  match p with
  | AgentTypesLine [] => False
  | AgentTypesLine (a :: rest) =>
      if String.eqb a "*" then rest = [] else Forall plain (a :: rest)
  | DisallowLine path => plain path
  end.

(** The policy after such a line (lines 420-435). *)
Definition policy_after (rt : RobotsTxt) (p : PolicyLine) : RobotsTxt :=
  match p with
  | AgentTypesLine [] => rt
  | AgentTypesLine (a :: rest) =>
      if String.eqb a "*" then set_AgentTypes allAgentTypes rt
      else set_AgentTypes (AgentTypes rt ++ a :: rest) rt
  | DisallowLine path => set_Disallow path rt
  end.

Definition access_token_line (v : string) : list string :=
  ["access_token"; v].

(** *** Assertions on dispenser moves and parser outcomes *)

(** The dispenser only moves forward: same tokens, no more moves left
    than before. *)
Definition advances (d d' : Dispenser) : Prop :=
  tokens d' = tokens d /\ (remaining d' <= remaining d)%nat.

Definition advances_strictly (d d' : Dispenser) : Prop :=
  tokens d' = tokens d /\ (remaining d' < remaining d)%nat.

(** [I] holds of the state an outcome ends in, be it normal or an
    error; [stall] says whether running out of iterations is allowed. *)
Definition after {A : Type} (stall : Prop)
    (I : Knownagents -> Dispenser -> Prop) (r : Result A) : Prop :=
  match r with
  | Ok _ m d | Failed _ m d => I m d
  | Stalled => stall
  end.

(** [c] always finishes, and leaves the dispenser no further back. *)
Definition safe {A : Type} (c : Parser A) : Prop :=
  forall m d, after False (fun _ d' => advances d d') (c m d).

(** [c] keeps [I] however it ends. *)
Definition preserves {A : Type} (I : Knownagents -> Dispenser -> Prop)
    (c : Parser A) : Prop :=
  forall m d, I m d -> after True I (c m d).

(** The policy pointer is set. *)
Definition robots_set (m : Knownagents) (_ : Dispenser) : Prop :=
  Robots m <> None.

(** No token reads [disallow], and the policy, if any, has no path. *)
Definition disallow_unset (m : Knownagents) (d : Dispenser) : Prop :=
  (forall t, In t (tokens d) -> Text t <> "disallow") /\
  (forall rt, Robots m = Some rt -> Disallow rt = "").

(** Every policy the module holds satisfies [P]. *)
Definition policy_inv (P : RobotsTxt -> Prop)
    (m : Knownagents) (_ : Dispenser) : Prop :=
  forall rt, Robots m = Some rt -> P rt.

(** The dispenser is on the first token of [ts], [n] blocks deep. *)
Definition here (n : Z) (d : Dispenser) (ts : list Token) : Prop :=
  nesting d = n /\ 0 <= cursor d /\
  drop (Z.to_nat (cursor d)) (tokens d) = ts.

(** The tokens still ahead of the dispenser are [ts]. *)
Definition past (n : Z) (d : Dispenser) (ts : list Token) : Prop :=
  nesting d = n /\ -1 <= cursor d /\
  drop (Z.to_nat (cursor d + 1)) (tokens d) = ts.

(** [t] is the last token of its line. *)
Definition new_line_after (t : Token) (ts : list Token) : Prop :=
  match ts with
  | [] => True
  | t' :: _ => isNextOnNewLine t t' = true
  end.

(** The block loop goes on from where an iteration ended. *)
Definition resume (n : Z) (body : Parser unit) (r : Result unit)
    : Result unit :=
  match r with
  | Ok _ m d => for_NextBlock (S (remaining d)) n body m d
  | Failed e m d => Failed e m d
  | Stalled => Stalled
  end.

(** A remote side that refuses every request, without a response. *)
Definition refusing (err : error) : Transport := fun _ => inr (err, None).

(** * Properties *)

(** ** The dispenser only moves forward *)

Lemma advances_refl d : advances d d.
Proof. split; [reflexivity | lia]. Qed.

Lemma advances_trans d1 d2 d3 :
  advances d1 d2 -> advances d2 d3 -> advances d1 d3.
Proof.
  intros [Ht1 Hr1] [Ht2 Hr2]. split; [congruence | lia].
Qed.

Lemma strictly_advances d d' : advances_strictly d d' -> advances d d'.
Proof. intros [Ht Hr]. split; [assumption | lia]. Qed.

Lemma len_nonneg d : 0 <= len d.
Proof. unfold len. lia. Qed.

Lemma step_forward d :
  cursor d <= len d -> advances_strictly d (set_cursor (cursor d + 1) d).
Proof.
  intros Hc. split; [reflexivity |].
  unfold remaining, len in *. simpl. lia.
Qed.

Lemma Next_spec d :
  (fst (Next d) = true /\ cursor d < len d - 1 /\
   snd (Next d) = set_cursor (cursor d + 1) d) \/
  (fst (Next d) = false /\ len d - 1 <= cursor d /\ snd (Next d) = d).
Proof.
  unfold Next. destruct (Z.ltb_spec (cursor d) (len d - 1)); simpl.
  - left. auto.
  - right. auto.
Qed.

Lemma nextOnSameLine_spec d :
  (fst (nextOnSameLine d) = true /\ cursor d <= len d /\
   snd (nextOnSameLine d) = set_cursor (cursor d + 1) d) \/
  (fst (nextOnSameLine d) = false /\ snd (nextOnSameLine d) = d).
Proof.
  unfold nextOnSameLine. pose proof (len_nonneg d) as Hl.
  destruct (Z.ltb_spec (cursor d) 0); simpl.
  - left. repeat split. lia.
  - destruct (Z.geb_spec (cursor d) (len d - 1)); simpl.
    + right. auto.
    + destruct (token_at d (cursor d)) as [curr|]; [| right; auto].
      destruct (token_at d (cursor d + 1)) as [next|]; [| right; auto].
      destruct (isNextOnNewLine curr next); simpl.
      * right. auto.
      * left. repeat split. lia.
Qed.

Lemma Next_advances d : advances d (snd (Next d)).
Proof.
  destruct (Next_spec d) as [(_ & Hc & ->) | (_ & _ & ->)].
  - apply strictly_advances, step_forward. lia.
  - apply advances_refl.
Qed.

Lemma nextOnSameLine_advances d : advances d (snd (nextOnSameLine d)).
Proof.
  destruct (nextOnSameLine_spec d) as [(_ & Hc & ->) | (_ & ->)].
  - apply strictly_advances, step_forward. lia.
  - apply advances_refl.
Qed.

Lemma set_nesting_advances n d : advances d (set_nesting n d).
Proof. split; [reflexivity |]. unfold remaining, len. simpl. lia. Qed.

Lemma NextArg_spec d :
  (fst (NextArg d) = true /\ cursor d <= len d /\
   snd (NextArg d) = set_cursor (cursor d + 1) d /\
   Val (set_cursor (cursor d + 1) d) <> "{") \/
  (fst (NextArg d) = false /\ tokens (snd (NextArg d)) = tokens d /\
   cursor (snd (NextArg d)) = cursor d /\
   nesting (snd (NextArg d)) = nesting d).
Proof.
  unfold NextArg.
  destruct (nextOnSameLine_spec d) as [(Hb & Hc & Hd) | (Hb & Hd)];
    destruct (nextOnSameLine d) as [ok d1]; simpl in *; subst.
  - destruct (String.eqb_spec (Val (set_cursor (cursor d + 1) d)) "{");
      simpl.
    + right. repeat split. lia.
    + left. auto.
  - right. auto.
Qed.

Lemma NextArg_advances d : advances d (snd (NextArg d)).
Proof.
  destruct (NextArg_spec d) as [(_ & Hc & -> & _) | (_ & Ht & Hc & _)].
  - apply strictly_advances, step_forward. lia.
  - split; [assumption |]. unfold remaining, len. rewrite Ht, Hc. lia.
Qed.

Lemma NextArg_true_strict d :
  fst (NextArg d) = true -> advances_strictly d (snd (NextArg d)).
Proof.
  destruct (NextArg_spec d) as [(_ & Hc & -> & _) | (Hf & _)].
  - intros _. apply step_forward. lia.
  - congruence.
Qed.

Lemma strictly_then_advances d1 d2 d3 :
  advances_strictly d1 d2 -> advances d2 d3 -> advances_strictly d1 d3.
Proof.
  intros [Ht1 Hr1] [Ht2 Hr2]. split; [congruence | lia].
Qed.

Lemma brace_alone_advances b d : advances d (snd (brace_alone b d)).
Proof.
  unfold brace_alone. destruct (String.eqb (Val d) b).
  - pose proof (nextOnSameLine_advances d) as H.
    destruct (nextOnSameLine d); exact H.
  - apply advances_refl.
Qed.

Lemma NextBlock_advances n d :
  advances d (snd (NextBlock n d)) /\
  (fst (NextBlock n d) = true -> advances_strictly d (snd (NextBlock n d))).
Proof.
  unfold NextBlock. destruct (n <? nesting d).
  - destruct (Next_spec d) as [(Hb & Hc & Hd) | (Hb & Hc & Hd)];
      destruct (Next d) as [ok d1]; simpl in *; subst; simpl.
    + assert (Hs : advances_strictly d (set_cursor (cursor d + 1) d))
        by (apply step_forward; lia).
      set (d1 := set_cursor (cursor d + 1) d) in *.
      pose proof (brace_alone_advances "}" d1) as H2.
      destruct (brace_alone "}" d1) as [closes d2]. simpl in H2.
      assert (Hs4 : advances_strictly d
                (if closes then set_nesting (nesting d2 - 1) d2
                 else let '(opens, d3) := brace_alone "{" d2 in
                      if opens then set_nesting (nesting d3 + 1) d3 else d3)).
      { destruct closes.
        - eapply strictly_then_advances; [exact Hs |].
          eapply advances_trans; [exact H2 | apply set_nesting_advances].
        - pose proof (brace_alone_advances "{" d2) as H3.
          destruct (brace_alone "{" d2) as [opens d3]. simpl in H3.
          eapply strictly_then_advances; [exact Hs |].
          eapply advances_trans; [exact H2 |].
          destruct opens.
          + eapply advances_trans; [exact H3 | apply set_nesting_advances].
          + exact H3. }
      split; [apply strictly_advances; exact Hs4 | intros _; exact Hs4].
    + split; [apply advances_refl | discriminate].
  - destruct (nextOnSameLine_spec d) as [(Hb & Hc & Hd) | (Hb & Hd)];
      destruct (nextOnSameLine d) as [ok d1]; simpl in *; subst; simpl.
    + assert (Hs : advances_strictly d (set_cursor (cursor d + 1) d))
        by (apply step_forward; lia).
      set (d1 := set_cursor (cursor d + 1) d) in *.
      destruct (String.eqb (Val d1) "{"); simpl.
      * pose proof (Next_advances d1) as H2.
        destruct (Next d1) as [ok2 d2]. simpl in H2.
        assert (Hs2 : advances_strictly d d2)
          by (eapply strictly_then_advances; eauto).
        destruct (String.eqb (Val d2) "}"); simpl.
        -- split; [apply strictly_advances; exact Hs2 | discriminate].
        -- assert (Hs3 : advances_strictly d (set_nesting (nesting d2 + 1) d2)).
           { eapply strictly_then_advances; [exact Hs2 |].
             apply set_nesting_advances. }
           split; [apply strictly_advances; exact Hs3 | intros _; exact Hs3].
      * split; [| discriminate].
        split; [reflexivity |]. unfold remaining, len, d1. simpl. lia.
    + split; [apply advances_refl | discriminate].
Qed.

(** ** Every parser finishes *)

Lemma safe_ret {A} (a : A) : safe (ret a).
Proof. intros m d. apply advances_refl. Qed.

Lemma safe_val : safe val.
Proof. intros m d. apply advances_refl. Qed.

Lemma safe_raise {A} mk : safe (@raise A mk).
Proof. intros m d. apply advances_refl. Qed.

Lemma safe_get_module : safe get_module.
Proof. intros m d. apply advances_refl. Qed.

Lemma safe_update_module f : safe (update_module f).
Proof. intros m d. apply advances_refl. Qed.

Lemma safe_update_robots f : safe (update_robots f).
Proof. apply safe_update_module. Qed.

Lemma safe_disp f :
  (forall d, advances d (snd (f d))) -> safe (disp f).
Proof.
  intros Hf m d. unfold disp. specialize (Hf d).
  destruct (f d) as [b d']. exact Hf.
Qed.

Lemma safe_bind {A B} (c : Parser A) (k : A -> Parser B) :
  safe c -> (forall a, safe (k a)) -> safe (bind c k).
Proof.
  intros Hc Hk m d. unfold bind. specialize (Hc m d).
  destruct (c m d) as [a m' d' | e m' d' |]; simpl in *; try assumption.
  specialize (Hk a m' d').
  destruct (k a m' d') as [b m2 d2 | e m2 d2 |]; simpl in *;
    try assumption; eapply advances_trans; eassumption.
Qed.

Lemma safe_for_NextArg body :
  safe body ->
  forall fuel m d, (remaining d < fuel)%nat ->
    after False (fun _ d' => advances d d') (for_NextArg fuel body m d).
Proof.
  intros Hbody. induction fuel as [| fuel IH]; intros m d Hfuel; [lia |].
  simpl. unfold bind at 1, disp.
  pose proof (NextArg_advances d) as Ha.
  pose proof (NextArg_true_strict d) as Hs.
  destruct (NextArg d) as [more d1]. simpl in Ha, Hs.
  destruct more; [| exact Ha].
  specialize (Hs eq_refl). unfold bind.
  specialize (Hbody m d1).
  destruct (body m d1) as [[] m2 d2 | e m2 d2 |]; simpl in *;
    [| eapply advances_trans; eassumption | assumption].
  assert (Hlt : (remaining d2 < fuel)%nat).
  { destruct Hs as [_ Hs], Hbody as [_ Hb]. lia. }
  specialize (IH m2 d2 Hlt).
  destruct (for_NextArg fuel body m2 d2) as [[] m3 d3 | e m3 d3 |];
    simpl in *; try assumption;
    (eapply advances_trans; [exact Ha |]);
    (eapply advances_trans; [exact Hbody | exact IH]).
Qed.

Lemma safe_while_NextArg body : safe body -> safe (while_NextArg body).
Proof.
  intros Hbody m d. unfold while_NextArg.
  apply safe_for_NextArg; [assumption | lia].
Qed.

Lemma safe_for_NextBlock n body :
  safe body ->
  forall fuel m d, (remaining d < fuel)%nat ->
    after False (fun _ d' => advances d d') (for_NextBlock fuel n body m d).
Proof.
  intros Hbody. induction fuel as [| fuel IH]; intros m d Hfuel; [lia |].
  simpl. unfold bind at 1, disp.
  destruct (NextBlock_advances n d) as [Ha Hs].
  destruct (NextBlock n d) as [more d1]. simpl in Ha, Hs.
  destruct more; [| exact Ha].
  specialize (Hs eq_refl). unfold bind.
  specialize (Hbody m d1).
  destruct (body m d1) as [[] m2 d2 | e m2 d2 |]; simpl in *;
    [| eapply advances_trans; eassumption | assumption].
  assert (Hlt : (remaining d2 < fuel)%nat).
  { destruct Hs as [_ Hs], Hbody as [_ Hb]. lia. }
  specialize (IH m2 d2 Hlt).
  destruct (for_NextBlock fuel n body m2 d2) as [[] m3 d3 | e m3 d3 |];
    simpl in *; try assumption;
    (eapply advances_trans; [exact Ha |]);
    (eapply advances_trans; [exact Hbody | exact IH]).
Qed.

Lemma safe_block body : safe body -> safe (block body).
Proof.
  intros Hbody m d. unfold block.
  apply safe_for_NextBlock; [assumption | lia].
Qed.

Lemma safe_NextArg : safe (disp NextArg).
Proof. apply safe_disp, NextArg_advances. Qed.

Create HintDb safe discriminated.
#[local] Hint Resolve safe_ret safe_val safe_raise safe_get_module
  safe_update_module safe_update_robots safe_NextArg safe_while_NextArg
  safe_block : safe.

Ltac safe_step :=
  first
    [ apply safe_bind; [| intros ?]
    | match goal with
      | |- safe (if ?b then _ else _) => destruct b
      | |- safe (match ?o with Some _ => _ | None => _ end) => destruct o
      end
    | solve [auto with safe] ].

Lemma safe_case_agent_types : safe case_agent_types.
Proof. unfold case_agent_types, append_agent_type. repeat safe_step. Qed.

#[local] Hint Resolve safe_case_agent_types : safe.

Lemma safe_case_disallow : safe case_disallow.
Proof. unfold case_disallow. repeat safe_step. Qed.

#[local] Hint Resolve safe_case_disallow : safe.

Lemma safe_robots_txt_subdirective : safe robots_txt_subdirective.
Proof.
  unfold robots_txt_subdirective. repeat safe_step.
Qed.

#[local] Hint Resolve safe_robots_txt_subdirective : safe.

Lemma safe_case_robots_txt : safe case_robots_txt.
Proof.
  unfold case_robots_txt. repeat safe_step.
Qed.

#[local] Hint Resolve safe_case_robots_txt : safe.

Lemma safe_case_access_token : safe case_access_token.
Proof. unfold case_access_token. repeat safe_step. Qed.

#[local] Hint Resolve safe_case_access_token : safe.

Lemma safe_subdirective : safe subdirective.
Proof.
  unfold subdirective. repeat safe_step.
Qed.

#[local] Hint Resolve safe_subdirective : safe.

Lemma safe_after_block : safe after_block.
Proof. unfold after_block. repeat safe_step. Qed.

#[local] Hint Resolve safe_after_block : safe.

Lemma safe_UnmarshalCaddyfile : safe UnmarshalCaddyfile.
Proof.
  unfold UnmarshalCaddyfile. repeat safe_step.
  apply safe_disp, Next_advances.
Qed.

Lemma UnmarshalCaddyfile_finishes m d : UnmarshalCaddyfile m d <> Stalled.
Proof.
  pose proof (safe_UnmarshalCaddyfile m d) as H.
  destruct (UnmarshalCaddyfile m d); simpl in H;
    [discriminate .. | contradiction].
Qed.

(** [UnmarshalCaddyfile] returns on every module and every dispenser:
    the iteration budget of its loops is never used up. *)
Theorem UnmarshalCaddyfile_total m d :
  (exists m' d', UnmarshalCaddyfile m d = Ok tt m' d') \/
  (exists e m' d', UnmarshalCaddyfile m d = Failed e m' d').
Proof.
  pose proof (UnmarshalCaddyfile_finishes m d) as H.
  destruct (UnmarshalCaddyfile m d) as [[] m' d' | e m' d' |];
    [left; eauto | right; eauto | contradiction H; reflexivity].
Qed.

(** [parseCaddyfile] hands back the module [UnmarshalCaddyfile] filled,
    or the error it returned. *)
Lemma parseCaddyfile_result d :
  match parseCaddyfile d with
  | inl m => exists d', UnmarshalCaddyfile zero_Knownagents d = Ok tt m d'
  | inr e =>
      exists m d', UnmarshalCaddyfile zero_Knownagents d = Failed e m d'
  end.
Proof.
  unfold parseCaddyfile.
  pose proof (UnmarshalCaddyfile_finishes zero_Knownagents d) as Hfin.
  destruct (UnmarshalCaddyfile zero_Knownagents d) as [[] m d' | e m d' |];
    [eauto | eauto | contradiction Hfin; reflexivity].
Qed.

(** ** The request handler *)

Section Handler.
Variable client_Do : Transport.
Variables robots_var analytics_endpoint : string.

Lemma serveHTTP_error m next w e w' :
  next (publish robots_var m w) = (Some e, w') ->
  serveHTTP client_Do robots_var analytics_endpoint m next w =
    {| s_err := Some e; s_world := w'; s_spawned := [] |}.
Proof. intros H. unfold serveHTTP. rewrite H. reflexivity. Qed.

Lemma serveHTTP_success m next w w' :
  next (publish robots_var m w) = (None, w') ->
  serveHTTP client_Do robots_var analytics_endpoint m next w =
    {| s_err := None; s_world := w';
       s_spawned := [report client_Do analytics_endpoint m] |}.
Proof. intros H. unfold serveHTTP. rewrite H. reflexivity. Qed.

(** Whatever the remote side answers, the goroutine hands exactly one
    request to [client.Do], built from the request as it is when the
    goroutine reads it. *)
Lemma report_outbound m r :
  t_outbound (report client_Do analytics_endpoint m r) =
    [ new_request analytics_endpoint (AccessToken m)
        (VisitJSON {| request_path := URL_Path r;
                      request_method := Method r;
                      request_headers := delete "Cookie" (Header r) |}) ].
Proof.
  unfold report. destruct (client_Do _) as [resp | [err resp]]; reflexivity.
Qed.

Lemma serveHTTP_delegates m next w :
  let out := serveHTTP client_Do robots_var analytics_endpoint m next w in
  (s_err out, s_world out) = next (publish robots_var m w).
Proof.
  unfold serveHTTP. destruct (next (publish robots_var m w)) as [[e|] w'];
    reflexivity.
Qed.

Lemma publish_configured m rt w :
  Robots m = Some rt ->
  w_vars (publish robots_var m w) !! robots_var = Some (text rt) /\
  (forall k, k <> robots_var ->
     w_vars (publish robots_var m w) !! k = w_vars w !! k) /\
  w_request (publish robots_var m w) = w_request w.
Proof.
  intros H. unfold publish. rewrite H. simpl. repeat split.
  - apply lookup_insert_eq.
  - intros k Hk. apply lookup_insert_ne. congruence.
Qed.

Lemma publish_unconfigured m w :
  Robots m = None -> publish robots_var m w = w.
Proof. intros H. unfold publish. rewrite H. reflexivity. Qed.

End Handler.

(** C1. When the next handler returns an error, [ServeHTTP] returns that
    very error, leaves the shared state as the next handler left it, and
    starts no goroutine: no visit event is built and nothing is sent.
    This holds of both variants of the module. *)
Theorem C1_ServeHTTP_propagates_error
    (client_Do : Transport) (m : Knownagents)
    (next : Handler) (w w' : World) (e : error) :
  (next (publish "ka_robots_txt" m w) = (Some e, w') ->
   ServeHTTP client_Do m next w =
     {| s_err := Some e; s_world := w'; s_spawned := [] |}) /\
  (next (publish "dv_robots_txt" m w) = (Some e, w') ->
   Darkvisitors.ServeHTTP client_Do m next w =
     {| s_err := Some e; s_world := w'; s_spawned := [] |}).
Proof.
  split; intros H; [unfold ServeHTTP | unfold Darkvisitors.ServeHTTP];
    apply serveHTTP_error; exact H.
Qed.

Lemma C1_witness :
  ServeHTTP (answering "") sample_module
    (failing_handler (errorString "upstream failed")) sample_world =
    {| s_err := Some (errorString "upstream failed");
       s_world := publish "ka_robots_txt" sample_module sample_world;
       s_spawned := [] |} /\
  Darkvisitors.ServeHTTP (answering "") sample_module
    (failing_handler (errorString "upstream failed")) sample_world =
    {| s_err := Some (errorString "upstream failed");
       s_world := publish "dv_robots_txt" sample_module sample_world;
       s_spawned := [] |}.
Proof.
  split.
  - apply (proj1 (C1_ServeHTTP_propagates_error (answering "") sample_module
                    (failing_handler (errorString "upstream failed"))
                    sample_world _ _)).
    reflexivity.
  - apply (proj2 (C1_ServeHTTP_propagates_error (answering "") sample_module
                    (failing_handler (errorString "upstream failed"))
                    sample_world _ _)).
    reflexivity.
Defined.

(** When the next handler succeeds, [ServeHTTP] returns nil and starts
    exactly one goroutine, which hands exactly one POST to [client.Do];
    the event in it carries the path, the method and the headers without
    [Cookie] of the request as the goroutine finds it, which is the
    original request whenever the next handler did not change it. *)
Lemma ServeHTTP_reports_once
    (client_Do : Transport) (m : Knownagents)
    (next : Handler) (w w' : World) :
  next (publish "ka_robots_txt" m w) = (None, w') ->
  exists task,
    ServeHTTP client_Do m next w =
      {| s_err := None; s_world := w'; s_spawned := [task] |} /\
    (forall r,
       t_outbound (task r) =
         [ new_request AnalyticsEndpoint (AccessToken m)
             (VisitJSON {| request_path := URL_Path r;
                           request_method := Method r;
                           request_headers := delete "Cookie" (Header r) |}) ]) /\
    (w_request w' = w_request w ->
     map o_body (t_outbound (task (w_request w'))) =
       [ VisitJSON {| request_path := URL_Path (w_request w);
                      request_method := Method (w_request w);
                      request_headers :=
                        delete "Cookie" (Header (w_request w)) |} ]).
Proof.
  intros H. exists (report client_Do AnalyticsEndpoint m). split; [| split].
  - unfold ServeHTTP. apply serveHTTP_success. exact H.
  - intros r. apply report_outbound.
  - intros Hr. rewrite report_outbound, Hr. reflexivity.
Qed.

(** C2, at a next handler that rewrites the path in place (as the host's
    own [rewrite] handler does) and succeeds: the one report that is sent
    carries the rewritten path ["/b"], not the path ["/a"] the request
    arrived with. *)
Theorem C2_report_carries_rewritten_path :
  let out :=
    ServeHTTP (answering "") sample_module (rewriting_handler "/b")
      sample_world in
  URL_Path (w_request sample_world) = "/a" /\
  s_err out = None /\
  exists task,
    s_spawned out = [task] /\
    map o_body (t_outbound (task (w_request (s_world out)))) =
      [ VisitJSON {| request_path := "/b";
                     request_method := "GET";
                     request_headers :=
                       delete "Cookie" (Header sample_request) |} ].
Proof.
  simpl. split; [reflexivity |]. split; [reflexivity |].
  eexists. split; [reflexivity |]. reflexivity.
Qed.

(** C7. [ServeHTTP] runs the next handler on the shared state in which
    the cached robots.txt text is already stored under the module's
    variable when a robots.txt policy is configured, and on the state it
    was given when none is; what it returns and leaves behind is what
    the next handler returned and left, so nothing is published after
    the call.  This holds of both variants of the module. *)
Theorem C7_robots_txt_published_before_next
    (client_Do : Transport) (m : Knownagents)
    (next : Handler) (w : World) :
  let out := ServeHTTP client_Do m next w in
  let out' := Darkvisitors.ServeHTTP client_Do m next w in
  (s_err out, s_world out) = next (publish "ka_robots_txt" m w) /\
  (s_err out', s_world out') = next (publish "dv_robots_txt" m w) /\
  (forall rt, Robots m = Some rt ->
     w_vars (publish "ka_robots_txt" m w) !! "ka_robots_txt" = Some (text rt) /\
     w_vars (publish "dv_robots_txt" m w) !! "dv_robots_txt" = Some (text rt)) /\
  (Robots m = None ->
     publish "ka_robots_txt" m w = w /\ publish "dv_robots_txt" m w = w).
Proof.
  simpl. repeat split.
  - apply serveHTTP_delegates.
  - apply serveHTTP_delegates.
  - apply (publish_configured "ka_robots_txt" m rt w H).
  - apply (publish_configured "dv_robots_txt" m rt w H).
  - apply publish_unconfigured. assumption.
  - apply publish_unconfigured. assumption.
Qed.

(** A next handler that needs the variable is served when the policy is
    configured, and fails when it is not. *)
Lemma C7_witness :
  s_err (ServeHTTP (answering "") sample_module
           (requiring_handler "ka_robots_txt") sample_world) = None /\
  s_err (ServeHTTP (answering "") zero_Knownagents
           (requiring_handler "ka_robots_txt") sample_world) =
    Some (errorString "robots.txt is not available").
Proof.
  pose proof (C7_robots_txt_published_before_next (answering "")
                sample_module (requiring_handler "ka_robots_txt")
                sample_world) as H1.
  pose proof (C7_robots_txt_published_before_next (answering "")
                zero_Knownagents (requiring_handler "ka_robots_txt")
                sample_world) as H2.
  cbv zeta in H1, H2.
  destruct H1 as (H1 & _ & H1v & _), H2 as (H2 & _ & _ & H2n).
  destruct (H1v _ eq_refl) as [Hv _].
  destruct (H2n eq_refl) as [Hn _].
  split.
  - apply (f_equal fst) in H1. simpl in H1. rewrite H1.
    unfold requiring_handler. rewrite Hv. reflexivity.
  - apply (f_equal fst) in H2. simpl in H2. rewrite H2, Hn.
    reflexivity.
Defined.

(** ** Validate *)

Lemma slices_Contains_In s v : slices_Contains s v = true <-> In v s.
Proof.
  induction s as [| x s IH]; simpl.
  - split; [discriminate | contradiction].
  - destruct (String.eqb_spec x v) as [-> | Hne].
    + split; auto.
    + rewrite IH. split; [auto | intros [H | H]; [congruence | exact H]].
Qed.

Lemma check_agent_types_known ats :
  Forall (fun a => In a allAgentTypes) ats -> check_agent_types ats = None.
Proof.
  induction 1 as [| a ats Ha _ IH]; cbn [check_agent_types]; [reflexivity |].
  apply slices_Contains_In in Ha. rewrite Ha. exact IH.
Qed.

(** The error names the first label that is not in the catalog. *)
Lemma check_agent_types_first_unknown pre bad post :
  Forall (fun a => In a allAgentTypes) pre ->
  ~ In bad allAgentTypes ->
  check_agent_types (pre ++ bad :: post) =
    Some (errorString ("unrecognized agent type '" +:+ bad +:+ "'")).
Proof.
  intros Hpre Hbad.
  induction Hpre as [| a pre Ha _ IH]; cbn [check_agent_types app].
  - destruct (slices_Contains allAgentTypes bad) eqn:E; [| reflexivity].
    apply slices_Contains_In in E. contradiction.
  - apply slices_Contains_In in Ha. rewrite Ha. exact IH.
Qed.

Lemma first_unknown ats :
  Exists (fun a => ~ In a allAgentTypes) ats ->
  exists pre bad post,
    ats = pre ++ bad :: post /\
    Forall (fun a => In a allAgentTypes) pre /\ ~ In bad allAgentTypes.
Proof.
  induction ats as [| a ats IH]; intros H; [inversion H |].
  destruct (slices_Contains allAgentTypes a) eqn:E.
  - apply slices_Contains_In in E.
    assert (Hrest : Exists (fun a => ~ In a allAgentTypes) ats)
      by (inversion H; subst; [contradiction | assumption]).
    destruct (IH Hrest) as (pre & bad & post & -> & Hpre & Hbad).
    exists (a :: pre), bad, post. repeat split; auto.
  - exists [], a, ats. repeat split; auto.
    intros Hin. apply slices_Contains_In in Hin. congruence.
Qed.

Lemma validate_result name m :
  snd (validate name m) =
    match Robots m with
    | Some rt => check_agent_types (AgentTypes rt)
    | None => None
    end.
Proof.
  unfold validate. destruct (Robots m) as [rt |]; [| reflexivity].
  destruct (check_agent_types (AgentTypes rt)); reflexivity.
Qed.

(** C6. With a robots.txt policy configured, [Validate] returns the
    error [unrecognized agent type '<label>'] naming a label of the list
    that is outside the catalog (the first such label) whenever there is
    one, and returns nil whenever every label of the list is in the
    catalog.  This holds of both variants of the module. *)
Theorem C6_Validate_agent_types (m : Knownagents) (rt : RobotsTxt) :
  Robots m = Some rt ->
  (forall pre bad post,
     AgentTypes rt = pre ++ bad :: post ->
     Forall (fun a => In a allAgentTypes) pre ->
     ~ In bad allAgentTypes ->
     snd (Validate m) =
       Some (errorString ("unrecognized agent type '" +:+ bad +:+ "'")) /\
     snd (Darkvisitors.Validate m) =
       Some (errorString ("unrecognized agent type '" +:+ bad +:+ "'"))) /\
  (Exists (fun a => ~ In a allAgentTypes) (AgentTypes rt) ->
   exists bad,
     In bad (AgentTypes rt) /\ ~ In bad allAgentTypes /\
     snd (Validate m) =
       Some (errorString ("unrecognized agent type '" +:+ bad +:+ "'")) /\
     snd (Darkvisitors.Validate m) =
       Some (errorString ("unrecognized agent type '" +:+ bad +:+ "'"))) /\
  (Forall (fun a => In a allAgentTypes) (AgentTypes rt) ->
   snd (Validate m) = None /\ snd (Darkvisitors.Validate m) = None).
Proof.
  intros Hm. unfold Validate, Darkvisitors.Validate.
  rewrite !validate_result, Hm. split; [| split].
  - intros pre bad post Heq Hpre Hbad. rewrite Heq.
    rewrite check_agent_types_first_unknown by assumption. auto.
  - intros Hex.
    destruct (first_unknown _ Hex) as (pre & bad & post & Heq & Hpre & Hbad).
    exists bad. rewrite Heq.
    rewrite check_agent_types_first_unknown by assumption.
    repeat split; auto. apply in_or_app. right. left. reflexivity.
  - intros Hall. rewrite check_agent_types_known by assumption. auto.
Qed.

Lemma not_in_catalog (a : string) :
  slices_Contains allAgentTypes a = false -> ~ In a allAgentTypes.
Proof.
  intros E Hin. apply slices_Contains_In in Hin. congruence.
Qed.

Lemma in_catalog (a : string) :
  slices_Contains allAgentTypes a = true -> In a allAgentTypes.
Proof. apply slices_Contains_In. Qed.

Lemma C6_witness :
  snd (Validate
         {| AccessToken := "t";
            Robots := Some {| AgentTypes := [AIAssistant; "Robot"; "*"];
                              Disallow := "/"; text := "" |} |}) =
    Some (errorString "unrecognized agent type 'Robot'") /\
  snd (Validate
         {| AccessToken := "t";
            Robots := Some {| AgentTypes := allAgentTypes ++ [Archiver];
                              Disallow := "/"; text := "" |} |}) = None.
Proof.
  split.
  - apply (proj1 (C6_Validate_agent_types
              {| AccessToken := "t";
                 Robots := Some {| AgentTypes := [AIAssistant; "Robot"; "*"];
                                   Disallow := "/"; text := "" |} |}
              _ eq_refl) [AIAssistant] "Robot" ["*"]).
    + reflexivity.
    + repeat constructor.
    + apply not_in_catalog. reflexivity.
  - apply (proj2 (proj2 (C6_Validate_agent_types
              {| AccessToken := "t";
                 Robots := Some {| AgentTypes := allAgentTypes ++ [Archiver];
                                   Disallow := "/"; text := "" |} |}
              _ eq_refl))).
    apply List.Forall_forall. intros a Ha. cbn [AgentTypes] in Ha.
    apply in_app_or in Ha.
    destruct Ha as [Ha | [<- | []]]; [exact Ha |].
    apply in_catalog. reflexivity.
Defined.

(** ** Arguments on a line *)

Lemma Dispenser_ext d d' :
  tokens d' = tokens d -> cursor d' = cursor d -> nesting d' = nesting d ->
  d' = d.
Proof. destruct d, d'. simpl. congruence. Qed.

Lemma NextArg_false d : fst (NextArg d) = false -> snd (NextArg d) = d.
Proof.
  destruct (NextArg_spec d) as [(Ht & _) | (_ & H1 & H2 & H3)].
  - congruence.
  - intros _. apply Dispenser_ext; assumption.
Qed.

Lemma drop_cons_inv {A} (l : list A) n x xs :
  drop n l = x :: xs ->
  nth_error l n = Some x /\ drop (S n) l = xs /\ (n < length l)%nat.
Proof.
  revert l. induction n as [| n IH]; intros [| y l] H; simpl in *;
    try discriminate.
  - injection H as -> ->. repeat split. lia.
  - destruct (IH l H) as (H1 & H2 & H3). repeat split; auto. lia.
Qed.

Lemma drop_nonempty {A} (l : list A) n :
  (n < length l)%nat -> exists x xs, drop n l = x :: xs.
Proof.
  revert l. induction n as [| n IH]; intros [| y l] H; simpl in *;
    try lia; eauto.
  apply IH. lia.
Qed.

Lemma token_at_cursor d curr rest :
  0 <= cursor d ->
  drop (Z.to_nat (cursor d)) (tokens d) = curr :: rest ->
  token_at d (cursor d) = Some curr /\
  drop (Z.to_nat (cursor d + 1)) (tokens d) = rest /\
  cursor d < len d.
Proof.
  intros Hc H. apply drop_cons_inv in H. destruct H as (H1 & H2 & H3).
  unfold token_at, len. destruct (Z.ltb_spec (cursor d) 0); [lia |].
  replace (Z.to_nat (cursor d + 1)) with (S (Z.to_nat (cursor d))) by lia.
  repeat split; auto. lia.
Qed.

Lemma on_token_drop d :
  on_token d ->
  exists curr rest, drop (Z.to_nat (cursor d)) (tokens d) = curr :: rest.
Proof.
  intros [H0 H1]. apply drop_nonempty. unfold len in H1. lia.
Qed.

(** The first argument of the line is what [NextArg] moves to. *)
Lemma NextArg_line_args_cons d v vs :
  on_token d -> line_args d = v :: vs ->
  let d1 := set_cursor (cursor d + 1) d in
  NextArg d = (true, d1) /\ Val d1 = v /\ line_args d1 = vs /\ on_token d1.
Proof.
  intros Hon Hargs.
  destruct (on_token_drop d Hon) as (curr & rest & Hdrop).
  destruct Hon as [H0 H1].
  destruct (token_at_cursor d curr rest H0 Hdrop) as (Hcur & Hrest & _).
  unfold line_args in Hargs. rewrite Hdrop in Hargs.
  destruct rest as [| t rest']; [discriminate |]. simpl in Hargs.
  destruct (isNextOnNewLine curr t) eqn:Enl; [discriminate |].
  destruct (String.eqb_spec (Text t) "{") as [| Hbrace]; [discriminate |].
  injection Hargs as Hv Hvs.
  set (d1 := set_cursor (cursor d + 1) d).
  assert (H0' : 0 <= cursor d1) by (simpl; lia).
  destruct (token_at_cursor d1 t rest' H0' Hrest) as (Hnext & _ & Hlt).
  assert (Hval : Val d1 = Text t) by (unfold Val; rewrite Hnext; reflexivity).
  assert (Hnx : token_at d (cursor d + 1) = Some t) by exact Hnext.
  assert (Hlen : cursor d + 1 < len d) by exact Hlt.
  simpl. fold d1. repeat split.
  - unfold NextArg, nextOnSameLine.
    destruct (Z.ltb_spec (cursor d) 0); [lia |].
    destruct (Z.geb_spec (cursor d) (len d - 1)); [lia |].
    rewrite Hcur, Hnx, Enl. simpl. fold d1. rewrite Hval.
    destruct (String.eqb_spec (Text t) "{"); [contradiction | reflexivity].
  - congruence.
  - unfold line_args. simpl cursor. simpl tokens. rewrite Hrest. exact Hvs.
  - simpl. lia.
  - exact Hlt.
Qed.

(** When the line has no argument, [NextArg] reports none and stays. *)
Lemma NextArg_line_args_nil d :
  on_token d -> line_args d = [] -> NextArg d = (false, d).
Proof.
  intros Hon Hargs.
  assert (Hfst : fst (NextArg d) = false).
  { destruct (on_token_drop d Hon) as (curr & rest & Hdrop).
    destruct Hon as [H0 H1].
    destruct (token_at_cursor d curr rest H0 Hdrop) as (Hcur & Hrest & _).
    unfold line_args in Hargs. rewrite Hdrop in Hargs.
    unfold NextArg, nextOnSameLine.
    destruct (Z.ltb_spec (cursor d) 0); [lia |].
    destruct (Z.geb_spec (cursor d) (len d - 1)); [reflexivity |].
    rewrite Hcur.
    destruct rest as [| t rest'].
    - apply drop_cons_inv in Hdrop. destruct Hdrop as (_ & Hd & _).
      assert (Hlen : (length (drop (S (Z.to_nat (cursor d))) (tokens d)) = 0)%nat)
        by (rewrite Hd; reflexivity).
      rewrite length_drop in Hlen. unfold len in *. lia.
    - set (d1 := set_cursor (cursor d + 1) d).
      assert (H0' : 0 <= cursor d1) by (simpl; lia).
      destruct (token_at_cursor d1 t rest' H0' Hrest) as (Hnext & _ & _).
      change (token_at d1 (cursor d1)) with (token_at d (cursor d + 1)) in Hnext.
      rewrite Hnext. simpl in Hargs.
      destruct (isNextOnNewLine curr t); [reflexivity |]. simpl.
      fold d1. unfold Val. 
      change (token_at d1 (cursor d1)) with (token_at d (cursor d + 1)).
      rewrite Hnext.
      destruct (String.eqb (Text t) "{"); [reflexivity | discriminate]. }
  pose proof (NextArg_false d Hfst) as Hsnd.
  destruct (NextArg d) as [b d']. simpl in *. congruence.
Qed.

(** ** The [agent_types] subdirective *)

(** The module with the policy's labels replaced. *)
Lemma append_agent_type_run v m d rt :
  Robots m = Some rt ->
  append_agent_type v m d =
    Ok tt (set_Robots (Some (set_AgentTypes (AgentTypes rt ++ [v]) rt)) m) d.
Proof.
  intros H. unfold append_agent_type, update_robots, update_module.
  rewrite H. reflexivity.
Qed.

(** The [for d.NextArg()] loop appends the arguments of the line, in
    order, and stops on the last of them. *)
Lemma for_NextArg_appends args :
  forall fuel m d rt,
    on_token d -> line_args d = args -> Robots m = Some rt ->
    (remaining d < fuel)%nat ->
    for_NextArg fuel (bind val (fun v' => append_agent_type v')) m d =
      Ok tt (set_Robots (Some (set_AgentTypes (AgentTypes rt ++ args) rt)) m)
         (set_cursor (cursor d + Z.of_nat (length args)) d).
Proof.
  set (body := bind val (fun v' => append_agent_type v')).
  induction args as [| v vs IH]; intros fuel m d rt Hon Hargs Hm Hfuel;
    (destruct fuel as [| fuel]; [lia |]); cbn [for_NextArg].
  - unfold bind at 1, disp. rewrite (NextArg_line_args_nil d Hon Hargs).
    unfold ret. f_equal.
    + rewrite app_nil_r. destruct m as [tok r]. simpl in *. subst r.
      destruct rt. reflexivity.
    + destruct d. unfold set_cursor. cbn [length cursor tokens nesting Z.of_nat].
      f_equal. lia.
  - destruct (NextArg_line_args_cons d v vs Hon Hargs)
      as (Hnext & Hval & Hrest & Hon1).
    pose proof (NextArg_true_strict d) as Hstrict.
    unfold bind at 1, disp. rewrite Hnext in *.
    specialize (Hstrict eq_refl). cbn [snd] in Hstrict.
    set (d1 := set_cursor (cursor d + 1) d) in *.
    set (rt1 := set_AgentTypes (AgentTypes rt ++ [v]) rt).
    set (m1 := set_Robots (Some rt1) m).
    assert (Hbody : body m d1 = Ok tt m1 d1).
    { unfold body, bind, val. rewrite Hval.
      apply append_agent_type_run. exact Hm. }
    unfold bind at 1. rewrite Hbody.
    assert (Hlt : (remaining d1 < fuel)%nat)
      by (destruct Hstrict as [_ Hs]; lia).
    rewrite (IH fuel m1 d1 rt1 Hon1 Hrest eq_refl Hlt).
    f_equal.
    + unfold m1, rt1, set_Robots, set_AgentTypes. simpl.
      rewrite <- app_assoc. reflexivity.
    + unfold d1, set_cursor. simpl. f_equal. lia.
Qed.

(** Explicit labels: every argument of the line is appended as it is. *)
Lemma case_agent_types_labels m d rt a rest :
  on_token d -> Robots m = Some rt ->
  line_args d = a :: rest -> a <> "*" ->
  case_agent_types m d =
    Ok tt
       (set_Robots (Some (set_AgentTypes (AgentTypes rt ++ a :: rest) rt)) m)
       (set_cursor (cursor d + Z.of_nat (length (a :: rest))) d).
Proof.
  intros Hon Hm Hargs Hstar.
  destruct (NextArg_line_args_cons d a rest Hon Hargs)
    as (Hnext & Hval & Hrest & Hon1).
  pose proof (NextArg_true_strict d) as Hstrict.
  rewrite Hnext in Hstrict. specialize (Hstrict eq_refl). cbn [snd] in Hstrict.
  unfold case_agent_types. unfold bind at 1, disp. rewrite Hnext.
  set (d1 := set_cursor (cursor d + 1) d) in *.
  cbn [negb]. unfold bind at 1. unfold val at 1. rewrite Hval.
  destruct (String.eqb_spec a "*") as [| _]; [contradiction |].
  unfold bind at 1. rewrite (append_agent_type_run a m d1 rt Hm).
  set (rt1 := set_AgentTypes (AgentTypes rt ++ [a]) rt).
  set (m1 := set_Robots (Some rt1) m).
  unfold while_NextArg.
  rewrite (for_NextArg_appends rest (S (remaining d1)) m1 d1 rt1
             Hon1 Hrest eq_refl) by lia.
  f_equal.
  - unfold m1, rt1, set_Robots, set_AgentTypes. simpl.
    rewrite <- app_assoc. reflexivity.
  - unfold d1, set_cursor. simpl. f_equal. lia.
Qed.

(** The wildcard: the catalog replaces the labels, and a further
    argument on the line is an error. *)
Lemma case_agent_types_wildcard m d rt rest :
  on_token d -> Robots m = Some rt ->
  line_args d = "*" :: rest ->
  let m' := set_Robots (Some (set_AgentTypes allAgentTypes rt)) m in
  let d1 := set_cursor (cursor d + 1) d in
  case_agent_types m d =
    match rest with
    | [] => Ok tt m' d1
    | extra :: _ =>
        let d2 := set_cursor (cursor d + 2) d in
        Failed (Err ("unexpected argument '" +:+ extra +:+ "'") d2) m' d2
    end.
Proof.
  intros Hon Hm Hargs.
  destruct (NextArg_line_args_cons d "*" rest Hon Hargs)
    as (Hnext & Hval & Hrest & Hon1).
  cbv zeta. unfold case_agent_types. unfold bind at 1, disp. rewrite Hnext.
  set (d1 := set_cursor (cursor d + 1) d) in *.
  cbn [negb]. unfold bind at 1, val. rewrite Hval.
  cbn [String.eqb Ascii.eqb Bool.eqb].
  unfold bind at 1, update_robots, update_module. rewrite Hm.
  unfold bind at 1, disp.
  destruct rest as [| extra rest'].
  - rewrite (NextArg_line_args_nil d1 Hon1 Hrest). reflexivity.
  - destruct (NextArg_line_args_cons d1 extra rest' Hon1 Hrest)
      as (Hnext2 & Hval2 & _ & _).
    rewrite Hnext2.
    replace (set_cursor (cursor d1 + 1) d1) with (set_cursor (cursor d + 2) d)
      in *
      by (unfold d1, set_cursor; simpl; f_equal; lia).
    unfold bind, val, raise. rewrite Hval2. reflexivity.
Qed.

Lemma robots_txt_subdirective_agent_types m d :
  Val d = "agent_types" ->
  robots_txt_subdirective m d = case_agent_types m d.
Proof.
  intros H. unfold robots_txt_subdirective. unfold bind at 1, val.
  rewrite H. reflexivity.
Qed.

(** ** Whole directives *)

(** The repository's tests of the parser (knownagents_test.go), on the
    tokens the lexer makes of their inputs. *)
Example TestUnmarshalModule :
  exists d,
    UnmarshalCaddyfile zero_Knownagents
      (dispenser_of [ ["knownagents"; "{"];
                      ["access_token"; "aHVudGVyMg=="];
                      ["}"] ]) =
    Ok tt {| AccessToken := "aHVudGVyMg=="; Robots := None |} d.
Proof. eexists. vm_compute. reflexivity. Qed.

Example TestUnmarshalModuleRobotsTxt :
  exists d,
    UnmarshalCaddyfile zero_Knownagents
      (dispenser_of [ ["knownagents"; "{"];
                      ["access_token"; "aHVudGVyMg=="];
                      ["robots_txt"; "{"];
                      ["agent_types"; AIAssistant; AISearchCrawler;
                       AIDataScraper];
                      ["disallow"; "/"];
                      ["}"];
                      ["}"] ]) =
    Ok tt
       {| AccessToken := "aHVudGVyMg==";
          Robots :=
            Some {| AgentTypes :=
                      [AIAssistant; AISearchCrawler; AIDataScraper];
                    Disallow := "/"; text := "" |} |} d.
Proof. eexists. vm_compute. reflexivity. Qed.

(** The directive of the repository's wildcard test:
    [knownagents { access_token T; robots_txt { agent_types *; disallow / } }],
    one subdirective a line. *)
Example TestUnmarshalModuleRobotsTxtWildcard :
  UnmarshalCaddyfile zero_Knownagents
    (dispenser_of [ ["knownagents"; "{"];
                    ["access_token"; "aHVudGVyMg=="];
                    ["robots_txt"; "{"];
                    ["agent_types"; "*"];
                    ["disallow"; "/"];
                    ["}"];
                    ["}"] ]) =
  Ok tt
     {| AccessToken := "aHVudGVyMg==";
        Robots := Some {| AgentTypes := allAgentTypes; Disallow := "/";
                          text := "" |} |}
     (mkDispenser
        (lines_from 1 [ ["knownagents"; "{"];
                        ["access_token"; "aHVudGVyMg=="];
                        ["robots_txt"; "{"];
                        ["agent_types"; "*"];
                        ["disallow"; "/"];
                        ["}"];
                        ["}"] ]) 11 0).
Proof. vm_compute. reflexivity. Qed.

(** The same with a label after the wildcard. *)
Example parse_wildcard_then_label :
  exists m d,
    UnmarshalCaddyfile zero_Knownagents
      (dispenser_of [ ["knownagents"; "{"];
                      ["access_token"; "aHVudGVyMg=="];
                      ["robots_txt"; "{"];
                      ["agent_types"; "*"; "Archiver"];
                      ["}"];
                      ["}"] ]) =
    Failed (wrapAt (errorString "unexpected argument 'Archiver'") "Testfile" 4)
           m d.
Proof. do 2 eexists. vm_compute. reflexivity. Qed.

(** ** Invariants of the parser *)

Section Preserves.
Variable I : Knownagents -> Dispenser -> Prop.
(** The invariant looks at the dispenser's tokens only. *)
Hypothesis I_tokens :
  forall m d d', tokens d' = tokens d -> I m d -> I m d'.

Lemma preserves_ret {A} (a : A) : preserves I (ret a).
Proof. intros m d H. exact H. Qed.

Lemma preserves_raise {A} mk : preserves I (@raise A mk).
Proof. intros m d H. exact H. Qed.

Lemma preserves_bind {A B} (c : Parser A) (k : A -> Parser B) :
  preserves I c -> (forall a, preserves I (k a)) -> preserves I (bind c k).
Proof.
  intros Hc Hk m d H. unfold bind. specialize (Hc m d H).
  destruct (c m d) as [a m' d' | e m' d' |]; simpl in *; auto.
  apply Hk. exact Hc.
Qed.

(** What follows [d.Val()] may rely on the value being the current
    token's text. *)
Lemma preserves_val {B} (k : string -> Parser B) :
  (forall m d, I m d -> after True I (k (Val d) m d)) ->
  preserves I (bind val k).
Proof. intros Hk m d H. unfold bind, val. apply Hk. exact H. Qed.

(** What follows a read of the module may rely on the value read. *)
Lemma preserves_get_module {B} (k : Knownagents -> Parser B) :
  (forall m d, I m d -> after True I (k m m d)) ->
  preserves I (bind get_module k).
Proof. intros Hk m d H. unfold bind, get_module. apply Hk. exact H. Qed.

Lemma preserves_update_module f :
  (forall m d, I m d -> I (f m) d) -> preserves I (update_module f).
Proof. intros Hf m d H. apply Hf. exact H. Qed.

Lemma preserves_disp f :
  (forall d, advances d (snd (f d))) -> preserves I (disp f).
Proof.
  intros Hf m d H. unfold disp. specialize (Hf d).
  destruct (f d) as [b d']. simpl in *. destruct Hf as [Ht _].
  eapply I_tokens; eassumption.
Qed.

Lemma preserves_for_NextArg body :
  preserves I body -> forall fuel, preserves I (for_NextArg fuel body).
Proof.
  intros Hbody. induction fuel as [| fuel IH]; [intros m d _; exact Logic.I |].
  cbn [for_NextArg]. apply preserves_bind.
  - apply preserves_disp, NextArg_advances.
  - intros [|]; [| apply preserves_ret].
    apply preserves_bind; [exact Hbody | intros _; exact IH].
Qed.

Lemma preserves_while_NextArg body :
  preserves I body -> preserves I (while_NextArg body).
Proof.
  intros Hbody m d H. unfold while_NextArg.
  apply preserves_for_NextArg; assumption.
Qed.

Lemma preserves_for_NextBlock n body :
  preserves I body -> forall fuel, preserves I (for_NextBlock fuel n body).
Proof.
  intros Hbody. induction fuel as [| fuel IH]; [intros m d _; exact Logic.I |].
  cbn [for_NextBlock]. apply preserves_bind.
  - apply preserves_disp. intros d. apply NextBlock_advances.
  - intros [|]; [| apply preserves_ret].
    apply preserves_bind; [exact Hbody | intros _; exact IH].
Qed.

Lemma preserves_block body : preserves I body -> preserves I (block body).
Proof.
  intros Hbody m d H. unfold block.
  apply preserves_for_NextBlock; assumption.
Qed.

End Preserves.

(** One iteration of the block loop, by its budget. *)
Lemma for_NextBlock_S fuel n body m d :
  for_NextBlock (S fuel) n body m d =
    let '(more, d1) := NextBlock n d in
    if more then
      match body m d1 with
      | Ok _ m2 d2 => for_NextBlock fuel n body m2 d2
      | Failed e m2 d2 => Failed e m2 d2
      | Stalled => Stalled
      end
    else Ok tt m d1.
Proof.
  cbn [for_NextBlock]. unfold bind, disp.
  destruct (NextBlock n d) as [[|] d1]; reflexivity.
Qed.

(** *** Once set, the policy pointer stays set *)

Lemma robots_set_tokens m d d' :
  tokens d' = tokens d -> robots_set m d -> robots_set m d'.
Proof. intros _ H. exact H. Qed.

Lemma robots_set_update_robots f : preserves robots_set (update_robots f).
Proof.
  apply preserves_update_module. intros m d H. unfold robots_set in *.
  destruct (Robots m); [discriminate | contradiction].
Qed.

Lemma robots_set_case_agent_types : preserves robots_set case_agent_types.
Proof.
  pose proof robots_set_tokens as Ht.
  unfold case_agent_types, append_agent_type.
  apply preserves_bind; [apply preserves_disp, NextArg_advances; exact Ht |].
  intros [|]; [| apply preserves_raise]. cbn [negb].
  apply preserves_bind; [intros m d H; exact H |]. intros v.
  destruct (String.eqb v "*").
  - apply preserves_bind; [apply robots_set_update_robots |]. intros _.
    apply preserves_bind; [apply preserves_disp, NextArg_advances; exact Ht |].
    intros [|]; [| apply preserves_ret].
    apply preserves_bind; [intros m d H; exact H |]. intros v'.
    apply preserves_raise.
  - apply preserves_bind; [apply robots_set_update_robots |]. intros _.
    apply preserves_while_NextArg; [exact Ht |].
    apply preserves_bind; [intros m d H; exact H |]. intros v'.
    apply robots_set_update_robots.
Qed.

Lemma robots_set_case_disallow : preserves robots_set case_disallow.
Proof.
  pose proof robots_set_tokens as Ht. unfold case_disallow.
  apply preserves_bind; [apply preserves_disp, NextArg_advances; exact Ht |].
  intros [|]; [| apply preserves_raise]. cbn [negb].
  apply preserves_bind; [intros m d H; exact H |]. intros v.
  apply robots_set_update_robots.
Qed.

Lemma robots_set_robots_txt_subdirective :
  preserves robots_set robots_txt_subdirective.
Proof.
  unfold robots_txt_subdirective.
  apply preserves_bind; [intros m d H; exact H |]. intros v.
  destruct (String.eqb v "agent_types"); [apply robots_set_case_agent_types |].
  destruct (String.eqb v "disallow"); [apply robots_set_case_disallow |].
  apply preserves_raise.
Qed.

(** A [robots_txt] block that parses leaves the pointer set. *)
Lemma case_robots_txt_sets m d m' d' :
  case_robots_txt m d = Ok tt m' d' -> Robots m' <> None.
Proof.
  unfold case_robots_txt. unfold bind at 1, get_module.
  destruct (Robots m) eqn:E; [discriminate |].
  unfold bind at 1, update_module. intros H.
  pose proof (preserves_block robots_set robots_set_tokens _
                robots_set_robots_txt_subdirective
                (set_Robots (Some new_RobotsTxt) m) d) as Hp.
  rewrite H in Hp. apply Hp. discriminate.
Qed.

Lemma subdirective_robots_txt m d :
  Val d = "robots_txt" -> subdirective m d = case_robots_txt m d.
Proof.
  intros H. unfold subdirective. unfold bind at 1, val. rewrite H.
  reflexivity.
Qed.

Lemma subdirective_access_token m d :
  Val d = "access_token" -> subdirective m d = case_access_token m d.
Proof.
  intros H. unfold subdirective. unfold bind at 1, val. rewrite H.
  reflexivity.
Qed.

(** A subdirective that parses keeps a pointer that is set. *)
Lemma subdirective_keeps_robots m d m' d' :
  subdirective m d = Ok tt m' d' -> Robots m <> None -> Robots m' <> None.
Proof.
  unfold subdirective. unfold bind at 1, val.
  destruct (String.eqb (Val d) "robots_txt").
  - intros H _. eapply case_robots_txt_sets. exact H.
  - destruct (String.eqb (Val d) "access_token"); [| discriminate].
    unfold case_access_token. unfold bind at 1, disp.
    destruct (NextArg d) as [[|] d1]; cbn [negb]; [| discriminate].
    unfold bind, val, update_module. intros H Hm.
    injection H as <- _. exact Hm.
Qed.

Lemma case_access_token_run m d v rest :
  on_token d -> line_args d = v :: rest ->
  case_access_token m d =
    Ok tt (set_AccessToken v m) (set_cursor (cursor d + 1) d).
Proof.
  intros Hon Hargs.
  destruct (NextArg_line_args_cons d v rest Hon Hargs) as (Hnext & Hval & _).
  unfold case_access_token. unfold bind at 1, disp. rewrite Hnext.
  cbn [negb]. unfold bind, val, update_module. rewrite Hval. reflexivity.
Qed.

(** Two [robots_txt] blocks in one directive. *)
Example parse_second_robots_txt :
  exists m d,
    UnmarshalCaddyfile zero_Knownagents
      (dispenser_of [ ["knownagents"; "{"];
                      ["access_token"; "aHVudGVyMg=="];
                      ["robots_txt"; "{"];
                      ["agent_types"; "Archiver"];
                      ["}"];
                      ["robots_txt"; "{"];
                      ["agent_types"; "Fetcher"];
                      ["}"];
                      ["}"] ]) =
    Failed (wrapAt (errorString "robots_txt is already configured")
                   "Testfile" 6) m d.
Proof. do 2 eexists. vm_compute. reflexivity. Qed.

(** Three [access_token] subdirectives in one directive. *)
Example parse_repeated_access_token :
  exists d,
    UnmarshalCaddyfile zero_Knownagents
      (dispenser_of [ ["knownagents"; "{"];
                      ["access_token"; "first"];
                      ["access_token"; "second"];
                      ["access_token"; "third"];
                      ["}"] ]) =
    Ok tt {| AccessToken := "third"; Robots := None |} d.
Proof. eexists. vm_compute. reflexivity. Qed.

(** ** The wildcard after a label *)

Lemma star_not_in_catalog : ~ In "*" allAgentTypes.
Proof. apply not_in_catalog. reflexivity. Qed.

Lemma check_agent_types_rejects ats :
  Exists (fun a => ~ In a allAgentTypes) ats ->
  exists bad,
    In bad ats /\ ~ In bad allAgentTypes /\
    check_agent_types ats =
      Some (errorString ("unrecognized agent type '" +:+ bad +:+ "'")).
Proof.
  intros Hex.
  destruct (first_unknown _ Hex) as (pre & bad & post & -> & Hpre & Hbad).
  exists bad. repeat split; auto.
  - apply in_or_app. right. left. reflexivity.
  - apply check_agent_types_first_unknown; assumption.
Qed.

(** When the wildcard is the only label outside the catalog, it is the
    label the error names. *)
Lemma check_agent_types_star ats :
  In "*" ats ->
  Forall (fun a => a = "*" \/ In a allAgentTypes) ats ->
  check_agent_types ats =
    Some (errorString "unrecognized agent type '*'").
Proof.
  intros Hin Hall.
  assert (Hex : Exists (fun a => ~ In a allAgentTypes) ats).
  { apply List.Exists_exists. exists "*". split; [exact Hin |].
    exact star_not_in_catalog. }
  destruct (first_unknown _ Hex) as (pre & bad & post & -> & Hpre & Hbad).
  rewrite check_agent_types_first_unknown by assumption.
  assert (Hb : bad = "*" \/ In bad allAgentTypes).
  { rewrite List.Forall_forall in Hall. apply Hall.
    apply in_or_app. right. left. reflexivity. }
  destruct Hb as [-> | Hb]; [reflexivity | contradiction].
Qed.

(** A whole directive with the wildcard in second place parses. *)
Example parse_label_then_wildcard :
  exists d,
    UnmarshalCaddyfile zero_Knownagents
      (dispenser_of [ ["knownagents"; "{"];
                      ["access_token"; "aHVudGVyMg=="];
                      ["robots_txt"; "{"];
                      ["agent_types"; "AI Assistant"; "*"];
                      ["}"];
                      ["}"] ]) =
    Ok tt {| AccessToken := "aHVudGVyMg==";
             Robots := Some {| AgentTypes := ["AI Assistant"; "*"];
                               Disallow := ""; text := "" |} |} d.
Proof. eexists. vm_compute. reflexivity. Qed.

(** ** The checks after the block *)

(** The three checks, in the order the code makes them. *)
Lemma after_block_run m d :
  after_block m d =
    let '(extra, d1) := NextArg d in
    if extra
    then Failed (Err ("unexpected argument '" +:+ Val d1 +:+ "'") d1) m d1
    else if String.eqb (AccessToken m) ""
    then Failed (Err "missing access token" d1) m d1
    else
      match Robots m with
      | Some rt =>
          if (length (AgentTypes rt) =? 0)%nat
          then Failed (Err "missing agent type filters" d1) m d1
          else Ok tt m d1
      | None => Ok tt m d1
      end.
Proof.
  unfold after_block. unfold bind at 1, disp.
  destruct (NextArg d) as [[|] d1]; [reflexivity |].
  unfold bind at 1, get_module.
  destruct (String.eqb (AccessToken m) ""); [reflexivity |].
  destruct (Robots m) as [rt |]; [| reflexivity].
  destruct (length (AgentTypes rt) =? 0)%nat; reflexivity.
Qed.

(** [UnmarshalCaddyfile] is the block loop followed by the checks. *)
Lemma UnmarshalCaddyfile_after_block m d m1 d1 :
  bind (disp Next) (fun _ => block subdirective) m d = Ok tt m1 d1 ->
  UnmarshalCaddyfile m d = after_block m1 d1.
Proof.
  unfold UnmarshalCaddyfile, bind.
  destruct (disp Next m d) as [b m0 d0 | |]; try discriminate.
  intros H. rewrite H. reflexivity.
Qed.

(** C5, as the code has it.  When the block has been consumed, leaving
    the module [m1] and the dispenser [d1], and no argument is left on
    the line: parsing fails with [missing access token] whenever the
    access token is empty; it fails with [missing agent type filters]
    whenever the access token is not empty and a [robots_txt] block was
    present with no agent types; otherwise it succeeds. *)
Theorem C5_checks_after_block
    (m : Knownagents) (d : Dispenser) (m1 : Knownagents) (d1 : Dispenser) :
  bind (disp Next) (fun _ => block subdirective) m d = Ok tt m1 d1 ->
  fst (NextArg d1) = false ->
  (AccessToken m1 = "" ->
   UnmarshalCaddyfile m d = Failed (Err "missing access token" d1) m1 d1) /\
  (AccessToken m1 <> "" ->
   forall rt, Robots m1 = Some rt -> AgentTypes rt = [] ->
   UnmarshalCaddyfile m d =
     Failed (Err "missing agent type filters" d1) m1 d1) /\
  (AccessToken m1 <> "" ->
   (forall rt, Robots m1 = Some rt -> AgentTypes rt <> []) ->
   UnmarshalCaddyfile m d = Ok tt m1 d1).
Proof.
  intros Hblock Hnone.
  rewrite (UnmarshalCaddyfile_after_block m d m1 d1 Hblock).
  rewrite after_block_run.
  pose proof (NextArg_false d1 Hnone) as Hstay.
  destruct (NextArg d1) as [extra d1']. simpl in Hnone, Hstay. subst.
  split; [| split].
  - intros ->. reflexivity.
  - intros Htok rt Hm Hats.
    destruct (String.eqb_spec (AccessToken m1) ""); [contradiction |].
    rewrite Hm, Hats. reflexivity.
  - intros Htok Hall.
    destruct (String.eqb_spec (AccessToken m1) ""); [contradiction |].
    destruct (Robots m1) as [rt |]; [| reflexivity].
    specialize (Hall rt eq_refl).
    destruct (AgentTypes rt); [contradiction | reflexivity].
Qed.

(** An empty [robots_txt] block after a token: the second check fails. *)
Lemma C5_witness :
  exists d1,
    UnmarshalCaddyfile zero_Knownagents
      (dispenser_of [ ["knownagents"; "{"];
                      ["access_token"; "aHVudGVyMg=="];
                      ["robots_txt"; "{"];
                      ["}"];
                      ["}"] ]) =
    Failed (Err "missing agent type filters" d1)
           {| AccessToken := "aHVudGVyMg=="; Robots := Some new_RobotsTxt |}
           d1.
Proof.
  eexists.
  refine (proj1 (proj2 (C5_checks_after_block zero_Knownagents
            (dispenser_of [ ["knownagents"; "{"];
                            ["access_token"; "aHVudGVyMg=="];
                            ["robots_txt"; "{"];
                            ["}"];
                            ["}"] ])
            {| AccessToken := "aHVudGVyMg=="; Robots := Some new_RobotsTxt |}
            _ _ _)) _ new_RobotsTxt _ _).
  - vm_compute. reflexivity.
  - vm_compute. reflexivity.
  - discriminate.
  - reflexivity.
  - reflexivity.
Defined.

(** C5 as stated fails where both checks apply: with no access token
    and an empty [robots_txt] block, the error is [missing access
    token], not [missing agent type filters]. *)
Lemma C5_counterexample :
  exists m1 d1 rt,
    UnmarshalCaddyfile zero_Knownagents
      (dispenser_of [ ["knownagents"; "{"];
                      ["robots_txt"; "{"];
                      ["}"];
                      ["}"] ]) =
      Failed (Err "missing access token" d1) m1 d1 /\
    Robots m1 = Some rt /\ AgentTypes rt = [] /\
    Err "missing access token" d1 <> Err "missing agent type filters" d1.
Proof.
  exists {| AccessToken := ""; Robots := Some new_RobotsTxt |},
    (mkDispenser
       (lines_from 1 [ ["knownagents"; "{"]; ["robots_txt"; "{"];
                       ["}"]; ["}"] ]) 5 0),
    new_RobotsTxt.
  split; [vm_compute; reflexivity |].
  split; [reflexivity |]. split; [reflexivity |].
  vm_compute. discriminate.
Qed.

(** ** Where the default path comes from *)

Lemma disallow_unset_tokens m d d' :
  tokens d' = tokens d -> disallow_unset m d -> disallow_unset m d'.
Proof. intros Ht [H1 H2]. split; [rewrite Ht; exact H1 | exact H2]. Qed.

Lemma Val_in_tokens d :
  Val d = "" \/ exists t, In t (tokens d) /\ Text t = Val d.
Proof.
  unfold Val, token_at. destruct (cursor d <? 0); [left; reflexivity |].
  destruct (nth_error (tokens d) (Z.to_nat (cursor d))) as [t |] eqn:E;
    [| left; reflexivity].
  right. exists t. split; [| reflexivity]. eapply nth_error_In. exact E.
Qed.

Lemma disallow_unset_Val m d : disallow_unset m d -> Val d <> "disallow".
Proof.
  intros [H _]. destruct (Val_in_tokens d) as [-> | (t & Hin & <-)].
  - discriminate.
  - apply H. exact Hin.
Qed.

Lemma disallow_unset_update_robots f :
  (forall rt, Disallow (f rt) = Disallow rt) ->
  preserves disallow_unset (update_robots f).
Proof.
  intros Hf. apply preserves_update_module. intros m d [H1 H2].
  split; [exact H1 |]. intros rt.
  destruct (Robots m) as [rt0 |] eqn:E; cbn [set_Robots Robots].
  - intros H. injection H as <-. rewrite Hf. apply H2. reflexivity.
  - rewrite E. discriminate.
Qed.

Lemma disallow_unset_case_agent_types :
  preserves disallow_unset case_agent_types.
Proof.
  pose proof disallow_unset_tokens as Ht.
  unfold case_agent_types, append_agent_type.
  apply preserves_bind; [apply preserves_disp, NextArg_advances; exact Ht |].
  intros [|]; [| apply preserves_raise]. cbn [negb].
  apply preserves_bind; [intros m d H; exact H |]. intros v.
  destruct (String.eqb v "*").
  - apply preserves_bind;
      [apply disallow_unset_update_robots; reflexivity |]. intros _.
    apply preserves_bind; [apply preserves_disp, NextArg_advances; exact Ht |].
    intros [|]; [| apply preserves_ret].
    apply preserves_bind; [intros m d H; exact H |]. intros v'.
    apply preserves_raise.
  - apply preserves_bind;
      [apply disallow_unset_update_robots; reflexivity |]. intros _.
    apply preserves_while_NextArg; [exact Ht |].
    apply preserves_bind; [intros m d H; exact H |]. intros v'.
    apply disallow_unset_update_robots. reflexivity.
Qed.

Lemma disallow_unset_robots_txt_subdirective :
  preserves disallow_unset robots_txt_subdirective.
Proof.
  unfold robots_txt_subdirective. apply preserves_val. intros m d H.
  destruct (String.eqb (Val d) "agent_types");
    [apply disallow_unset_case_agent_types; exact H |].
  destruct (String.eqb_spec (Val d) "disallow") as [E |]; [| exact H].
  exfalso. exact (disallow_unset_Val m d H E).
Qed.

Lemma disallow_unset_case_robots_txt :
  preserves disallow_unset case_robots_txt.
Proof.
  unfold case_robots_txt. apply preserves_get_module. intros m d H.
  destruct (Robots m); [exact H |].
  apply preserves_bind; [| | exact H].
  - apply preserves_update_module. intros m0 d0 [H1 _].
    split; [exact H1 |]. cbn [set_Robots Robots]. intros rt Hrt.
    injection Hrt as <-. reflexivity.
  - intros _. apply preserves_block; [exact disallow_unset_tokens |].
    apply disallow_unset_robots_txt_subdirective.
Qed.

Lemma disallow_unset_case_access_token :
  preserves disallow_unset case_access_token.
Proof.
  unfold case_access_token.
  apply preserves_bind;
    [apply preserves_disp, NextArg_advances; exact disallow_unset_tokens |].
  intros [|]; [| apply preserves_raise]. cbn [negb].
  apply preserves_bind; [intros m d H; exact H |]. intros v.
  apply preserves_update_module. intros m d H. exact H.
Qed.

Lemma disallow_unset_subdirective : preserves disallow_unset subdirective.
Proof.
  unfold subdirective.
  apply preserves_bind; [intros m d H; exact H |]. intros v.
  destruct (String.eqb v "robots_txt"); [apply disallow_unset_case_robots_txt |].
  destruct (String.eqb v "access_token");
    [apply disallow_unset_case_access_token | apply preserves_raise].
Qed.

Lemma disallow_unset_after_block : preserves disallow_unset after_block.
Proof.
  intros m d H. rewrite after_block_run.
  pose proof (NextArg_advances d) as [Ht _].
  destruct (NextArg d) as [extra d1]. simpl in Ht.
  assert (H1 : disallow_unset m d1)
    by (eapply disallow_unset_tokens; eassumption).
  destruct extra; [exact H1 |].
  destruct (String.eqb (AccessToken m) ""); [exact H1 |].
  destruct (Robots m) as [rt |]; [| exact H1].
  destruct (length (AgentTypes rt) =? 0)%nat; exact H1.
Qed.

Lemma disallow_unset_UnmarshalCaddyfile :
  preserves disallow_unset UnmarshalCaddyfile.
Proof.
  unfold UnmarshalCaddyfile.
  apply preserves_bind;
    [apply preserves_disp, Next_advances; exact disallow_unset_tokens |].
  intros _. apply preserves_bind.
  - apply preserves_block; [exact disallow_unset_tokens |].
    apply disallow_unset_subdirective.
  - intros _. apply disallow_unset_after_block.
Qed.

Section Provisioning.
Variable client_Do : Transport.
Variable ReplaceAll : string -> string -> string.


(** With a policy, the module leaves [Provision] with the policy's
    labels unchanged and a path that is [/] when none was given,
    whether the fetch succeeds or not. *)
Lemma Provision_Disallow m rt :
  Robots m = Some rt ->
  exists rt',
    Robots (p_module (Provision client_Do ReplaceAll m)) = Some rt' /\
    AgentTypes rt' = AgentTypes rt /\
    Disallow rt' = (if String.eqb (Disallow rt) "" then "/" else Disallow rt).
Proof.
  intros Hm. unfold Provision, provision.
  cbn [set_AccessToken Robots AccessToken]. rewrite Hm.
  unfold FetchRobotsTxt.
  destruct (client_Do _) as [resp | [err resp]].
  - destruct (Body resp); eexists; (split; [reflexivity |]);
      destruct (String.eqb (Disallow rt) ""); split; reflexivity.
  - eexists; (split; [reflexivity |]);
      destruct (String.eqb (Disallow rt) ""); split; reflexivity.
Qed.

(** Without a policy, [Provision] sends nothing and returns nil. *)
Lemma Provision_no_robots m :
  Robots m = None ->
  Provision client_Do ReplaceAll m =
    {| p_module := set_AccessToken (ReplaceAll (AccessToken m) "") m;
       p_outbound := []; p_log := []; p_err := None |}.
Proof.
  intros Hm. unfold Provision, provision.
  cbn [set_AccessToken Robots AccessToken]. rewrite Hm. reflexivity.
Qed.


End Provisioning.

(** C3 as stated fails: the parser leaves the path empty when the block
    has no [disallow] subdirective. *)
Lemma C3_counterexample :
  exists d' rt,
    UnmarshalCaddyfile zero_Knownagents
      (dispenser_of [ ["knownagents"; "{"];
                      ["access_token"; "aHVudGVyMg=="];
                      ["robots_txt"; "{"];
                      ["agent_types"; "A"; "B"];
                      ["}"];
                      ["}"] ]) =
      Ok tt {| AccessToken := "aHVudGVyMg=="; Robots := Some rt |} d' /\
    AgentTypes rt = ["A"; "B"] /\ Disallow rt = "" /\ Disallow rt <> "/".
Proof.
  exists (mkDispenser
            (lines_from 1 [ ["knownagents"; "{"];
                            ["access_token"; "aHVudGVyMg=="];
                            ["robots_txt"; "{"];
                            ["agent_types"; "A"; "B"];
                            ["}"];
                            ["}"] ]) 10 0),
    {| AgentTypes := ["A"; "B"]; Disallow := ""; text := "" |}.
  split; [vm_compute; reflexivity |].
  split; [reflexivity |]. split; [reflexivity |]. discriminate.
Qed.

(** C3, as the code has it.  Parsing a directive in which no token reads
    [disallow] yields a policy, if any, whose path is empty; the default
    is applied by [Provision], which leaves the policy with the same
    agent types and the path [/], whatever the fetch does. *)
Theorem C3_default_disallow_at_provision
    (d : Dispenser) (m' : Knownagents) (d' : Dispenser) (rt : RobotsTxt)
    (client_Do : Transport)
    (ReplaceAll : string -> string -> string) :
  (forall t, In t (tokens d) -> Text t <> "disallow") ->
  UnmarshalCaddyfile zero_Knownagents d = Ok tt m' d' ->
  Robots m' = Some rt ->
  Disallow rt = "" /\
  exists rt',
    Robots (p_module (Provision client_Do ReplaceAll m')) = Some rt' /\
    AgentTypes rt' = AgentTypes rt /\ Disallow rt' = "/".
Proof.
  intros Hno Hrun Hm.
  assert (Hstart : disallow_unset zero_Knownagents d)
    by (split; [exact Hno | discriminate]).
  pose proof (disallow_unset_UnmarshalCaddyfile zero_Knownagents d Hstart)
    as Hend.
  rewrite Hrun in Hend. destruct Hend as [_ Hend].
  specialize (Hend rt Hm). split; [exact Hend |].
  destruct (Provision_Disallow client_Do ReplaceAll m' rt Hm)
    as (rt' & H1 & H2 & H3).
  exists rt'. rewrite Hend in H3. auto.
Qed.

Lemma C3_witness :
  exists rt',
    Robots (p_module
              (Provision (answering "User-agent: *") replacer_without_env
                 {| AccessToken := "aHVudGVyMg==";
                    Robots := Some {| AgentTypes := ["A"; "B"];
                                      Disallow := ""; text := "" |} |})) =
      Some rt' /\
    AgentTypes rt' = ["A"; "B"] /\ Disallow rt' = "/".
Proof.
  refine (proj2 (C3_default_disallow_at_provision
            (dispenser_of [ ["knownagents"; "{"];
                            ["access_token"; "aHVudGVyMg=="];
                            ["robots_txt"; "{"];
                            ["agent_types"; "A"; "B"];
                            ["}"];
                            ["}"] ])
            {| AccessToken := "aHVudGVyMg==";
               Robots := Some {| AgentTypes := ["A"; "B"];
                                 Disallow := ""; text := "" |} |}
            (mkDispenser
               (lines_from 1 [ ["knownagents"; "{"];
                               ["access_token"; "aHVudGVyMg=="];
                               ["robots_txt"; "{"];
                               ["agent_types"; "A"; "B"];
                               ["}"];
                               ["}"] ]) 10 0)
            {| AgentTypes := ["A"; "B"]; Disallow := ""; text := "" |}
            (answering "User-agent: *") replacer_without_env _ _ _)).
  - intros t Ht. simpl in Ht.
    repeat (destruct Ht as [<- | Ht]; [discriminate |]). contradiction.
  - vm_compute. reflexivity.
  - reflexivity.
Defined.

(** ** The token after substitution *)

(** The parser accepts no directive without a token. *)
Lemma UnmarshalCaddyfile_token m d m' d' :
  UnmarshalCaddyfile m d = Ok tt m' d' -> AccessToken m' <> "".
Proof.
  unfold UnmarshalCaddyfile, bind.
  destruct (disp Next m d) as [b m0 d0 | |]; try discriminate.
  destruct (block subdirective m0 d0) as [[] m1 d1 | |]; try discriminate.
  rewrite after_block_run. destruct (NextArg d1) as [[|] d2];
    [discriminate |].
  destruct (String.eqb_spec (AccessToken m1) ""); [discriminate |].
  destruct (Robots m1) as [rt |].
  - destruct (length (AgentTypes rt) =? 0)%nat; [discriminate |].
    intros H. injection H as <- _. assumption.
  - intros H. injection H as <- _. assumption.
Qed.



(** ** Loops do not depend on their iteration budget *)

Lemma for_NextBlock_more_fuel n body :
  forall f1 f2 m d,
    (f1 <= f2)%nat ->
    for_NextBlock f1 n body m d <> Stalled ->
    for_NextBlock f2 n body m d = for_NextBlock f1 n body m d.
Proof.
  induction f1 as [| f1 IH]; intros f2 m d Hle Hrun.
  - contradiction Hrun. reflexivity.
  - destruct f2 as [| f2]; [lia |]. cbn [for_NextBlock] in *.
    unfold bind in *.
    destruct (disp (NextBlock n) m d) as [[|] m1 d1 | e m1 d1 |];
      try reflexivity.
    destruct (body m1 d1) as [[] m2 d2 | e m2 d2 |]; try reflexivity.
    apply IH; [lia | exact Hrun].
Qed.

(** One iteration of [for ; d.NextBlock(n); { body }]. *)
Lemma for_NextBlock_unfold n body m d :
  safe body ->
  for_NextBlock (S (remaining d)) n body m d =
    let '(more, d1) := NextBlock n d in
    if more then
      match body m d1 with
      | Ok _ m2 d2 => for_NextBlock (S (remaining d2)) n body m2 d2
      | Failed e m2 d2 => Failed e m2 d2
      | Stalled => Stalled
      end
    else Ok tt m d1.
Proof.
  intros Hbody. rewrite for_NextBlock_S.
  destruct (NextBlock_advances n d) as [_ Hstrict].
  destruct (NextBlock n d) as [[|] d1]; [| reflexivity].
  specialize (Hstrict eq_refl). cbn [snd] in Hstrict.
  pose proof (Hbody m d1) as Hadv.
  destruct (body m d1) as [[] m2 d2 | e m2 d2 |]; try reflexivity.
  simpl in Hadv.
  assert (Hlt : (remaining d2 < remaining d)%nat)
    by (destruct Hstrict as [_ Hs], Hadv as [_ Ha]; lia).
  apply for_NextBlock_more_fuel; [lia |].
  pose proof (safe_for_NextBlock n body Hbody (S (remaining d2)) m2 d2) as Hs.
  intros E. rewrite E in Hs. apply Hs. lia.
Qed.

(** ** Moves of the dispenser, by the tokens around the cursor *)

Lemma token_at_lt d i t : token_at d i = Some t -> 0 <= i < len d.
Proof.
  unfold token_at, len. destruct (Z.ltb_spec i 0) as [| Hi]; [discriminate |].
  intros Hnth.
  assert (Hlt : (Z.to_nat i < length (tokens d))%nat)
    by (apply List.nth_error_Some; congruence).
  lia.
Qed.

Lemma Val_token d t : token_at d (cursor d) = Some t -> Val d = Text t.
Proof. unfold Val. intros ->. reflexivity. Qed.

Lemma Next_step d t :
  -1 <= cursor d -> token_at d (cursor d + 1) = Some t ->
  Next d = (true, set_cursor (cursor d + 1) d).
Proof.
  intros Hc Ht. apply token_at_lt in Ht. unfold Next.
  destruct (Z.ltb_spec (cursor d) (len d - 1)); [reflexivity | lia].
Qed.

Lemma nextOnSameLine_step d t1 t2 :
  token_at d (cursor d) = Some t1 -> token_at d (cursor d + 1) = Some t2 ->
  nextOnSameLine d =
    if isNextOnNewLine t1 t2 then (false, d)
    else (true, set_cursor (cursor d + 1) d).
Proof.
  intros H1 H2. pose proof (token_at_lt _ _ _ H1). 
  pose proof (token_at_lt _ _ _ H2). unfold nextOnSameLine.
  destruct (Z.ltb_spec (cursor d) 0); [lia |].
  destruct (Z.geb_spec (cursor d) (len d - 1)); [lia |].
  rewrite H1, H2. destruct (isNextOnNewLine t1 t2); reflexivity.
Qed.

Lemma nextOnSameLine_last d :
  0 <= cursor d -> len d - 1 <= cursor d -> nextOnSameLine d = (false, d).
Proof.
  intros H0 H1. unfold nextOnSameLine.
  destruct (Z.ltb_spec (cursor d) 0); [lia |].
  destruct (Z.geb_spec (cursor d) (len d - 1)); [reflexivity | lia].
Qed.

Lemma brace_alone_other b d : Val d <> b -> brace_alone b d = (false, d).
Proof.
  intros H. unfold brace_alone.
  destruct (String.eqb_spec (Val d) b); [contradiction | reflexivity].
Qed.

(** Inside a block, on to the first token of the next line. *)
Lemma NextBlock_inside d n t :
  n < nesting d -> -1 <= cursor d ->
  token_at d (cursor d + 1) = Some t ->
  Text t <> "}" -> Text t <> "{" ->
  NextBlock n d = (true, set_cursor (cursor d + 1) d).
Proof.
  intros Hn Hc Ht Hclose Hopen. unfold NextBlock.
  destruct (Z.ltb_spec n (nesting d)); [| lia].
  rewrite (Next_step d t Hc Ht). cbn [negb].
  set (d1 := set_cursor (cursor d + 1) d).
  assert (Hv : Val d1 = Text t) by (apply Val_token; exact Ht).
  rewrite (brace_alone_other "}" d1) by congruence.
  rewrite (brace_alone_other "{" d1) by congruence.
  destruct (Z.ltb_spec n (nesting d1)) as [| Hge]; [reflexivity |].
  unfold d1 in Hge. simpl in Hge. lia.
Qed.

(** Inside a block, on to a closing brace that ends its line. *)
Lemma NextBlock_closing d n t :
  n < nesting d -> -1 <= cursor d ->
  token_at d (cursor d + 1) = Some t -> Text t = "}" ->
  nextOnSameLine (set_cursor (cursor d + 1) d) =
    (false, set_cursor (cursor d + 1) d) ->
  NextBlock n d =
    (n <? nesting d - 1,
     set_nesting (nesting d - 1) (set_cursor (cursor d + 1) d)).
Proof.
  intros Hn Hc Ht Hclose Hline. unfold NextBlock.
  destruct (Z.ltb_spec n (nesting d)); [| lia].
  rewrite (Next_step d t Hc Ht). cbn [negb].
  set (d1 := set_cursor (cursor d + 1) d) in *.
  assert (Hv : Val d1 = "}")
    by (rewrite (Val_token d1 t Ht); exact Hclose).
  unfold brace_alone at 1. rewrite Hv. cbn [String.eqb Ascii.eqb Bool.eqb].
  rewrite Hline. reflexivity.
Qed.

(** Before a block that opens on the line of the current token and is
    not closed at once: into the block, on its first token. *)
Lemma NextBlock_opening d n t0 t1 t2 :
  nesting d <= n ->
  token_at d (cursor d) = Some t0 ->
  token_at d (cursor d + 1) = Some t1 ->
  token_at d (cursor d + 2) = Some t2 ->
  isNextOnNewLine t0 t1 = false -> Text t1 = "{" -> Text t2 <> "}" ->
  NextBlock n d =
    (true, set_nesting (nesting d + 1) (set_cursor (cursor d + 2) d)).
Proof.
  intros Hn H0 H1 H2 Hline Hopen Hclose. unfold NextBlock.
  destruct (Z.ltb_spec n (nesting d)); [lia |].
  rewrite (nextOnSameLine_step d t0 t1 H0 H1), Hline. cbn [negb].
  set (d1 := set_cursor (cursor d + 1) d).
  rewrite (Val_token d1 t1 H1), Hopen. cbn [String.eqb Ascii.eqb Bool.eqb negb].
  assert (H2' : token_at d1 (cursor d1 + 1) = Some t2).
  { unfold d1. simpl cursor. 
    replace (cursor d + 1 + 1) with (cursor d + 2) by lia. exact H2. }
  pose proof (token_at_lt _ _ _ H0) as Hlt.
  rewrite (Next_step d1 t2) by (unfold d1; simpl; try lia; exact H2').
  set (d2 := set_cursor (cursor d1 + 1) d1).
  assert (Hv : Val d2 = Text t2) by (apply Val_token; exact H2').
  rewrite Hv. destruct (String.eqb_spec (Text t2) "}"); [contradiction |].
  f_equal. unfold d2, d1, set_nesting, set_cursor. simpl. f_equal. lia.
Qed.

(** ** A whole directive, for every token and every list of labels *)

Lemma count_newlines_nonneg s : 0 <= count_newlines s.
Proof.
  induction s as [| c s IH]; simpl; [lia |].
  destruct (Ascii.eqb c "010"); lia.
Qed.

Lemma words_same_line L x y : isNextOnNewLine (word L x) (word L y) = false.
Proof.
  unfold isNextOnNewLine, NumLineBreaks, word. simpl.
  pose proof (count_newlines_nonneg x).
  destruct (Z.ltb_spec (L + (count_newlines x + 0)) L); [lia | reflexivity].
Qed.

Lemma words_next_line L x y :
  count_newlines x = 0 -> isNextOnNewLine (word L x) (word (L + 1) y) = true.
Proof.
  intros H. unfold isNextOnNewLine, NumLineBreaks, word. simpl. rewrite H.
  destruct (Z.ltb_spec (L + (0 + 0)) (L + 1)); [reflexivity | lia].
Qed.

Lemma last_cons_default {A} (l : list A) : forall a x y,
  List.last (a :: l) x = List.last (a :: l) y.
Proof.
  induction l as [| b l IH]; intros a x y; [reflexivity |].
  change (List.last (b :: l) x = List.last (b :: l) y). apply IH.
Qed.

Lemma args_run_words L args : forall x y post,
  Forall (fun a => a <> "{") args ->
  count_newlines (List.last args x) = 0 ->
  args_run (word L x) (map (word L) args ++ word (L + 1) y :: post) = args.
Proof.
  induction args as [| a args IH]; intros x y post Hall Hlast; simpl.
  - simpl in Hlast. rewrite (words_next_line L x y Hlast). reflexivity.
  - rewrite words_same_line. inversion Hall as [| ? ? Ha Hrest]; subst.
    destruct (String.eqb_spec a "{"); [contradiction |].
    f_equal. apply IH; [assumption |].
    destruct args as [| b l]; [exact Hlast |].
    rewrite (last_cons_default l b a x).
    change (List.last (a :: b :: l) x) with (List.last (b :: l) x) in Hlast.
    exact Hlast.
Qed.

Section Directive.
Variables (tok a : string) (rest : list string).
Let args := a :: rest.
Let T := lines_from 1 (robots_directive tok args).
Let D (c n : Z) := mkDispenser T c n.
Let k := Z.of_nat (length args).

Lemma directive_tokens_eq :
  T = [word 1 "knownagents"; word 1 "{"; word 2 "access_token"; word 2 tok;
       word 3 "robots_txt"; word 3 "{"; word 4 "agent_types"] ++
      map (word 4) args ++ [word 5 "}"; word 6 "}"].
Proof. reflexivity. Qed.

Lemma directive_len c n : len (D c n) = 9 + k.
Proof.
  unfold len, D, k. cbn [tokens]. rewrite directive_tokens_eq.
  rewrite !length_app, length_map. simpl length. lia.
Qed.

Lemma directive_token_at_tail c n j t :
  nth_error [word 5 "}"; word 6 "}"] j = Some t ->
  token_at (D c n) (7 + k + Z.of_nat j) = Some t.
Proof.
  intros H. unfold token_at, k.
  destruct (Z.ltb_spec (7 + Z.of_nat (length args) + Z.of_nat j) 0); [lia |].
  unfold D. cbn [tokens]. rewrite directive_tokens_eq.
  replace (Z.to_nat (7 + Z.of_nat (length args) + Z.of_nat j))
    with (7 + (length args + j))%nat by lia.
  rewrite nth_error_app2 by (simpl; lia).
  rewrite nth_error_app2 by (rewrite length_map; simpl; lia).
  rewrite length_map.
  match goal with
  | |- nth_error _ ?i = _ => replace i with j by (simpl; lia)
  end.
  exact H.
Qed.

Hypothesis tok_nonempty : tok <> "".
Hypothesis tok_not_brace : tok <> "{".
Hypothesis first_not_star : a <> "*".
Hypothesis args_not_brace : Forall (fun x => x <> "{") args.
Hypothesis args_end_line : count_newlines (List.last args "") = 0.

Lemma directive_line_args_access_token :
  exists more, line_args (D 2 1) = tok :: more.
Proof.
  unfold line_args, D. cbn [cursor tokens]. rewrite directive_tokens_eq.
  change (Z.to_nat 2) with 2%nat. cbn [app skipn args_run].
  rewrite words_same_line.
  cbn [word Text].
  destruct (String.eqb_spec tok "{"); [contradiction |]. eauto.
Qed.

Lemma directive_line_args_agent_types : line_args (D 6 2) = args.
Proof.
  unfold line_args, D. cbn [cursor tokens]. rewrite directive_tokens_eq.
  change (Z.to_nat 6) with 6%nat. cbn [app skipn].
  apply (args_run_words 4 args "agent_types" "}" [word 6 "}"]);
    [assumption |].
  unfold args. rewrite (last_cons_default rest a "agent_types" "").
  exact args_end_line.
Qed.

Lemma directive_on_token c n : 0 <= c < 9 + k -> on_token (D c n).
Proof. intros H. unfold on_token. rewrite directive_len. exact H. Qed.

Let parsed : Knownagents :=
  {| AccessToken := tok;
     Robots := Some {| AgentTypes := args; Disallow := ""; text := "" |} |}.

Lemma directive_inner_block :
  block robots_txt_subdirective
    {| AccessToken := tok; Robots := Some new_RobotsTxt |} (D 4 1) =
  Ok tt parsed (D (7 + k) 1).
Proof.
  unfold block. change (Nesting (D 4 1)) with 1.
  rewrite for_NextBlock_unfold by apply safe_robots_txt_subdirective.
  rewrite (NextBlock_opening (D 4 1) 1 (word 3 "robots_txt") (word 3 "{")
             (word 4 "agent_types"));
    [| simpl; lia | reflexivity | reflexivity | reflexivity | reflexivity
     | reflexivity | discriminate].
  change (set_nesting (nesting (D 4 1) + 1)
            (set_cursor (cursor (D 4 1) + 2) (D 4 1))) with (D 6 2).
  cbv iota beta.
  rewrite (robots_txt_subdirective_agent_types _ (D 6 2)) by reflexivity.
  rewrite (case_agent_types_labels _ (D 6 2) new_RobotsTxt a rest);
    [| apply directive_on_token; unfold k; lia | reflexivity
     | exact directive_line_args_agent_types | exact first_not_star].
  replace (set_cursor (cursor (D 6 2) + Z.of_nat (length (a :: rest))) (D 6 2))
    with (D (6 + k) 2) by reflexivity.
  change (set_Robots
            (Some (set_AgentTypes (AgentTypes new_RobotsTxt ++ a :: rest)
                     new_RobotsTxt))
            {| AccessToken := tok; Robots := Some new_RobotsTxt |})
    with parsed.
  rewrite for_NextBlock_unfold by apply safe_robots_txt_subdirective.
  assert (Hclose : token_at (D (6 + k) 2) (cursor (D (6 + k) 2) + 1) =
                   Some (word 5 "}")).
  { cbn [cursor D]. replace (6 + k + 1) with (7 + k + Z.of_nat 0) by lia.
    apply directive_token_at_tail. reflexivity. }
  assert (Hnext : token_at (D (7 + k) 2) (cursor (D (7 + k) 2) + 1) =
                  Some (word 6 "}")).
  { cbn [cursor D]. replace (7 + k + 1) with (7 + k + Z.of_nat 1) by lia.
    apply directive_token_at_tail. reflexivity. }
  rewrite (NextBlock_closing (D (6 + k) 2) 1 (word 5 "}"));
    [| simpl; lia | simpl; unfold k; lia | exact Hclose | reflexivity |].
  - replace (set_nesting (nesting (D (6 + k) 2) - 1)
               (set_cursor (cursor (D (6 + k) 2) + 1) (D (6 + k) 2)))
      with (D (7 + k) 1)
      by (unfold D, set_nesting, set_cursor; simpl; f_equal; lia).
    reflexivity.
  - replace (set_cursor (cursor (D (6 + k) 2) + 1) (D (6 + k) 2))
      with (D (7 + k) 2)
      by (unfold D, set_cursor; simpl; f_equal; lia).
    assert (Hcur : token_at (D (7 + k) 2) (cursor (D (7 + k) 2)) =
                   Some (word 5 "}")).
    { cbn [cursor D]. replace (7 + k) with (7 + k + Z.of_nat 0) at 2 by lia.
      apply directive_token_at_tail. reflexivity. }
    rewrite (nextOnSameLine_step _ _ _ Hcur Hnext). reflexivity.
Qed.


Lemma directive_outer_block :
  block subdirective zero_Knownagents (D 0 0) = Ok tt parsed (D (8 + k) 0).
Proof.
  unfold block. change (Nesting (D 0 0)) with 0.
  (* knownagents { *)
  rewrite for_NextBlock_unfold by apply safe_subdirective.
  rewrite (NextBlock_opening (D 0 0) 0 (word 1 "knownagents") (word 1 "{")
             (word 2 "access_token"));
    [| simpl; lia | reflexivity | reflexivity | reflexivity | reflexivity
     | reflexivity | discriminate].
  change (set_nesting (nesting (D 0 0) + 1)
            (set_cursor (cursor (D 0 0) + 2) (D 0 0))) with (D 2 1).
  cbv iota beta.
  (* access_token tok *)
  rewrite (subdirective_access_token _ (D 2 1)) by reflexivity.
  destruct directive_line_args_access_token as [more Hargs].
  rewrite (case_access_token_run _ (D 2 1) tok more);
    [| apply directive_on_token; unfold k; lia | exact Hargs].
  change (set_cursor (cursor (D 2 1) + 1) (D 2 1)) with (D 3 1).
  change (set_AccessToken tok zero_Knownagents)
    with {| AccessToken := tok; Robots := None |}.
  (* robots_txt { ... } *)
  rewrite for_NextBlock_unfold by apply safe_subdirective.
  rewrite (NextBlock_inside (D 3 1) 0 (word 3 "robots_txt"));
    [| simpl; lia | simpl; lia | reflexivity | discriminate | discriminate].
  change (set_cursor (cursor (D 3 1) + 1) (D 3 1)) with (D 4 1).
  cbv iota beta.
  rewrite (subdirective_robots_txt _ (D 4 1)) by reflexivity.
  unfold case_robots_txt. unfold bind at 1, get_module. cbn [Robots].
  unfold bind at 1, update_module.
  change (set_Robots (Some new_RobotsTxt)
            {| AccessToken := tok; Robots := None |})
    with {| AccessToken := tok; Robots := Some new_RobotsTxt |}.
  rewrite directive_inner_block.
  (* } *)
  rewrite for_NextBlock_unfold by apply safe_subdirective.
  assert (Hclose : token_at (D (7 + k) 1) (cursor (D (7 + k) 1) + 1) =
                   Some (word 6 "}")).
  { cbn [cursor D]. replace (7 + k + 1) with (7 + k + Z.of_nat 1) by lia.
    apply directive_token_at_tail. reflexivity. }
  rewrite (NextBlock_closing (D (7 + k) 1) 0 (word 6 "}"));
    [| simpl; lia | simpl; unfold k; lia | exact Hclose | reflexivity |].
  - replace (set_nesting (nesting (D (7 + k) 1) - 1)
               (set_cursor (cursor (D (7 + k) 1) + 1) (D (7 + k) 1)))
      with (D (8 + k) 0)
      by (unfold D, set_nesting, set_cursor; simpl; f_equal; lia).
    reflexivity.
  - replace (set_cursor (cursor (D (7 + k) 1) + 1) (D (7 + k) 1))
      with (D (8 + k) 1)
      by (unfold D, set_cursor; simpl; f_equal; lia).
    apply nextOnSameLine_last.
    + simpl. unfold k. lia.
    + rewrite directive_len. simpl. lia.
Qed.

(** The directive parses, whatever the token and the labels: the module
    holds the token and a policy with the labels in order, no path and
    no text. *)
Theorem robots_directive_parses :
  UnmarshalCaddyfile zero_Knownagents
    (dispenser_of (robots_directive tok args)) =
  Ok tt parsed (D (8 + k) 0).
Proof.
  change (dispenser_of (robots_directive tok args)) with (D (-1) 0).
  assert (Hblock : bind (disp Next) (fun _ => block subdirective)
                     zero_Knownagents (D (-1) 0) =
                   Ok tt parsed (D (8 + k) 0)).
  { unfold bind, disp.
    rewrite (Next_step (D (-1) 0) (word 1 "knownagents"));
      [| simpl; lia | reflexivity].
    change (set_cursor (cursor (D (-1) 0) + 1) (D (-1) 0)) with (D 0 0).
    exact directive_outer_block. }
  rewrite (UnmarshalCaddyfile_after_block _ _ _ _ Hblock).
  rewrite after_block_run.
  rewrite (NextArg_line_args_nil (D (8 + k) 0)).
  - unfold parsed. cbn [AccessToken Robots AgentTypes].
    destruct (String.eqb_spec tok ""); [contradiction |]. reflexivity.
  - apply directive_on_token. unfold k. lia.
  - unfold line_args.
    destruct (drop (Z.to_nat (cursor (D (8 + k) 0))) (tokens (D (8 + k) 0)))
      as [| curr [| t more]] eqn:E; try reflexivity.
    apply drop_cons_inv in E. destruct E as (_ & E & _).
    apply (f_equal (@length Token)) in E. rewrite length_drop in E.
    pose proof (directive_len (8 + k) 0) as Hl. unfold len in Hl.
    unfold D in E, Hl. cbn [cursor tokens length] in E, Hl.
    unfold k in *. lia.
Qed.

End Directive.

Lemma robots_directive_parses_witness :
  UnmarshalCaddyfile zero_Knownagents
    (dispenser_of (robots_directive "aHVudGVyMg==" [AIAssistant; "*"])) =
  Ok tt
     {| AccessToken := "aHVudGVyMg==";
        Robots := Some {| AgentTypes := [AIAssistant; "*"]; Disallow := "";
                          text := "" |} |}
     (mkDispenser
        (lines_from 1 (robots_directive "aHVudGVyMg==" [AIAssistant; "*"]))
        10 0).
Proof.
  apply (robots_directive_parses "aHVudGVyMg==" AIAssistant ["*"]).
  - discriminate.
  - discriminate.
  - discriminate.
  - repeat constructor; discriminate.
  - reflexivity.
Defined.

(** ** What the goroutine does to the headers, and how it ends *)

(** [Del("Cookie")] removes the entry under the canonical key and no
    other. *)
Lemma Header_Del_Cookie (h : gmap string (list string)) :
  Header_Del "Cookie" h !! "Cookie" = None /\
  (forall key, key <> "Cookie" -> Header_Del "Cookie" h !! key = h !! key).
Proof.
  unfold Header_Del.
  change (CanonicalMIMEHeaderKey "Cookie") with "Cookie". split.
  - apply lookup_delete_eq.
  - intros key Hkey. apply lookup_delete_ne. congruence.
Qed.

(** When [client.Do] fails and gives no response, the goroutine has sent
    its one request, logged the failure, and ends in the nil dereference
    of the deferred [resp.Body.Close()]. *)
Theorem report_panics_without_response
    (client_Do : Transport) (endpoint : string) (m : Knownagents)
    (r : Request) (err : error) :
  (forall req, client_Do req = inr (err, None)) ->
  t_panicked (report client_Do endpoint m r) = true /\
  length (t_outbound (report client_Do endpoint m r)) = 1%nat.
Proof.
  intros H. unfold report. rewrite H. split; reflexivity.
Qed.

Lemma report_panics_without_response_witness :
  t_panicked
    (report (fun _ => inr (errorString "connection refused", None))
       AnalyticsEndpoint sample_module sample_request) = true.
Proof.
  apply (report_panics_without_response
           (fun _ => inr (errorString "connection refused", None))
           AnalyticsEndpoint sample_module sample_request
           (errorString "connection refused")).
  intros req. reflexivity.
Defined.

Lemma ServeHTTP_reports_once_witness :
  exists task,
    ServeHTTP (answering "") sample_module passing_handler sample_world =
      {| s_err := None;
         s_world := publish "ka_robots_txt" sample_module sample_world;
         s_spawned := [task] |} /\
    map o_body (t_outbound (task sample_request)) =
      [ VisitJSON {| request_path := "/a";
                     request_method := "GET";
                     request_headers := delete "Cookie" (Header sample_request) |} ].
Proof.
  destruct (ServeHTTP_reports_once (answering "") sample_module
              passing_handler sample_world
              (publish "ka_robots_txt" sample_module sample_world) eq_refl)
    as (task & Hrun & _ & Hsame).
  exists task. split; [exact Hrun |]. apply Hsame. reflexivity.
Defined.

(** * Further properties of the parser *)

(** ** What every accepted directive satisfies *)

Section PolicyInvariant.
Variable P : RobotsTxt -> Prop.
(** [P] holds of a fresh policy and survives the two assignments the
    parser makes to one. *)
Hypothesis P_new : P new_RobotsTxt.
Hypothesis P_AgentTypes : forall l rt, P rt -> P (set_AgentTypes l rt).
Hypothesis P_Disallow : forall p rt, P rt -> P (set_Disallow p rt).

Lemma policy_inv_tokens m d d' :
  tokens d' = tokens d -> policy_inv P m d -> policy_inv P m d'.
Proof. intros _ H. exact H. Qed.

Lemma policy_inv_update_robots f :
  (forall rt, P rt -> P (f rt)) -> preserves (policy_inv P) (update_robots f).
Proof.
  intros Hf. apply preserves_update_module. intros m d H rt.
  destruct (Robots m) as [rt0 |] eqn:E; cbn [set_Robots Robots].
  - intros Hrt. injection Hrt as <-. apply Hf, H. exact E.
  - rewrite E. discriminate.
Qed.

Lemma policy_inv_NextArg : preserves (policy_inv P) (disp NextArg).
Proof. apply preserves_disp; [exact policy_inv_tokens | exact NextArg_advances]. Qed.

Lemma policy_inv_val : preserves (policy_inv P) val.
Proof. intros m d H. exact H. Qed.

Lemma policy_inv_case_agent_types : preserves (policy_inv P) case_agent_types.
Proof.
  unfold case_agent_types, append_agent_type.
  apply preserves_bind; [exact policy_inv_NextArg |].
  intros [|]; [| apply preserves_raise]. cbn [negb].
  apply preserves_bind; [exact policy_inv_val |]. intros v.
  destruct (String.eqb v "*").
  - apply preserves_bind.
    { apply policy_inv_update_robots. intros rt. apply P_AgentTypes. }
    intros _. apply preserves_bind; [exact policy_inv_NextArg |].
    intros [|]; [| apply preserves_ret].
    apply preserves_bind; [exact policy_inv_val |]. intros v'.
    apply preserves_raise.
  - apply preserves_bind.
    { apply policy_inv_update_robots. intros rt. apply P_AgentTypes. }
    intros _. apply preserves_while_NextArg; [exact policy_inv_tokens |].
    apply preserves_bind; [exact policy_inv_val |]. intros v'.
    apply policy_inv_update_robots. intros rt. apply P_AgentTypes.
Qed.

Lemma policy_inv_case_disallow : preserves (policy_inv P) case_disallow.
Proof.
  unfold case_disallow.
  apply preserves_bind; [exact policy_inv_NextArg |].
  intros [|]; [| apply preserves_raise]. cbn [negb].
  apply preserves_bind; [exact policy_inv_val |]. intros v.
  apply policy_inv_update_robots. intros rt. apply P_Disallow.
Qed.

Lemma policy_inv_subdirective : preserves (policy_inv P) subdirective.
Proof.
  unfold subdirective.
  apply preserves_bind; [exact policy_inv_val |]. intros v.
  destruct (String.eqb v "robots_txt").
  - unfold case_robots_txt. apply preserves_get_module. intros m d H.
    destruct (Robots m); [exact H |].
    apply preserves_bind; [| | exact H].
    + apply preserves_update_module. intros m0 d0 _ rt.
      cbn [set_Robots Robots]. intros Hrt. injection Hrt as <-. exact P_new.
    + intros _. apply preserves_block; [exact policy_inv_tokens |].
      unfold robots_txt_subdirective.
      apply preserves_bind; [exact policy_inv_val |]. intros v0.
      destruct (String.eqb v0 "agent_types");
        [exact policy_inv_case_agent_types |].
      destruct (String.eqb v0 "disallow");
        [exact policy_inv_case_disallow | apply preserves_raise].
  - destruct (String.eqb v "access_token"); [| apply preserves_raise].
    unfold case_access_token.
    apply preserves_bind; [exact policy_inv_NextArg |].
    intros [|]; [| apply preserves_raise]. cbn [negb].
    apply preserves_bind; [exact policy_inv_val |]. intros v0.
    apply preserves_update_module. intros m d H. exact H.
Qed.

Lemma policy_inv_UnmarshalCaddyfile :
  preserves (policy_inv P) UnmarshalCaddyfile.
Proof.
  unfold UnmarshalCaddyfile.
  apply preserves_bind.
  { apply preserves_disp; [exact policy_inv_tokens | exact Next_advances]. }
  intros _. apply preserves_bind.
  - apply preserves_block; [exact policy_inv_tokens |].
    exact policy_inv_subdirective.
  - intros _ m d H. rewrite after_block_run.
    destruct (NextArg d) as [[|] d1]; [exact H |].
    destruct (String.eqb (AccessToken m) ""); [exact H |].
    destruct (Robots m) as [rt |]; [| exact H].
    destruct (length (AgentTypes rt) =? 0)%nat; exact H.
Qed.

End PolicyInvariant.

(** The parser accepts no policy without labels. *)
Lemma UnmarshalCaddyfile_labels m d m' d' rt :
  UnmarshalCaddyfile m d = Ok tt m' d' -> Robots m' = Some rt ->
  AgentTypes rt <> [].
Proof.
  unfold UnmarshalCaddyfile, bind.
  destruct (disp Next m d) as [b m0 d0 | |]; try discriminate.
  destruct (block subdirective m0 d0) as [[] m1 d1 | |]; try discriminate.
  rewrite after_block_run. destruct (NextArg d1) as [[|] d2];
    [discriminate |].
  destruct (String.eqb (AccessToken m1) ""); [discriminate |].
  destruct (Robots m1) as [rt1 |] eqn:E.
  - destruct (AgentTypes rt1) eqn:Ea; [discriminate |].
    intros H Hm. injection H as <- _. rewrite E in Hm.
    injection Hm as <-. rewrite Ea. discriminate.
  - intros H Hm. injection H as <- _. congruence.
Qed.

(** Every module [parseCaddyfile] returns has a non-empty access token,
    and its robots.txt policy, if it has one, lists at least one agent
    type and has no cached text yet. *)
Theorem parseCaddyfile_module_complete (d : Dispenser) (m : Knownagents) :
  parseCaddyfile d = inl m ->
  AccessToken m <> "" /\
  (forall rt, Robots m = Some rt -> AgentTypes rt <> [] /\ text rt = "").
Proof.
  intros Hparse. pose proof (parseCaddyfile_result d) as Hres.
  rewrite Hparse in Hres. destruct Hres as [d' Hrun]. split.
  - eapply UnmarshalCaddyfile_token. exact Hrun.
  - intros rt Hm. split.
    + eapply UnmarshalCaddyfile_labels; eassumption.
    + pose proof (policy_inv_UnmarshalCaddyfile (fun rt => text rt = "")
                    eq_refl (fun _ _ H => H) (fun _ _ H => H)
                    zero_Knownagents d) as Hinv.
      rewrite Hrun in Hinv. apply Hinv; [| exact Hm].
      intros rt0 Hrt0. discriminate Hrt0.
Qed.

Lemma parseCaddyfile_module_complete_witness :
  AccessToken {| AccessToken := "aHVudGVyMg=="; Robots := None |} <> "".
Proof.
  apply (parseCaddyfile_module_complete
           (dispenser_of [ ["knownagents"; "{"];
                           ["access_token"; "aHVudGVyMg=="];
                           ["}"] ])
           {| AccessToken := "aHVudGVyMg=="; Robots := None |}).
  vm_compute. reflexivity.
Defined.

(** ** Directives the parser rejects *)

Lemma NextArg_same_line d t0 t1 :
  token_at d (cursor d) = Some t0 -> token_at d (cursor d + 1) = Some t1 ->
  isNextOnNewLine t0 t1 = false -> Text t1 <> "{" ->
  NextArg d = (true, set_cursor (cursor d + 1) d).
Proof.
  intros H0 H1 Hline Hbrace. unfold NextArg.
  rewrite (nextOnSameLine_step d t0 t1 H0 H1), Hline. cbn [negb].
  rewrite (Val_token (set_cursor (cursor d + 1) d) t1 H1).
  destruct (String.eqb_spec (Text t1) "{"); [contradiction | reflexivity].
Qed.

(** No block opens on the line of the current token. *)
Lemma NextBlock_no_block d n t0 t1 :
  nesting d <= n ->
  token_at d (cursor d) = Some t0 -> token_at d (cursor d + 1) = Some t1 ->
  isNextOnNewLine t0 t1 = false -> Text t1 <> "{" ->
  NextBlock n d = (false, d).
Proof.
  intros Hn H0 H1 Hline Hbrace. unfold NextBlock.
  destruct (Z.ltb_spec n (nesting d)); [lia |].
  rewrite (nextOnSameLine_step d t0 t1 H0 H1), Hline. cbn [negb].
  rewrite (Val_token (set_cursor (cursor d + 1) d) t1 H1).
  destruct (String.eqb_spec (Text t1) "{"); [contradiction |].
  cbn [negb]. f_equal. apply Dispenser_ext; simpl; try reflexivity. lia.
Qed.

Section Rejected.
Variable m : Knownagents.
Variables t0 t1 : Token.
Hypothesis same_line : isNextOnNewLine t0 t1 = false.

(** The directive name is followed by an argument. *)
Section Argument.
Variable rest : list Token.
Hypothesis not_brace : Text t1 <> "{".
Let D (c n : Z) := mkDispenser (t0 :: t1 :: rest) c n.

Lemma argument_block_skipped :
  bind (disp Next) (fun _ => block subdirective) m (D (-1) 0) =
    Ok tt m (D 0 0).
Proof.
  unfold bind, disp.
  rewrite (Next_step (D (-1) 0) t0); [| simpl; lia | reflexivity].
  change (set_cursor (cursor (D (-1) 0) + 1) (D (-1) 0)) with (D 0 0).
  unfold block. rewrite for_NextBlock_S.
  rewrite (NextBlock_no_block (D 0 0) (Nesting (D 0 0)) t0 t1);
    [reflexivity | simpl; lia | reflexivity | reflexivity
     | exact same_line | exact not_brace].
Qed.

(** The directive takes no argument: when its name is followed on its
    line by a token other than an opening brace, parsing fails with
    [unexpected argument '<token>'], whatever follows, and the module is
    left as it was. *)
Theorem directive_takes_no_argument :
  UnmarshalCaddyfile m (NewDispenser (t0 :: t1 :: rest)) =
    Failed (Err ("unexpected argument '" +:+ Text t1 +:+ "'") (D 1 0))
           m (D 1 0).
Proof.
  change (NewDispenser (t0 :: t1 :: rest)) with (D (-1) 0).
  rewrite (UnmarshalCaddyfile_after_block _ _ _ _ argument_block_skipped).
  rewrite after_block_run.
  rewrite (NextArg_same_line (D 0 0) t0 t1);
    [| reflexivity | reflexivity | exact same_line | exact not_brace].
  change (set_cursor (cursor (D 0 0) + 1) (D 0 0)) with (D 1 0).
  change (Val (D 1 0)) with (Text t1). reflexivity.
Qed.

End Argument.

(** The directive name is followed by a block. *)
Section Block.
Hypothesis opens : Text t1 = "{".
Variable t2 : Token.
Hypothesis not_closed : Text t2 <> "}".

Lemma block_entered rest :
  let D c n := mkDispenser (t0 :: t1 :: t2 :: rest) c n in
  disp Next m (D (-1) 0) = Ok true m (D 0 0) /\
  NextBlock 0 (D 0 0) = (true, D 2 1).
Proof.
  intros D. split.
  - unfold disp.
    rewrite (Next_step (D (-1) 0) t0); [reflexivity | simpl; lia | reflexivity].
  - rewrite (NextBlock_opening (D 0 0) 0 t0 t1 t2);
      [reflexivity | simpl; lia | reflexivity | reflexivity | reflexivity
       | exact same_line | exact opens | exact not_closed].
Qed.

(** A block whose first line starts with a token that is neither
    [access_token] nor [robots_txt]: parsing fails with [unrecognized
    subdirective '<token>'], whatever follows, and the module is left as
    it was. *)
Theorem unrecognized_subdirective_rejected (rest : list Token) :
  Text t2 <> "robots_txt" -> Text t2 <> "access_token" ->
  UnmarshalCaddyfile m (NewDispenser (t0 :: t1 :: t2 :: rest)) =
    Failed
      (Err ("unrecognized subdirective '" +:+ Text t2 +:+ "'")
         (mkDispenser (t0 :: t1 :: t2 :: rest) 2 1))
      m (mkDispenser (t0 :: t1 :: t2 :: rest) 2 1).
Proof.
  intros Hrobots Htoken. destruct (block_entered rest) as [Hnext Henter].
  set (D c n := mkDispenser (t0 :: t1 :: t2 :: rest) c n) in *.
  change (NewDispenser (t0 :: t1 :: t2 :: rest)) with (D (-1) 0).
  unfold UnmarshalCaddyfile. unfold bind at 1. rewrite Hnext.
  unfold bind at 1. unfold block. change (Nesting (D 0 0)) with 0.
  rewrite for_NextBlock_S, Henter. cbv iota beta.
  unfold subdirective. unfold bind at 1, val.
  change (Val (D 2 1)) with (Text t2).
  destruct (String.eqb_spec (Text t2) "robots_txt"); [contradiction |].
  destruct (String.eqb_spec (Text t2) "access_token"); [contradiction |].
  reflexivity.
Qed.

(** A [robots_txt] block that opens the directive's block and whose own
    first line starts with a token that is neither [agent_types] nor
    [disallow]: parsing fails with [unknown subdirective '<token>'], and
    the module is left with an empty policy. *)
Theorem unknown_subdirective_rejected (t3 t4 : Token) (rest : list Token) :
  Robots m = None ->
  Text t2 = "robots_txt" -> isNextOnNewLine t2 t3 = false ->
  Text t3 = "{" -> Text t4 <> "}" ->
  Text t4 <> "agent_types" -> Text t4 <> "disallow" ->
  UnmarshalCaddyfile m (NewDispenser (t0 :: t1 :: t2 :: t3 :: t4 :: rest)) =
    Failed
      (Err ("unknown subdirective '" +:+ Text t4 +:+ "'")
         (mkDispenser (t0 :: t1 :: t2 :: t3 :: t4 :: rest) 4 2))
      (set_Robots (Some new_RobotsTxt) m)
      (mkDispenser (t0 :: t1 :: t2 :: t3 :: t4 :: rest) 4 2).
Proof.
  intros Hm Hrobots Hline Hopen Hclosed Hagent Hdisallow.
  destruct (block_entered (t3 :: t4 :: rest)) as [Hnext Henter].
  set (D c n := mkDispenser (t0 :: t1 :: t2 :: t3 :: t4 :: rest) c n) in *.
  change (NewDispenser (t0 :: t1 :: t2 :: t3 :: t4 :: rest)) with (D (-1) 0).
  unfold UnmarshalCaddyfile. unfold bind at 1. rewrite Hnext.
  unfold bind at 1. unfold block at 1. change (Nesting (D 0 0)) with 0.
  rewrite for_NextBlock_S, Henter. cbv iota beta.
  rewrite (subdirective_robots_txt m (D 2 1)) by exact Hrobots.
  unfold case_robots_txt. unfold bind at 1, get_module. rewrite Hm.
  unfold bind at 1, update_module.
  unfold block. change (Nesting (D 2 1)) with 1.
  rewrite for_NextBlock_S.
  rewrite (NextBlock_opening (D 2 1) 1 t2 t3 t4);
    [| simpl; lia | reflexivity | reflexivity | reflexivity
     | exact Hline | exact Hopen | exact Hclosed].
  change (set_nesting (nesting (D 2 1) + 1)
            (set_cursor (cursor (D 2 1) + 2) (D 2 1))) with (D 4 2).
  cbv iota beta.
  unfold robots_txt_subdirective. unfold bind at 1, val.
  change (Val (D 4 2)) with (Text t4).
  destruct (String.eqb_spec (Text t4) "agent_types"); [contradiction |].
  destruct (String.eqb_spec (Text t4) "disallow"); [contradiction |].
  reflexivity.
Qed.

End Block.
End Rejected.

Lemma directive_takes_no_argument_witness :
  UnmarshalCaddyfile zero_Knownagents
    (dispenser_of [ ["knownagents"; "extra"]; ["other"] ]) =
    Failed (wrapAt (errorString "unexpected argument 'extra'") "Testfile" 1)
      zero_Knownagents
      (mkDispenser (lines_from 1 [ ["knownagents"; "extra"]; ["other"] ]) 1 0).
Proof.
  apply (directive_takes_no_argument zero_Knownagents
           (word 1 "knownagents") (word 1 "extra") eq_refl [word 2 "other"]).
  cbn. discriminate.
Defined.

Lemma unrecognized_subdirective_rejected_witness :
  UnmarshalCaddyfile zero_Knownagents
    (dispenser_of [ ["knownagents"; "{"]; ["token"; "aHVudGVyMg=="]; ["}"] ]) =
    Failed
      (wrapAt (errorString "unrecognized subdirective 'token'") "Testfile" 2)
      zero_Knownagents
      (mkDispenser
         (lines_from 1
            [ ["knownagents"; "{"]; ["token"; "aHVudGVyMg=="]; ["}"] ]) 2 1).
Proof.
  apply (unrecognized_subdirective_rejected zero_Knownagents
           (word 1 "knownagents") (word 1 "{") eq_refl eq_refl
           (word 2 "token"));
    cbn; discriminate.
Defined.

Lemma unknown_subdirective_rejected_witness :
  UnmarshalCaddyfile zero_Knownagents
    (dispenser_of
       [ ["knownagents"; "{"]; ["robots_txt"; "{"]; ["allow"; "/"]; ["}"];
         ["}"] ]) =
    Failed
      (wrapAt (errorString "unknown subdirective 'allow'") "Testfile" 3)
      (set_Robots (Some new_RobotsTxt) zero_Knownagents)
      (mkDispenser
         (lines_from 1
            [ ["knownagents"; "{"]; ["robots_txt"; "{"]; ["allow"; "/"];
              ["}"]; ["}"] ]) 4 2).
Proof.
  apply (unknown_subdirective_rejected zero_Knownagents
           (word 1 "knownagents") (word 1 "{") eq_refl eq_refl
           (word 2 "robots_txt")
           ltac:(cbn; discriminate)
           (word 2 "{") (word 3 "allow"));
    first [reflexivity | cbn; discriminate].
Defined.

(** ** Subdirectives and their arguments *)

Lemma robots_txt_subdirective_disallow m d :
  Val d = "disallow" -> robots_txt_subdirective m d = case_disallow m d.
Proof.
  intros H. unfold robots_txt_subdirective. unfold bind at 1, val.
  rewrite H. reflexivity.
Qed.

(** The error of [ArgErr] on a token that is not an opening brace. *)
Lemma ArgErr_after d :
  Val d <> "{" ->
  ArgErr d =
    Err ("wrong argument count or unexpected line ending after '"
         +:+ Val d +:+ "'") d.
Proof.
  intros H. unfold ArgErr.
  destruct (String.eqb_spec (Val d) "{"); [contradiction | reflexivity].
Qed.

(** Each of the three subdirectives that take an argument fails, when
    its line has none, with [wrong argument count or unexpected line
    ending after '<subdirective>']; the module and the dispenser are
    left as they were.  The line has no argument also when a block
    opens right after the subdirective, and the error is the same. *)
Theorem missing_argument_rejected (m : Knownagents) (d : Dispenser) :
  on_token d -> line_args d = [] ->
  (Val d = "access_token" ->
   subdirective m d =
     Failed
       (Err "wrong argument count or unexpected line ending after 'access_token'"
          d) m d) /\
  (Val d = "agent_types" ->
   robots_txt_subdirective m d =
     Failed
       (Err "wrong argument count or unexpected line ending after 'agent_types'"
          d) m d) /\
  (Val d = "disallow" ->
   robots_txt_subdirective m d =
     Failed
       (Err "wrong argument count or unexpected line ending after 'disallow'"
          d) m d).
Proof.
  intros Hon Hargs.
  pose proof (NextArg_line_args_nil d Hon Hargs) as Hnone.
  split; [| split]; intros Hval.
  - rewrite (subdirective_access_token m d Hval).
    unfold case_access_token. unfold bind at 1, disp. rewrite Hnone.
    cbn [negb]. unfold raise. rewrite ArgErr_after, Hval;
      [reflexivity | rewrite Hval; discriminate].
  - rewrite (robots_txt_subdirective_agent_types m d Hval).
    unfold case_agent_types. unfold bind at 1, disp. rewrite Hnone.
    cbn [negb]. unfold raise. rewrite ArgErr_after, Hval;
      [reflexivity | rewrite Hval; discriminate].
  - rewrite (robots_txt_subdirective_disallow m d Hval).
    unfold case_disallow. unfold bind at 1, disp. rewrite Hnone.
    cbn [negb]. unfold raise. rewrite ArgErr_after, Hval;
      [reflexivity | rewrite Hval; discriminate].
Qed.

Lemma missing_argument_rejected_witness :
  subdirective zero_Knownagents
    (mkDispenser (lines_from 1 [ ["knownagents"; "{"];
                                 ["access_token"; "{"];
                                 ["}"]; ["}"] ]) 2 1) =
  Failed
    (wrapAt
       (errorString
          "wrong argument count or unexpected line ending after 'access_token'")
       "Testfile" 2)
    zero_Knownagents
    (mkDispenser (lines_from 1 [ ["knownagents"; "{"];
                                 ["access_token"; "{"];
                                 ["}"]; ["}"] ]) 2 1).
Proof.
  refine (proj1 (missing_argument_rejected zero_Knownagents
            (mkDispenser (lines_from 1 [ ["knownagents"; "{"];
                                         ["access_token"; "{"];
                                         ["}"]; ["}"] ]) 2 1) _ _) _).
  - unfold on_token, len. simpl. lia.
  - reflexivity.
  - reflexivity.
Defined.

Lemma case_disallow_run m d rt p rest :
  on_token d -> Robots m = Some rt -> line_args d = p :: rest ->
  case_disallow m d =
    Ok tt (set_Robots (Some (set_Disallow p rt)) m)
       (set_cursor (cursor d + 1) d).
Proof.
  intros Hon Hm Hargs.
  destruct (NextArg_line_args_cons d p rest Hon Hargs) as (Hnext & Hval & _).
  unfold case_disallow. unfold bind at 1, disp. rewrite Hnext.
  cbn [negb]. unfold bind, val, update_robots, update_module.
  rewrite Hval, Hm. reflexivity.
Qed.

Section PathThroughProvision.
Variable client_Do : Transport.
Variable ReplaceAll : string -> string -> string.

(** A [disallow] subdirective replaces the path the policy holds with
    its first argument and leaves the agent types alone, so the last
    [disallow] line of a block decides; [Provision] then keeps that
    path, unless it is the empty string, which it replaces with [/]. *)
Theorem disallow_path_through_Provision
    (m : Knownagents) (d : Dispenser) (rt : RobotsTxt)
    (p : string) (rest : list string) :
  on_token d -> Val d = "disallow" -> Robots m = Some rt ->
  line_args d = p :: rest ->
  exists m' d',
    robots_txt_subdirective m d = Ok tt m' d' /\
    Robots m' = Some (set_Disallow p rt) /\
    AccessToken m' = AccessToken m /\
    exists rt',
      Robots (p_module (Provision client_Do ReplaceAll m')) = Some rt' /\
      AgentTypes rt' = AgentTypes rt /\
      Disallow rt' = (if String.eqb p "" then "/" else p).
Proof.
  intros Hon Hval Hm Hargs.
  rewrite (robots_txt_subdirective_disallow m d Hval).
  rewrite (case_disallow_run m d rt p rest Hon Hm Hargs).
  do 2 eexists. split; [reflexivity |]. split; [reflexivity |].
  split; [reflexivity |].
  destruct (Provision_Disallow client_Do ReplaceAll
              (set_Robots (Some (set_Disallow p rt)) m)
              (set_Disallow p rt) eq_refl) as (rt' & H1 & H2 & H3).
  exists rt'. auto.
Qed.

End PathThroughProvision.

Lemma disallow_path_through_Provision_witness :
  exists m' d',
    robots_txt_subdirective module_in_block
      (mkDispenser (lines_from 1 [ ["knownagents"; "{"];
                                   ["access_token"; "aHVudGVyMg=="];
                                   ["robots_txt"; "{"];
                                   ["disallow"; "/private"];
                                   ["}"]; ["}"] ]) 6 2) = Ok tt m' d' /\
    exists rt',
      Robots (p_module (Provision (answering "") replacer_without_env m')) =
        Some rt' /\
      Disallow rt' = "/private".
Proof.
  destruct (disallow_path_through_Provision (answering "")
              replacer_without_env module_in_block
              (mkDispenser (lines_from 1 [ ["knownagents"; "{"];
                                           ["access_token"; "aHVudGVyMg=="];
                                           ["robots_txt"; "{"];
                                           ["disallow"; "/private"];
                                           ["}"]; ["}"] ]) 6 2)
              new_RobotsTxt "/private" [])
    as (m' & d' & Hrun & _ & _ & rt' & Hp & _ & Hpath).
  - unfold on_token, len. simpl. lia.
  - reflexivity.
  - reflexivity.
  - reflexivity.
  - exists m', d'. split; [exact Hrun |]. exists rt'. split; assumption.
Defined.

(** The arguments of a line end where the line does. *)
Lemma line_args_used_up args :
  forall d,
    on_token d -> line_args d = args ->
    let d' := set_cursor (cursor d + Z.of_nat (length args)) d in
    on_token d' /\ line_args d' = [].
Proof.
  induction args as [| v vs IH]; intros d Hon Hargs d'.
  - assert (Hd : d' = d).
    { unfold d'. apply Dispenser_ext; simpl; try reflexivity. lia. }
    rewrite Hd. split; assumption.
  - destruct (NextArg_line_args_cons d v vs Hon Hargs)
      as (_ & _ & Hrest & Hon1).
    destruct (IH _ Hon1 Hrest) as [Hon' Hnil].
    assert (Hd : d' = set_cursor
                        (cursor (set_cursor (cursor d + 1) d) +
                         Z.of_nat (length vs))
                        (set_cursor (cursor d + 1) d)).
    { unfold d', set_cursor. simpl. f_equal. lia. }
    rewrite Hd. split; assumption.
Qed.

(** An [agent_types] line whose first argument is not the wildcard adds
    every argument of the line, in order and without dropping
    duplicates, after the agent types the policy already holds - those
    of earlier [agent_types] lines, the catalog of an earlier wildcard
    included.  It leaves the path, the cached text and the access token
    alone, and stops on the last argument of the line. *)
Theorem agent_types_lines_accumulate
    (m : Knownagents) (d : Dispenser) (rt : RobotsTxt)
    (a : string) (rest : list string) :
  on_token d -> Val d = "agent_types" -> Robots m = Some rt ->
  line_args d = a :: rest -> a <> "*" ->
  exists m' d',
    robots_txt_subdirective m d = Ok tt m' d' /\
    Robots m' =
      Some {| AgentTypes := AgentTypes rt ++ a :: rest;
              Disallow := Disallow rt; text := text rt |} /\
    AccessToken m' = AccessToken m /\
    cursor d' = cursor d + Z.of_nat (length (a :: rest)) /\
    line_args d' = [].
Proof.
  intros Hon Hval Hm Hargs Hfirst.
  rewrite (robots_txt_subdirective_agent_types m d Hval).
  rewrite (case_agent_types_labels m d rt a rest Hon Hm Hargs Hfirst).
  do 2 eexists. split; [reflexivity |].
  split; [reflexivity |]. split; [reflexivity |]. split; [reflexivity |].
  apply (line_args_used_up (a :: rest) d Hon Hargs).
Qed.

(** Labels after a wildcard line: the catalog, then the labels. *)
Lemma agent_types_lines_accumulate_witness :
  exists m' d',
    robots_txt_subdirective
      {| AccessToken := "aHVudGVyMg==";
         Robots := Some {| AgentTypes := allAgentTypes; Disallow := "";
                           text := "" |} |}
      (at_agent_types [Archiver; "Robot"]) = Ok tt m' d' /\
    Robots m' =
      Some {| AgentTypes := allAgentTypes ++ [Archiver; "Robot"];
              Disallow := ""; text := "" |}.
Proof.
  destruct (agent_types_lines_accumulate
              {| AccessToken := "aHVudGVyMg==";
                 Robots := Some {| AgentTypes := allAgentTypes;
                                   Disallow := ""; text := "" |} |}
              (at_agent_types [Archiver; "Robot"])
              {| AgentTypes := allAgentTypes; Disallow := ""; text := "" |}
              Archiver ["Robot"])
    as (m' & d' & Hrun & Hm & _).
  - unfold on_token, len. simpl. lia.
  - reflexivity.
  - reflexivity.
  - reflexivity.
  - discriminate.
  - exists m', d'. split; assumption.
Defined.

(** A [robots_txt] subdirective with no block on its line, or with a
    block that is closed at once, is accepted where it stands and
    configures a policy with no agent types, no path and no text. *)
Theorem robots_txt_without_content
    (m : Knownagents) (d : Dispenser) (t0 t1 : Token) :
  Robots m = None -> Val d = "robots_txt" ->
  token_at d (cursor d) = Some t0 ->
  token_at d (cursor d + 1) = Some t1 ->
  (isNextOnNewLine t0 t1 = true ->
   subdirective m d = Ok tt (set_Robots (Some new_RobotsTxt) m) d) /\
  (isNextOnNewLine t0 t1 = false -> Text t1 = "{" ->
   forall t2, token_at d (cursor d + 2) = Some t2 -> Text t2 = "}" ->
   subdirective m d =
     Ok tt (set_Robots (Some new_RobotsTxt) m) (set_cursor (cursor d + 2) d)).
Proof.
  intros Hm Hval H0 H1.
  assert (Hskip : forall d1,
            NextBlock (nesting d) d = (false, d1) ->
            subdirective m d = Ok tt (set_Robots (Some new_RobotsTxt) m) d1).
  { intros d1 Hblock. rewrite (subdirective_robots_txt m d Hval).
    unfold case_robots_txt. unfold bind at 1, get_module. rewrite Hm.
    unfold bind at 1, update_module. unfold block, Nesting.
    rewrite for_NextBlock_S, Hblock. reflexivity. }
  split.
  - intros Hline. apply Hskip. unfold NextBlock.
    destruct (Z.ltb_spec (nesting d) (nesting d)); [lia |].
    rewrite (nextOnSameLine_step d t0 t1 H0 H1), Hline. reflexivity.
  - intros Hline Hopen t2 H2 Hclose. apply Hskip. unfold NextBlock.
    destruct (Z.ltb_spec (nesting d) (nesting d)); [lia |].
    rewrite (nextOnSameLine_step d t0 t1 H0 H1), Hline. cbn [negb].
    set (d1 := set_cursor (cursor d + 1) d).
    rewrite (Val_token d1 t1 H1), Hopen.
    cbn [String.eqb Ascii.eqb Bool.eqb negb].
    assert (H2' : token_at d1 (cursor d1 + 1) = Some t2).
    { unfold d1. simpl cursor.
      replace (cursor d + 1 + 1) with (cursor d + 2) by lia. exact H2. }
    pose proof (token_at_lt _ _ _ H0) as Hlt.
    rewrite (Next_step d1 t2) by (unfold d1; simpl; try lia; exact H2').
    rewrite (Val_token (set_cursor (cursor d1 + 1) d1) t2 H2'), Hclose.
    cbn [String.eqb Ascii.eqb Bool.eqb]. f_equal.
    unfold d1, set_cursor. simpl. f_equal. lia.
Qed.

Lemma robots_txt_without_content_witness :
  subdirective {| AccessToken := "aHVudGVyMg=="; Robots := None |}
    (mkDispenser (lines_from 1 [ ["knownagents"; "{"];
                                 ["access_token"; "aHVudGVyMg=="];
                                 ["robots_txt"];
                                 ["}"] ]) 4 1) =
  Ok tt {| AccessToken := "aHVudGVyMg=="; Robots := Some new_RobotsTxt |}
     (mkDispenser (lines_from 1 [ ["knownagents"; "{"];
                                  ["access_token"; "aHVudGVyMg=="];
                                  ["robots_txt"];
                                  ["}"] ]) 4 1).
Proof.
  refine (proj1 (robots_txt_without_content
            {| AccessToken := "aHVudGVyMg=="; Robots := None |}
            (mkDispenser (lines_from 1 [ ["knownagents"; "{"];
                                         ["access_token"; "aHVudGVyMg=="];
                                         ["robots_txt"];
                                         ["}"] ]) 4 1)
            (word 3 "robots_txt") (word 4 "}") _ _ _ _) _);
    reflexivity.
Defined.

(** * Further properties of the life-cycle hooks *)

(** ** Validate *)

(** [Validate] writes the access token, in clear, to the debug log
    before it checks anything: the entry is there whether validation
    succeeds or fails.  This holds of both variants. *)
Theorem Validate_logs_access_token (m : Knownagents) :
  (exists rest,
     fst (Validate m) =
       (DebugLevel, "Access Token: " +:+ AccessToken m) :: rest) /\
  (exists rest,
     fst (Darkvisitors.Validate m) =
       (DebugLevel, "Access Token: " +:+ AccessToken m) :: rest).
Proof.
  unfold Validate, Darkvisitors.Validate, validate.
  destruct (Robots m) as [rt |].
  - destruct (check_agent_types (AgentTypes rt)); split; eexists; reflexivity.
  - split; eexists; reflexivity.
Qed.

Section AfterProvision.
Variable client_Do : Transport.
Variable ReplaceAll : string -> string -> string.

Lemma Provision_AgentTypes m :
  match Robots m with
  | Some rt =>
      exists rt',
        Robots (p_module (Provision client_Do ReplaceAll m)) = Some rt' /\
        AgentTypes rt' = AgentTypes rt
  | None => Robots (p_module (Provision client_Do ReplaceAll m)) = None
  end.
Proof.
  destruct (Robots m) as [rt |] eqn:Hm.
  - destruct (Provision_Disallow client_Do ReplaceAll m rt Hm)
      as (rt' & H1 & H2 & _).
    eauto.
  - rewrite Provision_no_robots by assumption. exact Hm.
Qed.

Lemma Darkvisitors_Provision_AgentTypes m :
  match Robots m with
  | Some rt =>
      exists rt',
        Robots (Darkvisitors.st_module (Darkvisitors.Provision ReplaceAll m)) =
          Some rt' /\
        AgentTypes rt' = AgentTypes rt /\ text rt' = text rt /\
        Disallow rt' =
          (if String.eqb (Disallow rt) "" then "/" else Disallow rt)
  | None =>
      Robots (Darkvisitors.st_module (Darkvisitors.Provision ReplaceAll m)) =
        None
  end.
Proof.
  unfold Darkvisitors.Provision. cbn [set_AccessToken Robots].
  destruct (Robots m) as [rt |] eqn:Hm; [| exact Hm].
  eexists. split; [reflexivity |].
  destruct (String.eqb (Disallow rt) ""); repeat split.
Qed.

(** [Provision] does not change what [Validate] returns: the host
    validates after it has provisioned, and the labels checked are the
    labels that were configured, whatever the replacer and the remote
    side did.  This holds of both variants. *)
Theorem Provision_keeps_validation (m : Knownagents) :
  snd (Validate (p_module (Provision client_Do ReplaceAll m))) =
    snd (Validate m) /\
  snd (Darkvisitors.Validate
         (Darkvisitors.st_module (Darkvisitors.Provision ReplaceAll m))) =
    snd (Darkvisitors.Validate m).
Proof.
  unfold Validate, Darkvisitors.Validate. rewrite !validate_result.
  pose proof (Provision_AgentTypes m) as H1.
  pose proof (Darkvisitors_Provision_AgentTypes m) as H2.
  destruct (Robots m) as [rt |].
  - destruct H1 as (rt1 & -> & ->). destruct H2 as (rt2 & -> & -> & _).
    split; reflexivity.
  - rewrite H1, H2. split; reflexivity.
Qed.

(** A policy set by the wildcard passes the rest of the life cycle: the
    module the [agent_types *] line leaves is accepted by [Validate],
    before and after [Provision]. *)
Theorem wildcard_policy_validates
    (m : Knownagents) (d : Dispenser) (rt : RobotsTxt) :
  on_token d -> Val d = "agent_types" -> Robots m = Some rt ->
  line_args d = ["*"] ->
  exists m' d',
    robots_txt_subdirective m d = Ok tt m' d' /\
    snd (Validate m') = None /\
    snd (Validate (p_module (Provision client_Do ReplaceAll m'))) = None.
Proof.
  intros Hon Hval Hm Hargs.
  rewrite (robots_txt_subdirective_agent_types m d Hval).
  pose proof (case_agent_types_wildcard m d rt [] Hon Hm Hargs) as Hrun.
  cbv zeta in Hrun. rewrite Hrun.
  set (m' := set_Robots (Some (set_AgentTypes allAgentTypes rt)) m).
  assert (Hok : snd (Validate m') = None).
  { unfold Validate. rewrite validate_result. reflexivity. }
  exists m', (set_cursor (cursor d + 1) d).
  split; [reflexivity |]. split; [exact Hok |].
  pose proof (Provision_AgentTypes m') as Hp.
  cbn [m' set_Robots Robots] in Hp. destruct Hp as (rt' & Hrt' & Hats).
  unfold Validate. rewrite validate_result, Hrt', Hats. reflexivity.
Qed.

(** ** The robots.txt query *)

(** With a policy, [Provision] hands exactly one request to [client.Do]:
    a POST to the generation endpoint whose bearer token is the access
    token after substitution, and whose body carries the agent types as
    configured and a path that is never empty ([/] when none was
    configured).  Without a policy it sends nothing. *)
Theorem Provision_query (m : Knownagents) :
  match Robots m with
  | Some rt =>
      exists path,
        p_outbound (Provision client_Do ReplaceAll m) =
          [ {| o_method := "POST";
               o_url := "https://api.knownagents.com/robots-txts";
               o_header :=
                 <["Content-Type" := ["application/json"]]>
                   (<["Authorization" :=
                        ["Bearer " +:+ ReplaceAll (AccessToken m) ""]]> ∅);
               o_body := RobotsJSON (AgentTypes rt) path |} ] /\
        path <> "" /\
        (Disallow rt <> "" -> path = Disallow rt) /\
        (Disallow rt = "" -> path = "/")
  | None => p_outbound (Provision client_Do ReplaceAll m) = []
  end.
Proof.
  destruct (Robots m) as [rt |] eqn:Hm.
  - exists (if String.eqb (Disallow rt) "" then "/" else Disallow rt).
    split; [| split; [| split]].
    + unfold Provision, provision. cbn [set_AccessToken Robots AccessToken].
      rewrite Hm. unfold FetchRobotsTxt.
      destruct (String.eqb (Disallow rt) "");
        cbn [set_Robots set_Disallow AccessToken AgentTypes Disallow];
        destruct (client_Do _) as [resp | [err resp]];
        try destruct (Body resp); reflexivity.
    + destruct (String.eqb_spec (Disallow rt) ""); [discriminate | assumption].
    + intros Hne. destruct (String.eqb_spec (Disallow rt) "");
        [contradiction | reflexivity].
    + intros ->. reflexivity.
  - rewrite Provision_no_robots by assumption. reflexivity.
Qed.

(** What [Provision] makes of the answer.  When the remote side answers
    and the body can be read, [Provision] returns nil and the policy's
    cached text is the body, byte for byte, whatever the status code.
    When the request fails or the body cannot be read, [Provision]
    returns that error and the cached text is what it was; the token
    substitution and the default path have been applied all the same. *)
Theorem Provision_caches_body (m : Knownagents) (rt : RobotsTxt) :
  Robots m = Some rt ->
  exists req rt',
    p_outbound (Provision client_Do ReplaceAll m) = [req] /\
    Robots (p_module (Provision client_Do ReplaceAll m)) = Some rt' /\
    AccessToken (p_module (Provision client_Do ReplaceAll m)) =
      ReplaceAll (AccessToken m) "" /\
    Disallow rt' <> "" /\
    match client_Do req with
    | inl resp =>
        match Body resp with
        | inl body =>
            p_err (Provision client_Do ReplaceAll m) = None /\
            text rt' = body
        | inr err =>
            p_err (Provision client_Do ReplaceAll m) = Some err /\
            text rt' = text rt
        end
    | inr (err, _) =>
        p_err (Provision client_Do ReplaceAll m) = Some err /\
        text rt' = text rt
    end.
Proof.
  intros Hm. unfold Provision, provision.
  cbn [set_AccessToken Robots AccessToken]. rewrite Hm.
  unfold FetchRobotsTxt.
  set (rt1 := if String.eqb (Disallow rt) "" then set_Disallow "/" rt else rt).
  assert (Hpath : Disallow rt1 <> "").
  { unfold rt1. destruct (String.eqb_spec (Disallow rt) "");
      [discriminate | assumption]. }
  assert (Htext : text rt1 = text rt).
  { unfold rt1. destruct (String.eqb (Disallow rt) ""); reflexivity. }
  cbn [set_Robots set_AccessToken AccessToken].
  set (req := new_request RobotsTxtEndpoint (ReplaceAll (AccessToken m) "")
                (RobotsJSON (AgentTypes rt1) (Disallow rt1))).
  exists req.
  destruct (client_Do req) as [resp | [err resp]].
  - destruct (Body resp) as [body | err].
    + exists (set_text body rt1). repeat split; auto.
    + exists rt1. repeat split; auto.
  - exists rt1. repeat split; auto.
Qed.

End AfterProvision.

Lemma wildcard_policy_validates_witness :
  exists m' d',
    robots_txt_subdirective module_in_block (at_agent_types ["*"]) =
      Ok tt m' d' /\
    snd (Validate m') = None /\
    snd (Validate
           (p_module (Provision (answering "") replacer_without_env m'))) =
      None.
Proof.
  apply (wildcard_policy_validates (answering "") replacer_without_env
           module_in_block (at_agent_types ["*"]) new_RobotsTxt).
  - unfold on_token, len. simpl. lia.
  - reflexivity.
  - reflexivity.
  - reflexivity.
Defined.

(** The body of a refused query is not cached, and the error comes
    back. *)
Lemma Provision_caches_body_witness :
  exists req rt',
    p_outbound
      (Provision (refusing (errorString "connection refused"))
         replacer_without_env sample_module) = [req] /\
    Robots
      (p_module
         (Provision (refusing (errorString "connection refused"))
            replacer_without_env sample_module)) = Some rt' /\
    p_err
      (Provision (refusing (errorString "connection refused"))
         replacer_without_env sample_module) =
      Some (errorString "connection refused") /\
    text rt' = "User-agent: *".
Proof.
  destruct (Provision_caches_body
              (refusing (errorString "connection refused"))
              replacer_without_env sample_module _ eq_refl)
    as (req & rt' & Hout & Hm & _ & _ & Hres).
  exists req, rt'. unfold refusing in Hres at 1. destruct Hres as [He Ht].
  repeat split; assumption.
Defined.

(** ** The visit event *)

(** The visit event leaves out the [Cookie] header and nothing else:
    every other header of the request is sent on with its values,
    [Authorization] and [Set-Cookie] included, and so is a cookie header
    stored under a key that is not in canonical form.  The request
    itself keeps all its headers. *)
Theorem report_forwards_other_headers
    (client_Do : Transport) (endpoint : string) (m : Knownagents)
    (r : Request) :
  exists ev,
    map o_body (t_outbound (report client_Do endpoint m r)) = [VisitJSON ev] /\
    request_headers ev !! "Cookie" = None /\
    (forall key, key <> "Cookie" ->
       request_headers ev !! key = Header r !! key) /\
    request_headers ev !! "cookie" = Header r !! "cookie" /\
    request_headers ev !! "Authorization" = Header r !! "Authorization".
Proof.
  rewrite report_outbound. eexists. split; [reflexivity |].
  cbn [request_headers]. split; [apply lookup_delete_eq |].
  split; [| split].
  - intros key Hkey. apply lookup_delete_ne. congruence.
  - apply lookup_delete_ne. discriminate.
  - apply lookup_delete_ne. discriminate.
Qed.

(** Before it delegates, [ServeHTTP] changes nothing but its own
    variable: the next handler gets the request as it came and every
    other variable as it was, and a value stored earlier under the
    module's variable is overwritten.  This holds of both variants. *)
Theorem ServeHTTP_sets_only_its_variable
    (client_Do : Transport) (m : Knownagents) (next : Handler) (w : World) :
  exists w1 w2,
    (let out := ServeHTTP client_Do m next w in
     (s_err out, s_world out) = next w1) /\
    (let out := Darkvisitors.ServeHTTP client_Do m next w in
     (s_err out, s_world out) = next w2) /\
    w_request w1 = w_request w /\ w_request w2 = w_request w /\
    (forall key, key <> "ka_robots_txt" ->
       w_vars w1 !! key = w_vars w !! key) /\
    (forall key, key <> "dv_robots_txt" ->
       w_vars w2 !! key = w_vars w !! key) /\
    (forall rt, Robots m = Some rt ->
       w_vars w1 !! "ka_robots_txt" = Some (text rt) /\
       w_vars w2 !! "dv_robots_txt" = Some (text rt)).
Proof.
  exists (publish "ka_robots_txt" m w), (publish "dv_robots_txt" m w).
  split; [apply serveHTTP_delegates |]. split; [apply serveHTTP_delegates |].
  destruct (Robots m) as [rt |] eqn:Hm.
  - destruct (publish_configured "ka_robots_txt" m rt w Hm) as (A1 & A2 & A3).
    destruct (publish_configured "dv_robots_txt" m rt w Hm) as (B1 & B2 & B3).
    repeat split; auto; injection H as <-; assumption.
  - rewrite !publish_unconfigured by assumption.
    repeat split; auto; discriminate.
Qed.

(** ** The predecessor's provisioning *)

(** The predecessor's [Provision] never returns an error and sends
    nothing itself: with a policy it starts one goroutine for the fetch
    and returns at once, leaving the cached text as it was, so requests
    served before the goroutine has run are given that text.  The
    goroutine, when it runs, sends the one query; a body that can be
    read becomes the cached text, and a failure changes nothing and
    reaches nobody. *)
Theorem Darkvisitors_Provision_does_not_wait
    (ReplaceAll : string -> string -> string) (m : Knownagents) :
  let s := Darkvisitors.Provision ReplaceAll m in
  Darkvisitors.st_err s = None /\
  AccessToken (Darkvisitors.st_module s) = ReplaceAll (AccessToken m) "" /\
  match Robots m with
  | None =>
      Darkvisitors.st_spawned s = [] /\
      Robots (Darkvisitors.st_module s) = None
  | Some rt =>
      exists rt1 task,
        Robots (Darkvisitors.st_module s) = Some rt1 /\
        text rt1 = text rt /\
        Darkvisitors.st_spawned s = [task] /\
        forall client_Do : Transport,
          exists req,
            Darkvisitors.f_outbound (task client_Do) = [req] /\
            match client_Do req with
            | inl {| Body := inl body |} =>
                Robots (Darkvisitors.f_module (task client_Do)) =
                  Some (set_text body rt1)
            | _ =>
                Darkvisitors.f_module (task client_Do) =
                  Darkvisitors.st_module s
            end
  end.
Proof.
  unfold Darkvisitors.Provision. cbn [set_AccessToken Robots].
  destruct (Robots m) as [rt |] eqn:Hm; cbv zeta;
    cbn [Darkvisitors.st_err Darkvisitors.st_module
         Darkvisitors.st_spawned AccessToken set_Robots Robots].
  - split; [reflexivity |]. split; [reflexivity |].
    set (rt1 := if String.eqb (Disallow rt) "" then set_Disallow "/" rt else rt).
    exists rt1. eexists. split; [reflexivity |].
    split; [unfold rt1; destruct (String.eqb (Disallow rt) ""); reflexivity |].
    split; [reflexivity |].
    intros client_Do. unfold Darkvisitors.FetchRobotsTxt.
    cbn [set_Robots set_AccessToken AccessToken].
    set (req := new_request Darkvisitors.RobotsTxtEndpoint
                  (ReplaceAll (AccessToken m) "")
                  (RobotsJSON (AgentTypes rt1) (Disallow rt1))).
    exists req.
    destruct (client_Do req) as [[code [body | err]] | [err resp]];
      split; reflexivity.
  - repeat split. exact Hm.
Qed.

(** ** From provisioning to serving *)

(** When [Provision] of a module with a policy returns no error, the
    remote side answered its one query with a response whose body could
    be read, whatever the status code of that response, and every
    request served afterwards hands that body to the next handler under
    [ka_robots_txt], with the request as it came. *)
Theorem served_text_is_answered_body
    (remote visits : Transport) (ReplaceAll : string -> string -> string)
    (m : Knownagents) (rt : RobotsTxt) (next : Handler) (w : World) :
  Robots m = Some rt ->
  p_err (Provision remote ReplaceAll m) = None ->
  exists req code body w1,
    p_outbound (Provision remote ReplaceAll m) = [req] /\
    remote req = inl {| StatusCode := code; Body := inl body |} /\
    (let out :=
       ServeHTTP visits (p_module (Provision remote ReplaceAll m)) next w in
     (s_err out, s_world out) = next w1) /\
    w_vars w1 !! "ka_robots_txt" = Some body /\
    w_request w1 = w_request w.
Proof.
  intros Hm. unfold Provision, provision.
  cbn [set_AccessToken Robots AccessToken]. rewrite Hm.
  unfold FetchRobotsTxt.
  set (rt1 := if String.eqb (Disallow rt) "" then set_Disallow "/" rt else rt).
  cbn [set_Robots set_AccessToken AccessToken].
  set (req := new_request RobotsTxtEndpoint (ReplaceAll (AccessToken m) "")
                (RobotsJSON (AgentTypes rt1) (Disallow rt1))).
  destruct (remote req) as [[code [body | err]] | [err resp]] eqn:Hreq;
    cbn [Body p_err p_module p_outbound]; intros Herr;
    try discriminate Herr.
  set (m1 := {| AccessToken := ReplaceAll (AccessToken m) "";
                Robots := Some (set_text body rt1) |}).
  exists req, code, body, (publish "ka_robots_txt" m1 w).
  split; [reflexivity |]. split; [exact Hreq |].
  split; [apply serveHTTP_delegates |].
  destruct (publish_configured "ka_robots_txt" m1 (set_text body rt1) w
              eq_refl) as (Hvar & _ & Hrequest).
  split; assumption.
Qed.

(** The body of an error page is served as the policy. *)
Lemma served_text_is_answered_body_witness :
  exists req code body w1,
    p_outbound
      (Provision
         (fun _ => inl {| StatusCode := 500;
                          Body := inl "Internal Server Error" |})
         replacer_without_env sample_module) = [req] /\
    inl {| StatusCode := 500; Body := inl "Internal Server Error" |} =
      (inl {| StatusCode := code; Body := inl body |}
       : Response + error * option Response) /\
    (let out :=
       ServeHTTP (answering "")
         (p_module
            (Provision
               (fun _ => inl {| StatusCode := 500;
                                Body := inl "Internal Server Error" |})
               replacer_without_env sample_module))
         passing_handler sample_world in
     (s_err out, s_world out) = passing_handler w1) /\
    w_vars w1 !! "ka_robots_txt" = Some body /\
    w_request w1 = w_request sample_world.
Proof.
  apply (served_text_is_answered_body
           (fun _ => inl {| StatusCode := 500;
                            Body := inl "Internal Server Error" |})
           (answering "") replacer_without_env sample_module
           {| AgentTypes := [AIAssistant]; Disallow := "/";
              text := "User-agent: *" |}
           passing_handler sample_world);
    reflexivity.
Defined.

(** * Whole directives, line by line *)

(** ** Where the dispenser is *)

Lemma past_NewDispenser ts : past 0 (NewDispenser ts) ts.
Proof. split; [reflexivity |]. split; [simpl; lia | reflexivity]. Qed.

Lemma here_past n d t ts : here n d (t :: ts) -> past n d ts.
Proof.
  intros (Hn & Hc & Hd). split; [exact Hn |]. split; [lia |].
  apply drop_cons_inv in Hd. destruct Hd as (_ & Hd & _).
  replace (Z.to_nat (cursor d + 1)) with (S (Z.to_nat (cursor d))) by lia.
  exact Hd.
Qed.

Lemma past_here n d ts :
  past n d ts -> here n (set_cursor (cursor d + 1) d) ts.
Proof.
  intros (Hn & Hc & Hd). split; [exact Hn |].
  split; [simpl; lia | exact Hd].
Qed.

Lemma here_token n d t ts :
  here n d (t :: ts) -> token_at d (cursor d) = Some t.
Proof.
  intros (_ & Hc & Hd). apply (token_at_cursor d t ts Hc Hd).
Qed.

Lemma here_on_token n d t ts : here n d (t :: ts) -> on_token d.
Proof.
  intros (_ & Hc & Hd).
  destruct (token_at_cursor d t ts Hc Hd) as (_ & _ & Hlt).
  split; assumption.
Qed.

Lemma here_Val n d t ts : here n d (t :: ts) -> Val d = Text t.
Proof. intros H. apply Val_token. eapply here_token. exact H. Qed.

Lemma here_line_args n d t ts :
  here n d (t :: ts) -> line_args d = args_run t ts.
Proof. intros (_ & _ & Hd). unfold line_args. rewrite Hd. reflexivity. Qed.

Lemma past_token n d t ts :
  past n d (t :: ts) -> token_at d (cursor d + 1) = Some t.
Proof.
  intros H. apply past_here in H. apply here_token in H. exact H.
Qed.

(** Past a run of tokens. *)
Lemma past_skip n d ts1 ts2 :
  past n d (ts1 ++ ts2) ->
  past n (set_cursor (cursor d + Z.of_nat (length ts1)) d) ts2.
Proof.
  intros (Hn & Hc & Hd). split; [exact Hn |]. split; [simpl; lia |].
  cbn [cursor tokens set_cursor].
  replace (Z.to_nat (cursor d + Z.of_nat (length ts1) + 1))
    with (Z.to_nat (cursor d + 1) + length ts1)%nat by lia.
  rewrite <- drop_drop, Hd. apply drop_app_length.
Qed.

(** The current token ends its line. *)
Lemma nextOnSameLine_new_line n d t ts :
  here n d (t :: ts) -> new_line_after t ts -> nextOnSameLine d = (false, d).
Proof.
  intros H Hline. pose proof (here_token _ _ _ _ H) as Hcur.
  destruct ts as [| t' ts'].
  - destruct H as (_ & Hc & Hd). apply nextOnSameLine_last; [exact Hc |].
    apply (f_equal (@length Token)) in Hd. rewrite length_drop in Hd.
    simpl in Hd. unfold len. lia.
  - pose proof (past_token _ _ _ _ (here_past _ _ _ _ H)) as Hnext.
    rewrite (nextOnSameLine_step d t t' Hcur Hnext).
    simpl in Hline. rewrite Hline. reflexivity.
Qed.

Lemma here_last_line_args n d t ts :
  here n d (t :: ts) -> new_line_after t ts -> line_args d = [].
Proof.
  intros H Hline. rewrite (here_line_args _ _ _ _ H).
  destruct ts as [| t' ts']; [reflexivity |].
  simpl in *. rewrite Hline. reflexivity.
Qed.

(** ** The block loop, token by token *)

Section Loop.
Variable body : Parser unit.
Hypothesis body_safe : safe body.

(** A token that is not a brace starts the next iteration. *)
Lemma loop_inside n k m d t ts :
  past k d (t :: ts) -> n < k -> Text t <> "}" -> Text t <> "{" ->
  for_NextBlock (S (remaining d)) n body m d =
    resume n body (body m (set_cursor (cursor d + 1) d)).
Proof.
  intros H Hn Hclose Hopen. pose proof (past_token _ _ _ _ H) as Ht.
  destruct H as (Hk & Hc & _).
  rewrite for_NextBlock_unfold by exact body_safe.
  rewrite (NextBlock_inside d n t); [reflexivity | lia | exact Hc | exact Ht
                                    | exact Hclose | exact Hopen].
Qed.

(** A closing brace on a line of its own ends the loop of its block. *)
Lemma loop_closing n m d t ts :
  past (n + 1) d (t :: ts) -> Text t = "}" -> new_line_after t ts ->
  for_NextBlock (S (remaining d)) n body m d =
    Ok tt m (set_nesting n (set_cursor (cursor d + 1) d)).
Proof.
  intros H Hclose Hline. pose proof (past_token _ _ _ _ H) as Ht.
  pose proof (nextOnSameLine_new_line _ _ _ _ (past_here _ _ _ H) Hline)
    as Hsame.
  destruct H as (Hk & Hc & _).
  rewrite for_NextBlock_S.
  rewrite (NextBlock_closing d n t); [| lia | exact Hc | exact Ht
                                      | exact Hclose | exact Hsame].
  rewrite Hk. replace (n + 1 - 1) with n by lia.
  rewrite Z.ltb_irrefl. reflexivity.
Qed.

(** Entering a block is being in its loop on the opening brace. *)
Lemma block_enter k m d t0 t1 t2 ts :
  here k d (t0 :: t1 :: t2 :: ts) ->
  isNextOnNewLine t0 t1 = false -> Text t1 = "{" -> Text t2 <> "{" ->
  (Text t2 = "}" -> new_line_after t2 ts) ->
  let d1 := set_nesting (k + 1) (set_cursor (cursor d + 1) d) in
  block body m d = for_NextBlock (S (remaining d1)) k body m d1 /\
  past (k + 1) d1 (t2 :: ts).
Proof.
  intros H Hline Hopen Hnot Hclose d1.
  pose proof (here_token _ _ _ _ H) as H0.
  pose proof (here_past _ _ _ _ H) as Hp1.
  pose proof (past_token _ _ _ _ Hp1) as H1.
  pose proof (here_past _ _ _ _ (past_here _ _ _ Hp1)) as Hp2.
  assert (Hpast : past (k + 1) d1 (t2 :: ts)).
  { destruct Hp2 as (_ & Hc & Hd). split; [reflexivity |].
    split; [simpl in *; lia | exact Hd]. }
  split; [| exact Hpast].
  assert (H2 : token_at d (cursor d + 2) = Some t2).
  { pose proof (past_token _ _ _ _ Hp2) as Ht. cbn [cursor set_cursor] in Ht.
    replace (cursor d + 2) with (cursor d + 1 + 1) by lia. exact Ht. }
  destruct H as (Hk & Hc & _). unfold block, Nesting. rewrite Hk.
  destruct (String.eqb_spec (Text t2) "}") as [Hbrace | Hbrace].
  - rewrite (loop_closing k m d1 t2 ts Hpast Hbrace (Hclose Hbrace)).
    rewrite for_NextBlock_S. unfold NextBlock.
    destruct (Z.ltb_spec k (nesting d)); [lia |].
    rewrite (nextOnSameLine_step d t0 t1 H0 H1), Hline. cbn [negb].
    set (d' := set_cursor (cursor d + 1) d).
    rewrite (Val_token d' t1 H1), Hopen.
    cbn [String.eqb Ascii.eqb Bool.eqb negb].
    assert (H2' : token_at d' (cursor d' + 1) = Some t2).
    { unfold d'. cbn [cursor set_cursor].
      replace (cursor d + 1 + 1) with (cursor d + 2) by lia. exact H2. }
    rewrite (Next_step d' t2) by (unfold d'; simpl; try lia; exact H2').
    rewrite (Val_token (set_cursor (cursor d' + 1) d') t2 H2'), Hbrace.
    cbn [String.eqb Ascii.eqb Bool.eqb]. f_equal.
    unfold d1, d', set_nesting, set_cursor. simpl. f_equal; lia.
  - rewrite (loop_inside k (k + 1) m d1 t2 ts Hpast) by (try lia; assumption).
    rewrite for_NextBlock_unfold by exact body_safe.
    rewrite (NextBlock_opening d k t0 t1 t2) by (try lia; assumption).
    replace (set_nesting (nesting d + 1) (set_cursor (cursor d + 2) d))
      with (set_cursor (cursor d1 + 1) d1)
      by (unfold d1, set_nesting, set_cursor; simpl; f_equal; lia).
    reflexivity.
Qed.

End Loop.

(** ** Lines of words *)

Lemma lines_from_app ls1 : forall L ls2,
  lines_from L (ls1 ++ ls2) =
    lines_from L ls1 ++ lines_from (L + Z.of_nat (length ls1)) ls2.
Proof.
  induction ls1 as [| l ls1 IH]; intros L ls2.
  - replace (L + Z.of_nat (length (@nil (list string)))) with L
      by (cbn [length]; lia).
    reflexivity.
  - cbn [app lines_from]. rewrite IH, <- app_assoc.
    replace (L + 1 + Z.of_nat (length ls1))
      with (L + Z.of_nat (length (l :: ls1))) by (simpl length; lia).
    reflexivity.
Qed.

(** What follows a run of lines that are not empty starts with a word. *)
Lemma lines_head L ls y ts :
  Forall (fun l => l <> []) ls ->
  exists y' ts',
    lines_from L ls ++ word (L + Z.of_nat (length ls)) y :: ts =
      word L y' :: ts'.
Proof.
  intros Hall. destruct ls as [| [| w ws] ls'].
  - exists y, ts.
    replace (L + Z.of_nat (length (@nil (list string)))) with L
      by (cbn [length]; lia).
    reflexivity.
  - inversion Hall as [| ? ? Hne _]. contradiction.
  - eexists _, _. reflexivity.
Qed.

Lemma args_run_cons L x a ts :
  a <> "{" -> args_run (word L x) (word L a :: ts) = a :: args_run (word L a) ts.
Proof.
  intros Ha. cbn [args_run]. rewrite words_same_line. cbn [word Text].
  destruct (String.eqb_spec a "{"); [contradiction | reflexivity].
Qed.

Lemma last_plain args : forall x,
  Forall plain args -> count_newlines x = 0 ->
  count_newlines (List.last args x) = 0.
Proof.
  induction args as [| a args IH]; intros x Hall Hx; [exact Hx |].
  inversion Hall as [| ? ? [_ Ha] Hrest]; subst.
  destruct args as [| b args']; [exact Ha |].
  change (List.last (a :: b :: args') x) with (List.last (b :: args') x).
  apply IH; assumption.
Qed.

Lemma plain_not_brace args :
  Forall plain args -> Forall (fun a => a <> "{") args.
Proof.
  intros H. eapply List.Forall_impl; [| exact H]. intros a [Ha _]. exact Ha.
Qed.

(** The arguments of a line that is followed by a line. *)
Lemma args_run_plain L x args y ts :
  Forall plain args -> count_newlines x = 0 ->
  args_run (word L x) (map (word L) args ++ word (L + 1) y :: ts) = args.
Proof.
  intros Hall Hx. apply args_run_words.
  - apply plain_not_brace. exact Hall.
  - apply last_plain; assumption.
Qed.

Lemma set_Robots_same m rt : Robots m = Some rt -> set_Robots (Some rt) m = m.
Proof. destruct m. simpl. intros ->. reflexivity. Qed.

(** ** Lines of a [robots_txt] block *)

Lemma policy_line_words_head p :
  exists kw args,
    policy_line_words p = kw :: args /\ kw <> "}" /\ kw <> "{".
Proof.
  destruct p; eexists _, _; (split; [reflexivity |]); split; discriminate.
Qed.

(** The inner loop takes a line that is accepted and goes on with the
    policy the line leaves, past the line. *)
Lemma policy_line_skip p L m d rt y ts :
  accepted_line p -> Robots m = Some rt ->
  past 2 d (map (word L) (policy_line_words p) ++ word (L + 1) y :: ts) ->
  exists d',
    for_NextBlock (S (remaining d)) 1 robots_txt_subdirective m d =
      for_NextBlock (S (remaining d')) 1 robots_txt_subdirective
        (set_Robots (Some (policy_after rt p)) m) d' /\
    past 2 d' (word (L + 1) y :: ts).
Proof.
  intros Hacc Hm H.
  set (d1 := set_cursor (cursor d + 1) d).
  pose proof (past_here _ _ _ H) as Hhere. fold d1 in Hhere.
  destruct p as [[| a rest] | path]; [contradiction | |];
    cbn [policy_line_words map app] in H, Hhere;
    rewrite (loop_inside _ safe_robots_txt_subdirective 1 2 m d _ _ H)
      by (try lia; discriminate);
    fold d1;
    pose proof (here_on_token _ _ _ _ Hhere) as Hon;
    pose proof (here_line_args _ _ _ _ Hhere) as Hargs;
    pose proof (here_past _ _ _ _ Hhere) as Hpast.
  - rewrite (robots_txt_subdirective_agent_types m d1)
      by (rewrite (here_Val _ _ _ _ Hhere); reflexivity).
    cbn [accepted_line policy_after] in *.
    destruct (String.eqb_spec a "*") as [-> | Hstar].
    + subst rest. cbn [map app] in *.
      assert (Hstar : line_args d1 = ["*"]).
      { rewrite Hargs.
        apply (args_run_plain L "agent_types" ["*"] y ts);
          [repeat constructor; discriminate | reflexivity]. }
      pose proof (case_agent_types_wildcard m d1 rt [] Hon Hm Hstar) as Hrun.
      cbv zeta in Hrun. rewrite Hrun. cbn [resume].
      eexists. split; [reflexivity |].
      apply (here_past _ _ (word L "*")). apply past_here. exact Hpast.
    + change (word L a :: map (word L) rest ++ word (L + 1) y :: ts)
        with (map (word L) (a :: rest) ++ word (L + 1) y :: ts) in *.
      rewrite (args_run_plain L "agent_types" (a :: rest) y ts) in Hargs
        by (try reflexivity; exact Hacc).
      rewrite (case_agent_types_labels m d1 rt a rest Hon Hm Hargs Hstar).
      cbn [resume]. eexists. split; [reflexivity |].
      apply past_skip in Hpast. rewrite length_map in Hpast. exact Hpast.
  - rewrite (robots_txt_subdirective_disallow m d1)
      by (rewrite (here_Val _ _ _ _ Hhere); reflexivity).
    destruct Hacc as [Hbrace _].
    rewrite (args_run_cons L "disallow" path _ Hbrace) in Hargs.
    rewrite (case_disallow_run m d1 rt path _ Hon Hm Hargs).
    cbn [resume policy_after]. eexists. split; [reflexivity |].
    apply (here_past _ _ (word L path)). apply past_here. exact Hpast.
Qed.

Lemma policy_lines_not_empty ps :
  Forall (fun l : list string => l <> []) (map policy_line_words ps).
Proof.
  apply List.Forall_forall. intros l Hin. apply in_map_iff in Hin.
  destruct Hin as (p & <- & _). destruct p; discriminate.
Qed.

(** The same for a run of lines. *)
Lemma policy_lines_skip ps : forall L m d rt y ts,
  Forall accepted_line ps -> Robots m = Some rt ->
  past 2 d (lines_from L (map policy_line_words ps) ++
            word (L + Z.of_nat (length ps)) y :: ts) ->
  exists d',
    for_NextBlock (S (remaining d)) 1 robots_txt_subdirective m d =
      for_NextBlock (S (remaining d')) 1 robots_txt_subdirective
        (set_Robots (Some (fold_left policy_after ps rt)) m) d' /\
    past 2 d' (word (L + Z.of_nat (length ps)) y :: ts).
Proof.
  induction ps as [| p ps IH]; intros L m d rt y ts Hall Hm H.
  - exists d. cbn [fold_left]. rewrite (set_Robots_same m rt Hm).
    split; [reflexivity | exact H].
  - inversion Hall as [| ? ? Hp Hps]; subst.
    replace (L + Z.of_nat (length (p :: ps)))
      with (L + 1 + Z.of_nat (length ps)) in * by (simpl length; lia).
    cbn [map lines_from] in H. unfold line_of in H.
    rewrite <- app_assoc in H.
    destruct (lines_head (L + 1) (map policy_line_words ps) y ts
                (policy_lines_not_empty ps)) as (y' & ts' & E).
    rewrite length_map in E. rewrite E in H.
    destruct (policy_line_skip p L m d rt y' ts' Hp Hm H)
      as (d1 & Hrun1 & H1).
    rewrite <- E in H1.
    destruct (IH (L + 1) (set_Robots (Some (policy_after rt p)) m) d1
                (policy_after rt p) y ts Hps eq_refl H1)
      as (d2 & Hrun2 & H2).
    exists d2. split; [| exact H2].
    rewrite Hrun1, Hrun2. reflexivity.
Qed.

Lemma policy_lines_skip_to ps L L' m d rt y ts :
  L' = L + Z.of_nat (length ps) ->
  Forall accepted_line ps -> Robots m = Some rt ->
  past 2 d (lines_from L (map policy_line_words ps) ++ word L' y :: ts) ->
  exists d',
    for_NextBlock (S (remaining d)) 1 robots_txt_subdirective m d =
      for_NextBlock (S (remaining d')) 1 robots_txt_subdirective
        (set_Robots (Some (fold_left policy_after ps rt)) m) d' /\
    past 2 d' (word L' y :: ts).
Proof. intros ->. apply policy_lines_skip. Qed.

(** A further argument on the line of the wildcard ends the loop, and
    the parse, with an error. *)
Lemma wildcard_extra_fails L x m d rt ts :
  x <> "{" -> Robots m = Some rt ->
  past 2 d (word L "agent_types" :: word L "*" :: word L x :: ts) ->
  let d' := set_cursor (cursor d + 3) d in
  for_NextBlock (S (remaining d)) 1 robots_txt_subdirective m d =
    Failed (Err ("unexpected argument '" +:+ x +:+ "'") d')
      (set_Robots (Some (set_AgentTypes allAgentTypes rt)) m) d' /\
  here 2 d' (word L x :: ts).
Proof.
  intros Hx Hm H d'.
  set (d1 := set_cursor (cursor d + 1) d).
  pose proof (past_here _ _ _ H) as Hhere. fold d1 in Hhere.
  rewrite (loop_inside _ safe_robots_txt_subdirective 1 2 m d _ _ H)
    by (try lia; discriminate).
  fold d1.
  pose proof (here_on_token _ _ _ _ Hhere) as Hon.
  pose proof (here_line_args _ _ _ _ Hhere) as Hargs.
  rewrite (args_run_cons L "agent_types" "*") in Hargs by discriminate.
  rewrite (args_run_cons L "*" x _ Hx) in Hargs.
  rewrite (robots_txt_subdirective_agent_types m d1)
    by (rewrite (here_Val _ _ _ _ Hhere); reflexivity).
  pose proof (case_agent_types_wildcard m d1 rt _ Hon Hm Hargs) as Hrun.
  cbv zeta in Hrun. rewrite Hrun. cbn [resume].
  replace (set_cursor (cursor d1 + 2) d1) with d'
    by (unfold d', d1, set_cursor; simpl; f_equal; lia).
  split; [reflexivity |].
  pose proof (past_here _ _ _ (here_past _ _ _ _ Hhere)) as H2.
  pose proof (past_here _ _ _ (here_past _ _ _ _ H2)) as H3.
  replace d' with (set_cursor (cursor (set_cursor (cursor d1 + 1) d1) + 1)
                     (set_cursor (cursor d1 + 1) d1))
    by (unfold d', d1, set_cursor; simpl; f_equal; lia).
  exact H3.
Qed.

(** ** Lines of the directive's block *)

Lemma access_token_line_skip L v m d ts :
  v <> "{" -> past 1 d (word L "access_token" :: word L v :: ts) ->
  exists d',
    for_NextBlock (S (remaining d)) 0 subdirective m d =
      for_NextBlock (S (remaining d')) 0 subdirective (set_AccessToken v m) d' /\
    past 1 d' ts.
Proof.
  intros Hv H.
  set (d1 := set_cursor (cursor d + 1) d).
  pose proof (past_here _ _ _ H) as Hhere. fold d1 in Hhere.
  rewrite (loop_inside _ safe_subdirective 0 1 m d _ _ H)
    by (try lia; discriminate).
  fold d1.
  pose proof (here_on_token _ _ _ _ Hhere) as Hon.
  pose proof (here_line_args _ _ _ _ Hhere) as Hargs.
  rewrite (args_run_cons L "access_token" v _ Hv) in Hargs.
  rewrite (subdirective_access_token m d1)
    by (rewrite (here_Val _ _ _ _ Hhere); reflexivity).
  rewrite (case_access_token_run m d1 v _ Hon Hargs). cbn [resume].
  eexists. split; [reflexivity |].
  apply (here_past _ _ (word L v)). apply past_here.
  apply (here_past _ _ _ _ Hhere).
Qed.

Lemma access_token_lines_skip vs : forall L m d y ts,
  Forall (fun v => v <> "{") vs ->
  past 1 d (lines_from L (map access_token_line vs) ++
            word (L + Z.of_nat (length vs)) y :: ts) ->
  exists d',
    for_NextBlock (S (remaining d)) 0 subdirective m d =
      for_NextBlock (S (remaining d')) 0 subdirective
        (fold_left (fun m' v => set_AccessToken v m') vs m) d' /\
    past 1 d' (word (L + Z.of_nat (length vs)) y :: ts).
Proof.
  induction vs as [| v vs IH]; intros L m d y ts Hall H.
  - exists d. split; [reflexivity | exact H].
  - inversion Hall as [| ? ? Hv Hvs]; subst.
    replace (L + Z.of_nat (length (v :: vs)))
      with (L + 1 + Z.of_nat (length vs)) in * by (simpl length; lia).
    cbn [map lines_from access_token_line line_of app] in H.
    destruct (access_token_line_skip L v m d _ Hv H) as (d1 & Hrun1 & H1).
    destruct (IH (L + 1) (set_AccessToken v m) d1 y ts Hvs H1)
      as (d2 & Hrun2 & H2).
    exists d2. split; [| exact H2].
    rewrite Hrun1, Hrun2. reflexivity.
Qed.

(** Into a [robots_txt] block: the outer loop goes on with whatever the
    inner loop ends in. *)
Lemma robots_block_enter L m d t2 ts :
  Robots m = None ->
  past 1 d (word L "robots_txt" :: word L "{" :: t2 :: ts) ->
  Text t2 <> "{" -> (Text t2 = "}" -> new_line_after t2 ts) ->
  let d2 := set_nesting 2 (set_cursor (cursor d + 2) d) in
  for_NextBlock (S (remaining d)) 0 subdirective m d =
    resume 0 subdirective
      (for_NextBlock (S (remaining d2)) 1 robots_txt_subdirective
         (set_Robots (Some new_RobotsTxt) m) d2) /\
  past 2 d2 (t2 :: ts).
Proof.
  intros Hm H Hopen Hclose d2.
  set (d1 := set_cursor (cursor d + 1) d).
  pose proof (past_here _ _ _ H) as Hhere. fold d1 in Hhere.
  rewrite (loop_inside _ safe_subdirective 0 1 m d _ _ H)
    by (try lia; discriminate).
  fold d1.
  rewrite (subdirective_robots_txt m d1)
    by (rewrite (here_Val _ _ _ _ Hhere); reflexivity).
  unfold case_robots_txt. unfold bind at 1, get_module. rewrite Hm.
  unfold bind at 1, update_module.
  destruct (block_enter _ safe_robots_txt_subdirective 1
              (set_Robots (Some new_RobotsTxt) m) d1 _ _ _ _ Hhere
              (words_same_line L _ _) eq_refl Hopen Hclose)
    as [Hrun Hpast].
  replace (set_nesting (1 + 1) (set_cursor (cursor d1 + 1) d1)) with d2
    in Hrun, Hpast
    by (unfold d2, d1, set_nesting, set_cursor; simpl; f_equal; lia).
  rewrite Hrun. split; [| exact Hpast].
  destruct (for_NextBlock _ _ _ _ d2) as [[] m' d' | |]; reflexivity.
Qed.

(** What a block of accepted lines starts with. *)
Lemma policy_block_head ps L Lc y ts :
  exists t2 ts',
    lines_from L (map policy_line_words ps) ++
      word Lc "}" :: word (Lc + 1) y :: ts = t2 :: ts' /\
    Text t2 <> "{" /\ (Text t2 = "}" -> new_line_after t2 ts').
Proof.
  destruct ps as [| p ps].
  - eexists _, _. cbn [map lines_from app].
    split; [reflexivity |]. split; [discriminate |]. intros _.
    apply words_next_line. reflexivity.
  - destruct (policy_line_words_head p) as (kw & args & E & Hclose & Hopen).
    eexists _, _. cbn [map lines_from line_of]. rewrite E.
    cbn [map app]. split; [reflexivity |].
    split; [exact Hopen | intros H; contradiction].
Qed.

(** A [robots_txt] block of accepted lines, closed on a line of its
    own: the outer loop goes on past it with the policy its lines make. *)
Lemma robots_block_skip ps L Lc m d y ts :
  Lc = L + 1 + Z.of_nat (length ps) ->
  Forall accepted_line ps -> Robots m = None ->
  past 1 d (word L "robots_txt" :: word L "{" ::
            lines_from (L + 1) (map policy_line_words ps) ++
            word Lc "}" :: word (Lc + 1) y :: ts) ->
  exists d',
    for_NextBlock (S (remaining d)) 0 subdirective m d =
      for_NextBlock (S (remaining d')) 0 subdirective
        (set_Robots (Some (fold_left policy_after ps new_RobotsTxt)) m) d' /\
    past 1 d' (word (Lc + 1) y :: ts).
Proof.
  intros HLc Hall Hm H.
  destruct (policy_block_head ps (L + 1) Lc y ts)
    as (t2 & ts' & E & Hopen & Hclose).
  rewrite E in H.
  destruct (robots_block_enter L m d t2 ts' Hm H Hopen Hclose)
    as [Hrun H2].
  rewrite Hrun. rewrite <- E in H2.
  destruct (policy_lines_skip_to ps (L + 1) Lc
              (set_Robots (Some new_RobotsTxt) m) _ new_RobotsTxt "}" _
              ltac:(lia) Hall eq_refl H2) as (d3 & Hrun3 & H3).
  rewrite Hrun3.
  assert (Hline : new_line_after (word Lc "}") (word (Lc + 1) y :: ts))
    by (apply words_next_line; reflexivity).
  rewrite (loop_closing robots_txt_subdirective 1 _ d3 _ _ H3 eq_refl Hline).
  cbn [resume set_Robots Robots AccessToken].
  eexists. split; [reflexivity |].
  apply (here_past _ _ (word Lc "}")).
  destruct (past_here _ _ _ H3) as (_ & Hc & Hd).
  split; [reflexivity |]. split; assumption.
Qed.

(** A second [robots_txt] ends the loop, and the parse, with an error. *)
Lemma second_robots_txt_fails L m d ts :
  Robots m <> None -> past 1 d (word L "robots_txt" :: ts) ->
  let d' := set_cursor (cursor d + 1) d in
  for_NextBlock (S (remaining d)) 0 subdirective m d =
    Failed (Err "robots_txt is already configured" d') m d' /\
  here 1 d' (word L "robots_txt" :: ts).
Proof.
  intros Hm H d'. pose proof (past_here _ _ _ H) as Hhere. fold d' in Hhere.
  split; [| exact Hhere].
  rewrite (loop_inside _ safe_subdirective 0 1 m d _ _ H)
    by (try lia; discriminate).
  fold d'.
  rewrite (subdirective_robots_txt m d')
    by (rewrite (here_Val _ _ _ _ Hhere); reflexivity).
  unfold case_robots_txt. unfold bind at 1, get_module.
  destruct (Robots m); [reflexivity | contradiction].
Qed.

Lemma access_token_lines_skip_to vs L L' m d y ts :
  L' = L + Z.of_nat (length vs) ->
  Forall (fun v => v <> "{") vs ->
  past 1 d (lines_from L (map access_token_line vs) ++ word L' y :: ts) ->
  exists d',
    for_NextBlock (S (remaining d)) 0 subdirective m d =
      for_NextBlock (S (remaining d')) 0 subdirective
        (fold_left (fun m' v => set_AccessToken v m') vs m) d' /\
    past 1 d' (word L' y :: ts).
Proof. intros ->. apply access_token_lines_skip. Qed.

(** ** The directive, from its name to its checks *)

(** [UnmarshalCaddyfile] is the name and the block loop, then the
    checks when the loop has ended without an error. *)
Lemma UnmarshalCaddyfile_run m d :
  UnmarshalCaddyfile m d =
    match bind (disp Next) (fun _ => block subdirective) m d with
    | Ok _ m1 d1 => after_block m1 d1
    | Failed e m1 d1 => Failed e m1 d1
    | Stalled => Stalled
    end.
Proof.
  unfold UnmarshalCaddyfile, bind.
  destruct (disp Next m d) as [b m0 d0 | |]; reflexivity.
Qed.

(** The name, the opening brace on its line, and into the block. *)
Lemma directive_enter m name t2 ts :
  Text t2 <> "{" -> (Text t2 = "}" -> new_line_after t2 ts) ->
  let toks := word 1 name :: word 1 "{" :: t2 :: ts in
  let d1 := mkDispenser toks 1 1 in
  bind (disp Next) (fun _ => block subdirective) m (NewDispenser toks) =
    for_NextBlock (S (remaining d1)) 0 subdirective m d1 /\
  past 1 d1 (t2 :: ts).
Proof.
  intros Hopen Hclose toks d1.
  set (d0 := mkDispenser toks 0 0).
  assert (Hhere : here 0 d0 toks).
  { split; [reflexivity |]. split; [simpl; lia | reflexivity]. }
  destruct (block_enter _ safe_subdirective 0 m d0 _ _ _ _ Hhere
              (words_same_line 1 _ _) eq_refl Hopen Hclose) as [Hrun Hpast].
  split; [| exact Hpast].
  unfold bind, disp.
  rewrite (Next_step (NewDispenser toks) (word 1 name));
    [| simpl; lia | reflexivity].
  exact Hrun.
Qed.

(** The closing brace of the directive, as the last token: the loop
    ends, and the checks that follow find no argument. *)
Lemma directive_end L m d :
  past 1 d [word L "}"] ->
  let d' := set_nesting 0 (set_cursor (cursor d + 1) d) in
  for_NextBlock (S (remaining d)) 0 subdirective m d = Ok tt m d' /\
  after_block m d' =
    (if String.eqb (AccessToken m) ""
     then Failed (Err "missing access token" d') m d'
     else
       match Robots m with
       | Some rt =>
           if (length (AgentTypes rt) =? 0)%nat
           then Failed (Err "missing agent type filters" d') m d'
           else Ok tt m d'
       | None => Ok tt m d'
       end).
Proof.
  intros H d'. split.
  - apply (loop_closing subdirective 0 m d (word L "}") []);
      [exact H | reflexivity | exact Logic.I].
  - assert (Hhere : here 0 d' [word L "}"]).
    { destruct (past_here _ _ _ H) as (_ & Hc & Hd).
      split; [reflexivity |]. split; assumption. }
    rewrite after_block_run.
    rewrite (NextArg_line_args_nil d' (here_on_token _ _ _ _ Hhere)
               (here_last_line_args _ _ _ _ Hhere Logic.I)).
    reflexivity.
Qed.

Lemma here_Line n d t ts : here n d (t :: ts) -> Dispenser_Line d = Line t.
Proof.
  intros H. unfold Dispenser_Line. rewrite (here_token _ _ _ _ H).
  reflexivity.
Qed.

(** [access_token] lines leave the value of the last of them, and the
    policy as it was. *)
Lemma fold_set_AccessToken vs : forall m,
  AccessToken (fold_left (fun m' v => set_AccessToken v m') vs m) =
    List.last vs (AccessToken m) /\
  Robots (fold_left (fun m' v => set_AccessToken v m') vs m) = Robots m.
Proof.
  induction vs as [| v vs IH]; intros m; [split; reflexivity |].
  cbn [fold_left]. destruct (IH (set_AccessToken v m)) as [Ht Hr].
  rewrite Ht, Hr. split; [| reflexivity].
  destruct vs as [| v' vs']; [reflexivity |].
  cbn [set_AccessToken AccessToken].
  change (List.last (v :: v' :: vs') (AccessToken m))
    with (List.last (v' :: vs') (AccessToken m)).
  apply last_cons_default.
Qed.

(** What a run of lines followed by a word starts with. *)
Lemma access_lines_head vs L L' y ts :
  L' = L + Z.of_nat (length vs) ->
  exists y' ts',
    lines_from L (map access_token_line vs) ++ word L' y :: ts =
      word L y' :: ts' /\
    (y' = y \/ y' = "access_token").
Proof.
  intros ->. destruct vs as [| v vs].
  - eexists _, _.
    replace (L + Z.of_nat (length (@nil string))) with L
      by (cbn [length]; lia).
    split; [reflexivity | left; reflexivity].
  - eexists _, _. split; [reflexivity | right; reflexivity].
Qed.

Lemma policy_lines_head ps L L' y ts :
  L' = L + Z.of_nat (length ps) -> y <> "{" -> y <> "}" ->
  exists t2 ts',
    lines_from L (map policy_line_words ps) ++ word L' y :: ts = t2 :: ts' /\
    Text t2 <> "{" /\ Text t2 <> "}".
Proof.
  intros -> Hopen Hclose. destruct ps as [| p ps].
  - eexists _, _. split; [reflexivity |]. split; assumption.
  - destruct (policy_line_words_head p) as (kw & args & E & Hc & Ho).
    eexists _, _. cbn [map lines_from line_of]. rewrite E.
    cbn [map app]. split; [reflexivity |]. split; assumption.
Qed.

(** The tokens of a directive with [access_token] lines before and
    after its [robots_txt] block. *)
Lemma directive_tokens vs1 ps vs2 tail :
  let n1 := Z.of_nat (length vs1) in
  let n2 := Z.of_nat (length ps) in
  let n3 := Z.of_nat (length vs2) in
  lines_from 1
    ([["knownagents"; "{"]] ++ map access_token_line vs1 ++
     [["robots_txt"; "{"]] ++ map policy_line_words ps ++ [["}"]] ++
     map access_token_line vs2 ++ tail) =
  word 1 "knownagents" :: word 1 "{" ::
  lines_from 2 (map access_token_line vs1) ++
  word (2 + n1) "robots_txt" :: word (2 + n1) "{" ::
  lines_from (2 + n1 + 1) (map policy_line_words ps) ++
  word (3 + n1 + n2) "}" ::
  lines_from (3 + n1 + n2 + 1) (map access_token_line vs2) ++
  lines_from (4 + n1 + n2 + n3) tail.
Proof.
  intros n1 n2 n3.
  change (lines_from 1 ([["knownagents"; "{"]] ++ ?r))
    with (word 1 "knownagents" :: word 1 "{" :: lines_from 2 r).
  rewrite lines_from_app, length_map. fold n1.
  change (lines_from (2 + n1) ([["robots_txt"; "{"]] ++ ?r))
    with (word (2 + n1) "robots_txt" :: word (2 + n1) "{" ::
          lines_from (2 + n1 + 1) r).
  rewrite lines_from_app, length_map. fold n2.
  change (lines_from (2 + n1 + 1 + n2) ([["}"]] ++ ?r))
    with (word (2 + n1 + 1 + n2) "}" :: lines_from (2 + n1 + 1 + n2 + 1) r).
  rewrite lines_from_app, length_map. fold n3.
  replace (2 + n1 + 1 + n2) with (3 + n1 + n2) by lia.
  replace (3 + n1 + n2 + 1 + n3) with (4 + n1 + n2 + n3) by lia.
  reflexivity.
Qed.

(** Through the lines of such a directive: the outer loop goes on past
    them with the module they make. *)
Lemma directive_prefix_run m vs1 ps vs2 y ts :
  Robots m = None ->
  Forall (fun v => v <> "{") vs1 -> Forall accepted_line ps ->
  Forall (fun v => v <> "{") vs2 ->
  let n1 := Z.of_nat (length vs1) in
  let n2 := Z.of_nat (length ps) in
  let n3 := Z.of_nat (length vs2) in
  let toks :=
    word 1 "knownagents" :: word 1 "{" ::
    lines_from 2 (map access_token_line vs1) ++
    word (2 + n1) "robots_txt" :: word (2 + n1) "{" ::
    lines_from (2 + n1 + 1) (map policy_line_words ps) ++
    word (3 + n1 + n2) "}" ::
    lines_from (3 + n1 + n2 + 1) (map access_token_line vs2) ++
    word (4 + n1 + n2 + n3) y :: ts in
  exists d',
    bind (disp Next) (fun _ => block subdirective) m (NewDispenser toks) =
      for_NextBlock (S (remaining d')) 0 subdirective
        (fold_left (fun m' v => set_AccessToken v m') vs2
           (set_Robots (Some (fold_left policy_after ps new_RobotsTxt))
              (fold_left (fun m' v => set_AccessToken v m') vs1 m))) d' /\
    past 1 d' (word (4 + n1 + n2 + n3) y :: ts).
Proof.
  intros Hm H1 Hps H2 n1 n2 n3 toks.
  set (after_block_tokens :=
         lines_from (3 + n1 + n2 + 1) (map access_token_line vs2) ++
         word (4 + n1 + n2 + n3) y :: ts) in *.
  set (block_tokens :=
         word (2 + n1) "{" ::
         lines_from (2 + n1 + 1) (map policy_line_words ps) ++
         word (3 + n1 + n2) "}" :: after_block_tokens) in *.
  destruct (access_lines_head vs1 2 (2 + n1) "robots_txt" block_tokens
              eq_refl) as (y1 & ts1 & E1 & Hy1).
  assert (Hbrace : Text (word 2 y1) <> "{" /\ Text (word 2 y1) <> "}")
    by (destruct Hy1 as [-> | ->]; split; discriminate).
  destruct Hbrace as [Hopen Hclose].
  destruct (directive_enter m "knownagents" (word 2 y1) ts1 Hopen
              ltac:(intros; contradiction)) as [Hrun0 Hp0].
  cbv zeta in Hrun0, Hp0. rewrite <- E1 in Hrun0, Hp0.
  unfold toks. rewrite Hrun0.
  destruct (access_token_lines_skip_to vs1 2 (2 + n1) m _ _ _ eq_refl H1 Hp0)
    as (d1 & Hrun1 & Hp1).
  rewrite Hrun1. clear Hrun0 Hrun1 Hp0.
  set (m1 := fold_left (fun m' v => set_AccessToken v m') vs1 m) in *.
  assert (Hm1 : Robots m1 = None)
    by (unfold m1; rewrite (proj2 (fold_set_AccessToken vs1 m)); exact Hm).
  destruct (access_lines_head vs2 (3 + n1 + n2 + 1) (4 + n1 + n2 + n3) y ts
              ltac:(unfold n3; lia)) as (y2 & ts2 & E2 & _).
  unfold block_tokens in Hp1. fold after_block_tokens in E2.
  rewrite E2 in Hp1.
  destruct (robots_block_skip ps (2 + n1) (3 + n1 + n2) m1 d1 y2 ts2
              ltac:(unfold n2; lia) Hps Hm1 Hp1) as (d2 & Hrun2 & Hp2).
  rewrite Hrun2. rewrite <- E2 in Hp2. unfold after_block_tokens in Hp2.
  destruct (access_token_lines_skip_to vs2 (3 + n1 + n2 + 1)
              (4 + n1 + n2 + n3)
              (set_Robots (Some (fold_left policy_after ps new_RobotsTxt)) m1)
              d2 y ts ltac:(unfold n3; lia) H2 Hp2) as (d3 & Hrun3 & Hp3).
  exists d3. split; [exact Hrun3 | exact Hp3].
Qed.

Lemma last_cons {A} (l : list A) : forall a x,
  List.last (a :: l) x = List.last l a.
Proof.
  induction l as [| b l IH]; intros a x; [reflexivity |].
  change (List.last (a :: b :: l) x) with (List.last (b :: l) x).
  rewrite (IH b x), (IH b a). reflexivity.
Qed.

Lemma fold_set_AccessToken_eq vs m :
  fold_left (fun m' v => set_AccessToken v m') vs m =
    set_AccessToken (List.last vs (AccessToken m)) m.
Proof.
  destruct (fold_set_AccessToken vs m) as [Htok Hrob].
  destruct (fold_left _ vs m) as [tok1 rob1]. destruct m as [tok0 rob0].
  cbn in *. subst. reflexivity.
Qed.

Lemma last_app_default {A} (l1 l2 : list A) x y :
  l1 ++ l2 <> [] ->
  List.last l2 (List.last l1 x) = List.last (l1 ++ l2) y.
Proof.
  revert x. induction l1 as [| a l1 IH]; intros x Hne.
  - simpl in *. destruct l2 as [| b l2]; [contradiction |].
    apply last_cons_default.
  - destruct l1 as [| a' l1'].
    + simpl. destruct l2 as [| b l2]; [reflexivity |].
      rewrite (last_cons_default l2 b a y). reflexivity.
    + change (List.last (a :: a' :: l1') x) with (List.last (a' :: l1') x).
      change (List.last ((a :: a' :: l1') ++ l2) y)
        with (List.last ((a' :: l1') ++ l2) y).
      apply IH. discriminate.
Qed.

(** A directive of accepted lines, closed: what is left are the checks
    on the module its lines make. *)
Lemma directive_run m vs1 ps vs2 :
  Robots m = None ->
  Forall (fun v => v <> "{") vs1 -> Forall accepted_line ps ->
  Forall (fun v => v <> "{") vs2 ->
  let rt := fold_left policy_after ps new_RobotsTxt in
  let m' :=
    fold_left (fun m' v => set_AccessToken v m') vs2
      (set_Robots (Some rt)
         (fold_left (fun m' v => set_AccessToken v m') vs1 m)) in
  exists d',
    UnmarshalCaddyfile m
      (dispenser_of
         ([["knownagents"; "{"]] ++ map access_token_line vs1 ++
          [["robots_txt"; "{"]] ++ map policy_line_words ps ++ [["}"]] ++
          map access_token_line vs2 ++ [["}"]])) =
    (if String.eqb (AccessToken m') ""
     then Failed (Err "missing access token" d') m' d'
     else if (length (AgentTypes rt) =? 0)%nat
          then Failed (Err "missing agent type filters" d') m' d'
          else Ok tt m' d') /\
    Robots m' = Some rt.
Proof.
  intros Hm H1 Hps H2 rt m'.
  unfold dispenser_of. rewrite directive_tokens. cbv zeta.
  cbn [lines_from line_of map app].
  destruct (directive_prefix_run m vs1 ps vs2 "}" [] Hm H1 Hps H2)
    as (d1 & Hrun & Hp).
  cbv zeta in Hrun, Hp. fold rt in Hrun. fold m' in Hrun.
  rewrite UnmarshalCaddyfile_run, Hrun.
  destruct (directive_end _ m' d1 Hp) as [Hend Hchecks].
  cbv zeta in Hend, Hchecks.
  assert (Hm' : Robots m' = Some rt)
    by (unfold m'; rewrite (proj2 (fold_set_AccessToken vs2 _)); reflexivity).
  eexists. split; [| exact Hm'].
  rewrite Hend, Hchecks, Hm'. reflexivity.
Qed.

(** [disallow] lines and [agent_types *] lines keep the catalog. *)
Lemma fold_catalog_kept after : forall rt,
  Forall (fun p => p = AgentTypesLine ["*"] \/
                   exists path, p = DisallowLine path) after ->
  AgentTypes rt = allAgentTypes ->
  AgentTypes (fold_left policy_after after rt) = allAgentTypes.
Proof.
  induction after as [| p after IH]; intros rt Hkind Hrt; [exact Hrt |].
  inversion Hkind as [| ? ? Hp Hkind']; subst.
  cbn [fold_left]. apply IH; [exact Hkind' |].
  destruct Hp as [-> | [path ->]]; [reflexivity | exact Hrt].
Qed.

(** The directive with one [access_token] line and a [robots_txt] block
    of accepted lines. *)
Lemma policy_directive_run m tok ps :
  Robots m = None -> tok <> "" -> tok <> "{" -> Forall accepted_line ps ->
  AgentTypes (fold_left policy_after ps new_RobotsTxt) <> [] ->
  exists d',
    UnmarshalCaddyfile m
      (dispenser_of
         ([["knownagents"; "{"]; ["access_token"; tok]; ["robots_txt"; "{"]] ++
          map policy_line_words ps ++ [["}"]; ["}"]])) =
    Ok tt {| AccessToken := tok;
             Robots := Some (fold_left policy_after ps new_RobotsTxt) |} d'.
Proof.
  intros Hm Hne Hbrace Hps Hats.
  destruct (directive_run m [tok] ps [] Hm ltac:(repeat constructor; exact Hbrace)
              Hps ltac:(constructor)) as (d' & Hrun & _).
  cbv zeta in Hrun. cbn [fold_left set_AccessToken set_Robots AccessToken] in Hrun.
  exists d'.
  change ([["knownagents"; "{"]; ["access_token"; tok]; ["robots_txt"; "{"]] ++
          map policy_line_words ps ++ [["}"]; ["}"]])
    with ([["knownagents"; "{"]] ++ map access_token_line [tok] ++
          [["robots_txt"; "{"]] ++ map policy_line_words ps ++ [["}"]] ++
          map access_token_line [] ++ [["}"]]).
  rewrite Hrun.
  destruct (String.eqb_spec tok ""); [contradiction |].
  destruct (fold_left policy_after ps new_RobotsTxt) as [ats path txt] eqn:E.
  cbn [AgentTypes] in *. destruct ats; [contradiction | reflexivity].
Qed.

(** The tokens of a directive whose [robots_txt] block is open. *)
Lemma open_block_tokens tok before tail :
  lines_from 1
    ([["knownagents"; "{"]; ["access_token"; tok]; ["robots_txt"; "{"]] ++
     map policy_line_words before ++ tail) =
  word 1 "knownagents" :: word 1 "{" ::
  word 2 "access_token" :: word 2 tok ::
  word 3 "robots_txt" :: word 3 "{" ::
  lines_from 4 (map policy_line_words before) ++
  lines_from (4 + Z.of_nat (length before)) tail.
Proof.
  change (lines_from 1
            ([["knownagents"; "{"]; ["access_token"; tok];
              ["robots_txt"; "{"]] ++ ?r))
    with (word 1 "knownagents" :: word 1 "{" ::
          word 2 "access_token" :: word 2 tok ::
          word 3 "robots_txt" :: word 3 "{" :: lines_from 4 r).
  rewrite lines_from_app, length_map. reflexivity.
Qed.

(** Into the [robots_txt] block of such a directive, past the lines
    [before]. *)
Lemma open_block_run m tok before y ts :
  Robots m = None -> tok <> "{" -> Forall accepted_line before ->
  y <> "{" -> y <> "}" ->
  let L := 4 + Z.of_nat (length before) in
  let toks :=
    word 1 "knownagents" :: word 1 "{" ::
    word 2 "access_token" :: word 2 tok ::
    word 3 "robots_txt" :: word 3 "{" ::
    lines_from 4 (map policy_line_words before) ++ word L y :: ts in
  let m1 :=
    set_Robots (Some (fold_left policy_after before new_RobotsTxt))
      (set_AccessToken tok m) in
  exists d',
    bind (disp Next) (fun _ => block subdirective) m (NewDispenser toks) =
      resume 0 subdirective
        (for_NextBlock (S (remaining d')) 1 robots_txt_subdirective m1 d') /\
    past 2 d' (word L y :: ts).
Proof.
  intros Hm Htok Hall Hopen Hclose L toks m1.
  destruct (directive_enter m "knownagents" (word 2 "access_token")
              (word 2 tok :: word 3 "robots_txt" :: word 3 "{" ::
               lines_from 4 (map policy_line_words before) ++ word L y :: ts)
              ltac:(discriminate) ltac:(discriminate)) as [Hrun0 Hp0].
  cbv zeta in Hrun0, Hp0. unfold toks. rewrite Hrun0.
  destruct (access_token_line_skip 2 tok m _ _ Htok Hp0)
    as (d1 & Hrun1 & Hp1).
  rewrite Hrun1.
  destruct (policy_lines_head before 4 L y ts eq_refl Hopen Hclose)
    as (t2 & ts' & E & Ho & Hc).
  rewrite E in Hp1.
  destruct (robots_block_enter 3 (set_AccessToken tok m) d1 t2 ts' Hm Hp1 Ho
              ltac:(intros; contradiction)) as [Hrun2 Hp2].
  cbv zeta in Hrun2, Hp2. rewrite Hrun2. rewrite <- E in Hp2.
  destruct (policy_lines_skip_to before 4 L
              (set_Robots (Some new_RobotsTxt) (set_AccessToken tok m))
              _ new_RobotsTxt y ts eq_refl Hall eq_refl Hp2)
    as (d3 & Hrun3 & Hp3).
  rewrite Hrun3. exists d3. split; [reflexivity | exact Hp3].
Qed.

(** An argument after the wildcard, in such a directive. *)
Lemma wildcard_extra_directive m tok before x xs more :
  Robots m = None -> tok <> "{" -> Forall accepted_line before -> x <> "{" ->
  exists m' d',
    UnmarshalCaddyfile m
      (dispenser_of
         ([["knownagents"; "{"]; ["access_token"; tok]; ["robots_txt"; "{"]] ++
          map policy_line_words before ++
          ("agent_types" :: "*" :: x :: xs) :: more)) =
    Failed
      (wrapAt (errorString ("unexpected argument '" +:+ x +:+ "'")) "Testfile"
         (4 + Z.of_nat (length before))) m' d'.
Proof.
  intros Hm Htok Hall Hx.
  unfold dispenser_of. rewrite open_block_tokens.
  cbn [lines_from line_of map app].
  destruct (open_block_run m tok before "agent_types"
              (word (4 + Z.of_nat (length before)) "*" ::
               word (4 + Z.of_nat (length before)) x ::
               map (word (4 + Z.of_nat (length before))) xs ++
               lines_from (4 + Z.of_nat (length before) + 1) more)
              Hm Htok Hall ltac:(discriminate) ltac:(discriminate))
    as (d1 & Hrun & Hp).
  cbv zeta in Hrun, Hp. rewrite UnmarshalCaddyfile_run, Hrun.
  destruct (wildcard_extra_fails _ x
              (set_Robots (Some (fold_left policy_after before new_RobotsTxt))
                 (set_AccessToken tok m)) d1
              (fold_left policy_after before new_RobotsTxt) _ Hx eq_refl Hp)
    as [Hfail Hhere].
  cbv zeta in Hfail, Hhere. rewrite Hfail. cbn [resume].
  eexists _, _. f_equal. unfold Err, WrapErr, Dispenser_File.
  rewrite (here_Line _ _ _ _ Hhere), (here_token _ _ _ _ Hhere).
  reflexivity.
Qed.

Lemma policy_lines_around before line after :
  map policy_line_words before ++ [policy_line_words line] ++
  map policy_line_words after ++ [["}"]; ["}"]] =
  map policy_line_words (before ++ [line] ++ after) ++ [["}"]; ["}"]].
Proof. rewrite !map_app, <- !app_assoc. reflexivity. Qed.

Lemma accepted_around before line after :
  Forall accepted_line before -> accepted_line line ->
  Forall accepted_line after ->
  Forall accepted_line (before ++ [line] ++ after).
Proof.
  intros Hb Hl Ha. apply Forall_app. split; [exact Hb |].
  apply Forall_app. split; [repeat constructor; exact Hl | exact Ha].
Qed.

(** Lines that are accepted and are not the wildcard line keep the
    labels the policy holds, and add theirs. *)
Lemma fold_labels_kept after : forall rt,
  Forall accepted_line after ->
  Forall (fun p => p <> AgentTypesLine ["*"]) after ->
  exists later,
    AgentTypes (fold_left policy_after after rt) = AgentTypes rt ++ later.
Proof.
  induction after as [| p after IH]; intros rt Hacc Hnot.
  - exists []. cbn [fold_left]. rewrite app_nil_r. reflexivity.
  - inversion Hacc as [| ? ? Hp Hacc']; subst.
    inversion Hnot as [| ? ? Hw Hnot']; subst.
    destruct (IH (policy_after rt p) Hacc' Hnot') as (later & E).
    cbn [fold_left]. rewrite E.
    destruct p as [[| a rest] | path]; cbn [policy_after accepted_line] in *.
    + contradiction.
    + destruct (String.eqb_spec a "*") as [-> | _].
      * subst rest. contradiction Hw. reflexivity.
      * exists ((a :: rest) ++ later). cbn [set_AgentTypes AgentTypes].
        rewrite <- app_assoc. reflexivity.
    + exists later. reflexivity.
Qed.

(** ** The wildcard, on whole directives *)

(** C4, as the code has it.  In a directive
    [knownagents { access_token tok; robots_txt { ... } }], one
    subdirective a line, whose [robots_txt] block starts with any lines
    the parser accepts: when the next line is [agent_types *] and the
    lines that follow it in the block are [disallow] lines or
    [agent_types *] again, parsing succeeds and the agent types of the
    policy are the whole catalog; when a further argument follows [*] on
    its line, parsing fails with [unexpected argument '<that argument>']
    at that line, whatever else follows. *)
Theorem C4_agent_types_wildcard
    (m : Knownagents) (tok : string) (before : list PolicyLine) :
  Robots m = None -> tok <> "" -> plain tok -> Forall accepted_line before ->
  (forall after : list PolicyLine,
     Forall accepted_line after ->
     Forall (fun p => p = AgentTypesLine ["*"] \/
                      exists path, p = DisallowLine path) after ->
     exists d' rt,
       UnmarshalCaddyfile m
         (dispenser_of
            ([["knownagents"; "{"]; ["access_token"; tok];
              ["robots_txt"; "{"]] ++
             map policy_line_words before ++ [["agent_types"; "*"]] ++
             map policy_line_words after ++ [["}"]; ["}"]])) =
       Ok tt {| AccessToken := tok; Robots := Some rt |} d' /\
       AgentTypes rt = allAgentTypes) /\
  (forall (x : string) (xs : list string) (more : list (list string)),
     x <> "{" ->
     exists m' d',
       UnmarshalCaddyfile m
         (dispenser_of
            ([["knownagents"; "{"]; ["access_token"; tok];
              ["robots_txt"; "{"]] ++
             map policy_line_words before ++
             ("agent_types" :: "*" :: x :: xs) :: more)) =
       Failed
         (wrapAt (errorString ("unexpected argument '" +:+ x +:+ "'"))
            "Testfile" (4 + Z.of_nat (length before))) m' d').
Proof.
  intros Hm Hne [Hbrace _] Hall. split.
  - intros after Hafter Hkind.
    change [["agent_types"; "*"]]
      with [policy_line_words (AgentTypesLine ["*"])].
    rewrite policy_lines_around.
    assert (Hats : AgentTypes
                     (fold_left policy_after
                        (before ++ [AgentTypesLine ["*"]] ++ after)
                        new_RobotsTxt) =
                   allAgentTypes).
    { rewrite !fold_left_app. cbn [fold_left].
      apply fold_catalog_kept; [exact Hkind | reflexivity]. }
    destruct (policy_directive_run m tok _ Hm Hne Hbrace
                (accepted_around before (AgentTypesLine ["*"]) after
                   Hall eq_refl Hafter)
                ltac:(rewrite Hats; discriminate)) as (d' & Hrun).
    exists d'. eexists. split; [exact Hrun | exact Hats].
  - intros x xs more Hx.
    apply wildcard_extra_directive; assumption.
Qed.

(** An [agent_types] line with a label after the [agent_types *] line:
    the parse succeeds, and the agent types it yields are the catalog
    followed by that label, not the catalog. *)
Lemma C4_counterexample :
  exists d,
    UnmarshalCaddyfile zero_Knownagents
      (dispenser_of [ ["knownagents"; "{"];
                      ["access_token"; "aHVudGVyMg=="];
                      ["robots_txt"; "{"];
                      ["agent_types"; "*"];
                      ["agent_types"; "Archiver"];
                      ["}"];
                      ["}"] ]) =
    Ok tt
       {| AccessToken := "aHVudGVyMg==";
          Robots := Some {| AgentTypes := allAgentTypes ++ ["Archiver"];
                            Disallow := ""; text := "" |} |} d /\
    allAgentTypes ++ ["Archiver"] <> allAgentTypes.
Proof.
  eexists. split; [vm_compute; reflexivity | discriminate].
Qed.

(** The wildcard after a line of labels and before a [disallow] line,
    and the wildcard followed by a label. *)
Lemma C4_witness :
  (exists d' rt,
     UnmarshalCaddyfile zero_Knownagents
       (dispenser_of [ ["knownagents"; "{"];
                       ["access_token"; "aHVudGVyMg=="];
                       ["robots_txt"; "{"];
                       ["agent_types"; "Archiver"];
                       ["agent_types"; "*"];
                       ["disallow"; "/"];
                       ["}"];
                       ["}"] ]) =
     Ok tt {| AccessToken := "aHVudGVyMg=="; Robots := Some rt |} d' /\
     AgentTypes rt = allAgentTypes) /\
  (exists m' d',
     UnmarshalCaddyfile zero_Knownagents
       (dispenser_of [ ["knownagents"; "{"];
                       ["access_token"; "aHVudGVyMg=="];
                       ["robots_txt"; "{"];
                       ["agent_types"; "Archiver"];
                       ["agent_types"; "*"; "Fetcher"];
                       ["}"];
                       ["}"] ]) =
     Failed (wrapAt (errorString "unexpected argument 'Fetcher'") "Testfile" 5)
       m' d').
Proof.
  destruct (C4_agent_types_wildcard zero_Knownagents "aHVudGVyMg=="
              [AgentTypesLine ["Archiver"]]) as [Hcatalog Hextra].
  - reflexivity.
  - discriminate.
  - split; [discriminate | reflexivity].
  - repeat constructor; discriminate.
  - split.
    + apply (Hcatalog [DisallowLine "/"]).
      * repeat constructor; discriminate.
      * constructor; [right; exists "/"; reflexivity | constructor].
    + apply (Hextra "Fetcher" [] [ ["}"]; ["}"] ]). discriminate.
Defined.

(** C9, as the code has it.  In such a directive, when the block holds
    an [agent_types] line whose first argument is not [*] and whose
    later arguments include [*], after any lines the parser accepts and
    before any such lines other than [agent_types *]: parsing succeeds,
    and the policy holds the labels of the earlier lines, then the
    arguments of the line, [*] among them, then what the later lines
    add; [Validate] then returns an [unrecognized agent type] error for
    a label outside the catalog, and that label is [*] when every other
    label is in the catalog. *)
Theorem C9_wildcard_after_label
    (m : Knownagents) (tok : string) (before : list PolicyLine)
    (a : string) (rest : list string) (after : list PolicyLine) :
  Robots m = None -> tok <> "" -> plain tok -> Forall accepted_line before ->
  a <> "*" -> Forall plain (a :: rest) -> In "*" rest ->
  Forall accepted_line after ->
  Forall (fun p => p <> AgentTypesLine ["*"]) after ->
  exists m' d' rt later,
    UnmarshalCaddyfile m
      (dispenser_of
         ([["knownagents"; "{"]; ["access_token"; tok];
           ["robots_txt"; "{"]] ++
          map policy_line_words before ++ ["agent_types" :: a :: rest] ++
          map policy_line_words after ++ [["}"]; ["}"]])) = Ok tt m' d' /\
    AccessToken m' = tok /\ Robots m' = Some rt /\
    AgentTypes rt =
      AgentTypes (fold_left policy_after before new_RobotsTxt) ++
      (a :: rest) ++ later /\
    (exists bad,
       In bad (AgentTypes rt) /\ ~ In bad allAgentTypes /\
       snd (Validate m') =
         Some (errorString ("unrecognized agent type '" +:+ bad +:+ "'"))) /\
    (Forall (fun l => l = "*" \/ In l allAgentTypes) (AgentTypes rt) ->
     snd (Validate m') = Some (errorString "unrecognized agent type '*'")).
Proof.
  intros Hm Hne [Hbrace _] Hall Hfirst Hargs Hstar Hafter Hnot.
  change ["agent_types" :: a :: rest]
    with [policy_line_words (AgentTypesLine (a :: rest))].
  rewrite policy_lines_around.
  assert (Hacc : accepted_line (AgentTypesLine (a :: rest))).
  { cbn [accepted_line].
    destruct (String.eqb_spec a "*"); [contradiction | exact Hargs]. }
  set (ps := before ++ [AgentTypesLine (a :: rest)] ++ after).
  assert (Hats : exists later,
             AgentTypes (fold_left policy_after ps new_RobotsTxt) =
             AgentTypes (fold_left policy_after before new_RobotsTxt) ++
             (a :: rest) ++ later).
  { unfold ps. rewrite !fold_left_app. cbn [fold_left].
    destruct (fold_labels_kept after
                (policy_after (fold_left policy_after before new_RobotsTxt)
                   (AgentTypesLine (a :: rest))) Hafter Hnot)
      as (later & E).
    exists later. rewrite E. cbn [policy_after].
    destruct (String.eqb_spec a "*"); [contradiction |].
    cbn [set_AgentTypes AgentTypes]. rewrite <- app_assoc. reflexivity. }
  destruct Hats as (later & Hats).
  assert (Hin : In "*" (AgentTypes (fold_left policy_after ps new_RobotsTxt))).
  { rewrite Hats. apply in_or_app. right. apply in_or_app. left. right.
    exact Hstar. }
  assert (Hsome : AgentTypes (fold_left policy_after ps new_RobotsTxt) <> []).
  { intros E. rewrite E in Hin. contradiction Hin. }
  destruct (policy_directive_run m tok ps Hm Hne Hbrace
              (accepted_around before _ after Hall Hacc Hafter) Hsome)
    as (d' & Hrun).
  eexists _, d', _, later. split; [exact Hrun |].
  split; [reflexivity |]. split; [reflexivity |]. split; [exact Hats |].
  unfold Validate. rewrite validate_result. cbn [Robots]. split.
  - apply check_agent_types_rejects. apply List.Exists_exists.
    exists "*". split; [exact Hin | exact star_not_in_catalog].
  - intros Hcat. apply check_agent_types_star; assumption.
Qed.

(** [agent_types * *]: the wildcard is in the second place too, and the
    parse fails.  [agent_types "AI Assistant" *] followed by
    [agent_types *]: the parse succeeds, the later line has replaced the
    labels by the catalog, and [Validate] accepts the module. *)
Lemma C9_counterexample :
  (In "*" (tl ["*"; "*"]) /\
   exists m d,
     UnmarshalCaddyfile zero_Knownagents
       (dispenser_of [ ["knownagents"; "{"];
                       ["access_token"; "aHVudGVyMg=="];
                       ["robots_txt"; "{"];
                       ["agent_types"; "*"; "*"];
                       ["}"];
                       ["}"] ]) =
     Failed (wrapAt (errorString "unexpected argument '*'") "Testfile" 4)
       m d) /\
  (In "*" (tl ["AI Assistant"; "*"]) /\
   exists m d,
     UnmarshalCaddyfile zero_Knownagents
       (dispenser_of [ ["knownagents"; "{"];
                       ["access_token"; "aHVudGVyMg=="];
                       ["robots_txt"; "{"];
                       ["agent_types"; "AI Assistant"; "*"];
                       ["agent_types"; "*"];
                       ["}"];
                       ["}"] ]) = Ok tt m d /\
     snd (Validate m) = None).
Proof.
  split.
  - split; [left; reflexivity |]. do 2 eexists. vm_compute. reflexivity.
  - split; [left; reflexivity |]. do 2 eexists.
    split; [vm_compute; reflexivity | reflexivity].
Qed.

Lemma C9_witness :
  exists m' d' rt,
    UnmarshalCaddyfile zero_Knownagents
      (dispenser_of [ ["knownagents"; "{"];
                      ["access_token"; "aHVudGVyMg=="];
                      ["robots_txt"; "{"];
                      ["agent_types"; "AI Assistant"; "*"];
                      ["disallow"; "/"];
                      ["}"];
                      ["}"] ]) = Ok tt m' d' /\
    Robots m' = Some rt /\
    AgentTypes rt = ["AI Assistant"; "*"] /\
    snd (Validate m') = Some (errorString "unrecognized agent type '*'").
Proof.
  destruct (C9_wildcard_after_label zero_Knownagents "aHVudGVyMg==" []
              "AI Assistant" ["*"] [DisallowLine "/"])
    as (m' & d' & rt & later & Hrun & _ & Hm & Hats & _ & Hstar).
  - reflexivity.
  - discriminate.
  - split; [discriminate | reflexivity].
  - constructor.
  - discriminate.
  - repeat constructor; discriminate.
  - left. reflexivity.
  - repeat constructor; discriminate.
  - repeat constructor; discriminate.
  - assert (Hlabels : AgentTypes rt = ["AI Assistant"; "*"]).
    { vm_compute in Hrun. injection Hrun as <- _. injection Hm as <-.
      reflexivity. }
    exists m', d', rt. split; [exact Hrun |]. split; [exact Hm |].
    split; [exact Hlabels |]. apply Hstar. rewrite Hlabels.
    constructor; [right; apply in_catalog; reflexivity |].
    constructor; [left; reflexivity | constructor].
Defined.

(** ** Repeated subdirectives, on whole directives *)

(** C10.  Every subdirective on a line of its own.  A directive whose
    block holds [access_token] lines, a [robots_txt] block of lines the
    parser accepts, more [access_token] lines and then a second
    [robots_txt]: parsing fails with [robots_txt is already configured]
    at the line of the second [robots_txt], whatever follows it.  A
    directive of [access_token] lines only, the last of them with a
    value that is not empty: parsing succeeds and the module holds the
    value of the last line.  The same holds with a [robots_txt] block
    that yields an agent type between the [access_token] lines. *)
Theorem C10_repeated_subdirectives :
  (forall (m : Knownagents) (vs1 : list string) (ps : list PolicyLine)
          (vs2 w : list string) (more : list (list string)),
     Robots m = None ->
     Forall plain vs1 -> Forall accepted_line ps -> Forall plain vs2 ->
     exists m' d',
       UnmarshalCaddyfile m
         (dispenser_of
            ([["knownagents"; "{"]] ++ map access_token_line vs1 ++
             [["robots_txt"; "{"]] ++ map policy_line_words ps ++ [["}"]] ++
             map access_token_line vs2 ++ ("robots_txt" :: w) :: more)) =
       Failed
         (wrapAt (errorString "robots_txt is already configured") "Testfile"
            (4 + Z.of_nat (length vs1 + length ps + length vs2)))
         m' d') /\
  (forall (m : Knownagents) (v : string) (vs : list string),
     Robots m = None -> Forall plain (v :: vs) -> List.last vs v <> "" ->
     exists d',
       UnmarshalCaddyfile m
         (dispenser_of
            ([["knownagents"; "{"]] ++ map access_token_line (v :: vs) ++
             [["}"]])) =
       Ok tt (set_AccessToken (List.last vs v) m) d') /\
  (forall (m : Knownagents) (vs1 : list string) (ps : list PolicyLine)
          (vs2 : list string),
     Robots m = None ->
     Forall plain vs1 -> Forall accepted_line ps -> Forall plain vs2 ->
     List.last (vs1 ++ vs2) "" <> "" ->
     AgentTypes (fold_left policy_after ps new_RobotsTxt) <> [] ->
     exists d',
       UnmarshalCaddyfile m
         (dispenser_of
            ([["knownagents"; "{"]] ++ map access_token_line vs1 ++
             [["robots_txt"; "{"]] ++ map policy_line_words ps ++ [["}"]] ++
             map access_token_line vs2 ++ [["}"]])) =
       Ok tt {| AccessToken := List.last (vs1 ++ vs2) "";
                Robots := Some (fold_left policy_after ps new_RobotsTxt) |}
          d').
Proof.
  split; [| split].
  - intros m vs1 ps vs2 w more Hm H1 Hps H2.
    unfold dispenser_of. rewrite directive_tokens. cbv zeta.
    cbn [lines_from line_of map app].
    destruct (directive_prefix_run m vs1 ps vs2 "robots_txt"
                (map (word (4 + Z.of_nat (length vs1) + Z.of_nat (length ps) +
                            Z.of_nat (length vs2))) w ++
                 lines_from (4 + Z.of_nat (length vs1) + Z.of_nat (length ps) +
                             Z.of_nat (length vs2) + 1) more)
                Hm (plain_not_brace _ H1) Hps (plain_not_brace _ H2))
      as (d1 & Hrun & Hp).
    cbv zeta in Hrun, Hp.
    rewrite UnmarshalCaddyfile_run, Hrun.
    match type of Hrun with
    | _ = for_NextBlock _ _ _ ?m1 _ => set (m' := m1) in *
    end.
    assert (Hm' : Robots m' <> None).
    { unfold m'. rewrite (proj2 (fold_set_AccessToken vs2 _)). discriminate. }
    destruct (second_robots_txt_fails _ m' d1 _ Hm' Hp) as [Hfail Hhere].
    cbv zeta in Hfail, Hhere. rewrite Hfail.
    eexists _, _. f_equal. unfold Err, WrapErr, Dispenser_File.
    rewrite (here_Line _ _ _ _ Hhere), (here_token _ _ _ _ Hhere).
    cbn [word File Line]. f_equal. lia.
  - intros m v vs Hm Hall Hlast.
    unfold dispenser_of.
    change (lines_from 1 ([["knownagents"; "{"]] ++ ?r))
      with (word 1 "knownagents" :: word 1 "{" :: lines_from 2 r).
    rewrite lines_from_app, length_map.
    set (L := 2 + Z.of_nat (length (v :: vs))).
    cbn [lines_from line_of map app access_token_line].
    destruct (directive_enter m "knownagents" (word 2 "access_token")
                (word 2 v :: lines_from (2 + 1) (map access_token_line vs) ++
                 [word L "}"])
                ltac:(discriminate) ltac:(discriminate)) as [Hrun0 Hp0].
    cbv zeta in Hrun0, Hp0.
    rewrite UnmarshalCaddyfile_run, Hrun0.
    destruct (access_token_lines_skip_to (v :: vs) 2 L m _ "}" []
                eq_refl (plain_not_brace _ Hall) Hp0) as (d1 & Hrun1 & Hp1).
    rewrite Hrun1.
    destruct (directive_end L
                (fold_left (fun m' x => set_AccessToken x m') (v :: vs) m)
                d1 Hp1) as [Hend Hchecks].
    cbv zeta in Hend, Hchecks. rewrite Hend, Hchecks.
    rewrite (fold_set_AccessToken_eq (v :: vs) m), last_cons.
    cbn [set_AccessToken AccessToken Robots]. rewrite Hm.
    destruct (String.eqb_spec (List.last vs v) ""); [contradiction |].
    eexists. reflexivity.
  - intros m vs1 ps vs2 Hm H1 Hps H2 Hlast Hats.
    destruct (directive_run m vs1 ps vs2 Hm (plain_not_brace _ H1) Hps
                (plain_not_brace _ H2)) as (d' & Hrun & _).
    cbv zeta in Hrun. rewrite Hrun. clear Hrun.
    rewrite !fold_set_AccessToken_eq.
    cbn [set_AccessToken set_Robots AccessToken Robots].
    rewrite (last_app_default vs1 vs2 (AccessToken m) "")
      by (intros E; rewrite E in Hlast; contradiction).
    destruct (String.eqb_spec (List.last (vs1 ++ vs2) "") "");
      [contradiction |].
    destruct (AgentTypes (fold_left policy_after ps new_RobotsTxt));
      [contradiction |].
    exists d'. reflexivity.
Qed.

(** The directive of [parse_second_robots_txt], three [access_token]
    lines, and an [access_token] line on either side of the block. *)
Lemma C10_witness :
  (exists m' d',
     UnmarshalCaddyfile zero_Knownagents
       (dispenser_of [ ["knownagents"; "{"];
                       ["access_token"; "aHVudGVyMg=="];
                       ["robots_txt"; "{"];
                       ["agent_types"; "Archiver"];
                       ["}"];
                       ["robots_txt"; "{"];
                       ["agent_types"; "Fetcher"];
                       ["}"];
                       ["}"] ]) =
     Failed
       (wrapAt (errorString "robots_txt is already configured") "Testfile" 6)
       m' d') /\
  (exists d',
     UnmarshalCaddyfile zero_Knownagents
       (dispenser_of [ ["knownagents"; "{"];
                       ["access_token"; "first"];
                       ["access_token"; "second"];
                       ["access_token"; "third"];
                       ["}"] ]) =
     Ok tt {| AccessToken := "third"; Robots := None |} d') /\
  (exists d',
     UnmarshalCaddyfile zero_Knownagents
       (dispenser_of [ ["knownagents"; "{"];
                       ["access_token"; "first"];
                       ["robots_txt"; "{"];
                       ["agent_types"; "Archiver"];
                       ["}"];
                       ["access_token"; "second"];
                       ["}"] ]) =
     Ok tt {| AccessToken := "second";
              Robots := Some {| AgentTypes := ["Archiver"]; Disallow := "";
                                text := "" |} |} d').
Proof.
  destruct C10_repeated_subdirectives as (Hblock & Htokens & Haround).
  split; [| split].
  - apply (Hblock zero_Knownagents ["aHVudGVyMg=="]
             [AgentTypesLine ["Archiver"]] [] ["{"]
             [ ["agent_types"; "Fetcher"]; ["}"]; ["}"] ]).
    + reflexivity.
    + repeat constructor; discriminate.
    + repeat constructor; discriminate.
    + constructor.
  - apply (Htokens zero_Knownagents "first" ["second"; "third"]).
    + reflexivity.
    + repeat constructor; discriminate.
    + discriminate.
  - apply (Haround zero_Knownagents ["first"] [AgentTypesLine ["Archiver"]]
             ["second"]).
    + reflexivity.
    + repeat constructor; discriminate.
    + repeat constructor; discriminate.
    + repeat constructor; discriminate.
    + discriminate.
    + discriminate.
Defined.
